(** * ctos-data-loader: a shallow embedding of [utils.py] and [loader.py]

    The development follows the two source files.  Python [str] values are
    lists of Unicode code points, library calls the sources rely on ([re],
    [uuid], [hashlib]) are embedded with the semantics of the CPython
    standard library, and the command-line driver [main] is a program over
    an interface of external calls whose runs yield traces. *)

From Stdlib Require Import List ZArith Lia Bool String Ascii Arith.
Import ListNotations.

Local Open Scope Z_scope.

(** ** Python strings *)

(** A [str] is a sequence of code points. *)
Definition pystr := list Z.

Definition lit (s : string) : pystr :=
  map (fun a => Z.of_nat (nat_of_ascii a)) (list_ascii_of_string s).

Fixpoint pystr_eqb (a b : pystr) : bool :=
  match a, b with
  | [], [] => true
  | x :: a', y :: b' => (x =? y) && pystr_eqb a' b'
  | _, _ => false
  end.

(** [s.endswith(suffix)] *)
Definition endswith (s suffix : pystr) : bool :=
  (List.length suffix <=? List.length s)%nat
  && pystr_eqb (skipn (List.length s - List.length suffix) s) suffix.

Definition SLASH : Z := 47.
Definition DOT : Z := 46.
Definition NEWLINE : Z := 10.
Definition UNDERSCORE : Z := 95.

(** ** The fragment of [re] used by the sources *)

Module Re.

(** Character tests.  For a [str] pattern [\w] is [ch.isalnum() or ch == '_'];
    below 128 that is [[0-9A-Za-z_]], above it the Unicode database decides. *)
Definition ascii_alnum (c : Z) : bool :=
  ((48 <=? c) && (c <=? 57)) || ((65 <=? c) && (c <=? 90))
  || ((97 <=? c) && (c <=? 122)).

Inductive atom :=
| Lit (c : Z)      (* a literal character, also an escaped one *)
| Word.            (* \w *)

Inductive item :=
| One (a : atom)
| Plus (a : atom)  (* a+, greedy *)
| Dollar           (* $ without MULTILINE *)
| EndZ.            (* end of string, what fullmatch adds *)

Definition regex := list item.

(** [$]: at the end of the string or just before a final newline. *)
Definition at_end (s : pystr) : bool :=
  match s with
  | [] => true
  | [c] => c =? NEWLINE
  | _ => false
  end.

Section Matcher.

Variable unicode_alnum : Z -> bool.

Definition is_word (c : Z) : bool :=
  if c <? 128 then ascii_alnum c || (c =? UNDERSCORE) else unicode_alnum c.

Definition accepts (a : atom) (c : Z) : bool :=
  match a with
  | Lit d => c =? d
  | Word => is_word c
  end.

(** Backtracking match anchored at the start of [s]; the result is the
    number of characters of the first match in priority order. *)
Fixpoint match_here (r : regex) : pystr -> option nat :=
  match r with
  | [] => fun _ => Some 0%nat
  | One a :: r' => fun s =>
      match s with
      | c :: s' => if accepts a c then option_map S (match_here r' s') else None
      | [] => None
      end
  | Plus a :: r' =>
      fix plus (s : pystr) : option nat :=
        match s with
        | c :: s' =>
            if accepts a c then
              match plus s' with
              | Some n => Some (S n)
              | None => option_map S (match_here r' s')
              end
            else None
        | [] => None
        end
  | Dollar :: r' => fun s => if at_end s then match_here r' s else None
  | EndZ :: r' => fun s =>
      match s with
      | [] => match_here r' []
      | _ :: _ => None
      end
  end.

(** [re.fullmatch(pattern, s) is not None] *)
Definition fullmatch (r : regex) (s : pystr) : bool :=
  match match_here (r ++ [EndZ]) s with
  | Some _ => true
  | None => false
  end.

(** [re.sub(pattern, repl, s)]: leftmost non-overlapping matches are
    replaced; [skip] counts the characters of a match still to drop. *)
Fixpoint sub_from (r : regex) (repl : pystr) (s : pystr) (skip : nat) : pystr :=
  match skip with
  | S k =>
      match s with
      | _ :: s' => sub_from r repl s' k
      | [] => []
      end
  | O =>
      match match_here r s with
      | Some (S n) =>
          repl ++ match s with
                  | _ :: s' => sub_from r repl s' n
                  | [] => []
                  end
      | Some O =>
          repl ++ match s with
                  | c :: s' => c :: sub_from r repl s' 0
                  | [] => []
                  end
      | None =>
          match s with
          | c :: s' => c :: sub_from r repl s' 0
          | [] => []
          end
      end
  end.

Definition sub (r : regex) (repl s : pystr) : pystr := sub_from r repl s 0.

(** [r] matches at the start of [s]. *)
Definition matches (r : regex) (s : pystr) : Prop :=
  exists n, match_here r s = Some n.

End Matcher.

End Re.

(** ** utils.py: [removeTrailingSlash] and [is_parent_pointer] *)

(** The pattern ['/+$']. *)
Definition TRAILING_SLASHES : Re.regex := [Re.Plus (Re.Lit SLASH); Re.Dollar].

(** The pattern [r'\w+\.\w+']. *)
Definition WORD_DOT_WORD : Re.regex :=
  [Re.Plus Re.Word; Re.One (Re.Lit DOT); Re.Plus Re.Word].

Section Utils_re.

Variable unicode_alnum : Z -> bool.

Definition removeTrailingSlash (uri : pystr) : pystr :=
  if endswith uri (lit "/") then Re.sub unicode_alnum TRAILING_SLASHES (lit "") uri
  else uri.

Definition is_parent_pointer (field_name : pystr) : bool :=
  Re.fullmatch unicode_alnum WORD_DOT_WORD field_name.

End Utils_re.

Definition ascii_only (c : Z) : bool := false.


(** ** [hashlib.sha1] *)

Module Sha1.

Definition add32 (a b : Z) : Z := (a + b) mod 2 ^ 32.

Definition rotl (n x : Z) : Z :=
  Z.lor (Z.shiftl x n) (Z.shiftr x (32 - n)) mod 2 ^ 32.

Definition not32 (x : Z) : Z := Z.lxor x 0xFFFFFFFF.

(** Big-endian bytes of [x], [n] of them. *)
Fixpoint to_bytes (n : nat) (x : Z) : list Z :=
  match n with
  | O => []
  | S k => to_bytes k (Z.shiftr x 8) ++ [x mod 256]
  end.

Definition from_bytes (bs : list Z) : Z :=
  fold_left (fun acc b => acc * 256 + b) bs 0.

Definition pad (msg : list Z) : list Z :=
  let len := Z.of_nat (List.length msg) in
  msg ++ [0x80] ++ repeat 0 (Z.to_nat ((55 - len) mod 64)) ++ to_bytes 8 (8 * len).

Fixpoint chunks (fuel : nat) (n : nat) (bs : list Z) : list (list Z) :=
  match fuel with
  | O => []
  | S f =>
      match bs with
      | [] => []
      | _ => firstn n bs :: chunks f n (skipn n bs)
      end
  end.

(** Message schedule: 16 words of the block, extended to 80. *)
Fixpoint extend (n : nat) (w : list Z) : list Z :=
  match n with
  | O => w
  | S k =>
      let t := List.length w in
      let x := Z.lxor (Z.lxor (nth (t - 3) w 0) (nth (t - 8) w 0))
                      (Z.lxor (nth (t - 14) w 0) (nth (t - 16) w 0)) in
      extend k (w ++ [rotl 1 x])
  end.

Definition schedule (block : list Z) : list Z :=
  extend 64 (map from_bytes (chunks 16 4 block)).

Definition state := (Z * Z * Z * Z * Z)%type.

Definition round (st : state) (tw : nat * Z) : state :=
  let '(a, b, c, d, e) := st in
  let '(t, w) := tw in
  let '(f, k) :=
    if (t <? 20)%nat then (Z.lor (Z.land b c) (Z.land (not32 b) d), 0x5A827999)
    else if (t <? 40)%nat then (Z.lxor (Z.lxor b c) d, 0x6ED9EBA1)
    else if (t <? 60)%nat then
      (Z.lor (Z.lor (Z.land b c) (Z.land b d)) (Z.land c d), 0x8F1BBCDC)
    else (Z.lxor (Z.lxor b c) d, 0xCA62C1D6) in
  let temp := add32 (add32 (add32 (add32 (rotl 5 a) f) e) k) w in
  (temp, a, rotl 30 b, c, d).

Definition compress (h : state) (block : list Z) : state :=
  let '(a, b, c, d, e) :=
    fold_left round (combine (seq 0 80) (schedule block)) h in
  let '(h0, h1, h2, h3, h4) := h in
  (add32 h0 a, add32 h1 b, add32 h2 c, add32 h3 d, add32 h4 e).

Definition init : state :=
  (0x67452301, 0xEFCDAB89, 0x98BADCFE, 0x10325476, 0xC3D2E1F0).

(** [sha1(msg).digest()], 20 bytes. *)
Definition digest (msg : list Z) : list Z :=
  let p := pad msg in
  let '(h0, h1, h2, h3, h4) :=
    fold_left compress (chunks (List.length p) 64 p) init in
  to_bytes 4 h0 ++ to_bytes 4 h1 ++ to_bytes 4 h2 ++ to_bytes 4 h3 ++ to_bytes 4 h4.

End Sha1.

(** ** [str.encode('utf-8')] and the [uuid] module *)

Inductive Exn :=
| SystemExit (code : option Z)
| ServiceUnavailable
| Exception (name : string).

Inductive Result (A : Type) :=
| Ok (a : A)
| Raised (e : Exn).
Arguments Ok {A} a.
Arguments Raised {A} e.

Definition utf8_char (c : Z) : option (list Z) :=
  if c <? 0 then None
  else if c <? 0x80 then Some [c]
  else if c <? 0x800 then
    Some [Z.lor 0xC0 (Z.shiftr c 6); Z.lor 0x80 (Z.land c 0x3F)]
  else if c <? 0x10000 then
    if (0xD800 <=? c) && (c <=? 0xDFFF) then None
    else Some [Z.lor 0xE0 (Z.shiftr c 12);
               Z.lor 0x80 (Z.land (Z.shiftr c 6) 0x3F);
               Z.lor 0x80 (Z.land c 0x3F)]
  else if c <=? 0x10FFFF then
    Some [Z.lor 0xF0 (Z.shiftr c 18);
          Z.lor 0x80 (Z.land (Z.shiftr c 12) 0x3F);
          Z.lor 0x80 (Z.land (Z.shiftr c 6) 0x3F);
          Z.lor 0x80 (Z.land c 0x3F)]
  else None.

(** [bytes(s, "utf-8")]; a lone surrogate raises [UnicodeEncodeError]. *)
Fixpoint utf8 (s : pystr) : option (list Z) :=
  match s with
  | [] => Some []
  | c :: s' =>
      match utf8_char c, utf8 s' with
      | Some b, Some bs => Some (b ++ bs)
      | _, _ => None
      end
  end.

Module Uuid.

(** A UUID is its 128-bit integer, as in [uuid.UUID.int]. *)
Definition UUID := Z.

(** [uuid.NAMESPACE_URL = UUID('6ba7b811-9dad-11d1-80b4-00c04fd430c8')] *)
Definition NAMESPACE_URL : UUID := 0x6ba7b8119dad11d180b400c04fd430c8.
Definition NAMESPACE_DNS : UUID := 0x6ba7b8109dad11d180b400c04fd430c8.

Definition bytes (u : UUID) : list Z := Sha1.to_bytes 16 u.

(** [UUID(bytes=b, version=v)]: the variant and version bits are forced. *)
Definition of_bytes (b : list Z) (version : Z) : UUID :=
  let i := Sha1.from_bytes b in
  let i := Z.land i (Z.lnot (Z.shiftl 0xc000 48)) in
  let i := Z.lor i (Z.shiftl 0x8000 48) in
  let i := Z.land i (Z.lnot (Z.shiftl 0xf000 64)) in
  Z.lor i (Z.shiftl version 76).

Definition uuid5 (namespace : UUID) (name : pystr) : Result UUID :=
  match utf8 name with
  | Some b => Ok (of_bytes (firstn 16 (Sha1.digest (bytes namespace ++ b))) 5)
  | None => Raised (Exception "UnicodeEncodeError")
  end.

Definition hex_digit (d : Z) : Z := if d <? 10 then 48 + d else 87 + d.

(** ['%0nx' % x] *)
Fixpoint hex (n : nat) (x : Z) : pystr :=
  match n with
  | O => []
  | S k => hex k (x / 16) ++ [hex_digit (x mod 16)]
  end.

(** [str(u)]: the 32 hex digits grouped 8-4-4-4-12. *)
Definition str (u : UUID) : pystr :=
  let h := hex 32 u in
  firstn 8 h ++ lit "-" ++ firstn 4 (skipn 8 h) ++ lit "-"
  ++ firstn 4 (skipn 12 h) ++ lit "-" ++ firstn 4 (skipn 16 h) ++ lit "-"
  ++ skipn 20 h.

End Uuid.

(** ** Programs over external calls *)

Inductive LogMethod := debug | info | error | critical | exception.

Inductive LogMsg :=
| MsgStr (s : pystr)
| MsgList (l : list pystr)
| MsgExn (e : Exn).

(** Handles of the objects the collaborators hand out. *)
Inductive Bucket := BucketHandle (id : Z).
Inductive Schema := SchemaHandle (id : Z).
Inductive Driver := DriverHandle (id : Z).
Inductive Loader := LoaderHandle (id : Z).

Inductive Mode := UPSERT_MODE | NEW_MODE | DELETE_MODE.

(** What a library call answers: a value or an ordinary exception. *)
Inductive Resp (X : Type) :=
| Returns (x : X)
| Fails (name : string).
Arguments Returns {X} x.
Arguments Fails {X} name.

(** Calls that talk to Neo4j can also raise [ServiceUnavailable]. *)
Inductive NeoResp (X : Type) :=
| NeoReturns (x : X)
| NeoFails (name : string)
| Unavailable.
Arguments NeoReturns {X} x.
Arguments NeoFails {X} name.
Arguments Unavailable {X}.

(** The arguments of the command line, as [argparse] hands them over. *)
Record Args := {
  uri : option pystr;
  user : option pystr;
  password : option pystr;
  schema : list pystr;
  cheat_mode : bool;
  dry_run : bool;
  wipe_db : bool;
  no_backup : bool;
  max_violations : option Z;
  bucket : option pystr;
  s3_folder : option pystr;
  mode : Mode;
  dir : pystr
}.

(** What [parser.parse_args()] does: it returns the arguments, or it exits,
    with status 2 on a command line it does not accept and with status 0
    after [--help]. *)
Inductive Parsed :=
| ParsedArgs (args : Args)
| ParseExit (code : Z).

Inductive Ext : Type -> Type :=
| ParseArgs : Ext Parsed
| GetLogger (name : string) : Ext (Resp unit)
| Log (logger : string) (m : LogMethod) (msg : LogMsg) : Ext unit
| PathExists (p : pystr) : Ext bool
| IsDir (p : pystr) : Ext bool
| IsFile (p : pystr) : Ext bool
| MakeDirs (p : pystr) : Ext (Resp unit)
| Glob (pattern : pystr) : Ext (list pystr)
| EnvironGet (key : pystr) : Ext (option pystr)
| S3BucketNew (name : pystr) : Ext (Resp Bucket)
| S3Download (b : Bucket) (folder dir : pystr) : Ext (Resp bool)
| TodayStrftime (fmt : pystr) : Ext pystr
| UrlHostname (uri : pystr) : Ext (Resp (option pystr))
| SubprocessCall (cmd : list pystr) : Ext (Resp Z)
| SchemaNew (files : list pystr) : Ext (Resp Schema)
| DriverNew (uri user password : pystr) : Ext (NeoResp Driver)
| LoaderNew (driver : option Driver) (schema : Schema) : Ext (NeoResp Loader)
| Print (msg : pystr) : Ext unit
| Input (prompt : pystr) : Ext (Resp pystr)
| LoaderLoad (l : Loader) (file_list : list pystr) (cheat_mode dry_run : bool)
    (mode : Mode) (wipe_db : bool) (max_violations : option Z) : Ext (NeoResp unit)
| DriverClose (d : Driver) : Ext (NeoResp unit).

Inductive Prog (A : Type) : Type :=
| Ret (a : A)
| Throw (e : Exn)
| Call {X : Type} (op : Ext X) (k : X -> Prog A).
Arguments Ret {A} a.
Arguments Throw {A} e.
Arguments Call {A X} op k.

Fixpoint bind {A B : Type} (p : Prog A) (f : A -> Prog B) : Prog B :=
  match p with
  | Ret a => f a
  | Throw e => Throw e
  | Call op k => Call op (fun x => bind (k x) f)
  end.

Declare Scope prog_scope.
Delimit Scope prog_scope with prog.
Notation "x <- p ;; q" := (bind p (fun x => q))
  (at level 61, p at next level, right associativity) : prog_scope.
Notation "p ;; q" := (bind p (fun _ => q))
  (at level 61, right associativity) : prog_scope.
Local Open Scope prog_scope.

Definition call {X : Type} (op : Ext X) : Prog X := Call op Ret.

(** A call that raises what the library raised. *)
Definition call_resp {X : Type} (op : Ext (Resp X)) : Prog X :=
  Call op (fun r => match r with
                    | Returns x => Ret x
                    | Fails name => Throw (Exception name)
                    end).

Definition call_neo {X : Type} (op : Ext (NeoResp X)) : Prog X :=
  Call op (fun r => match r with
                    | NeoReturns x => Ret x
                    | NeoFails name => Throw (Exception name)
                    | Unavailable => Throw ServiceUnavailable
                    end).

(** [try: p  except ...: h e]; [h] answers [None] for what the clause does
    not catch. *)
Fixpoint try_except {A : Type} (p : Prog A) (h : Exn -> option (Prog A)) : Prog A :=
  match p with
  | Ret a => Ret a
  | Throw e => match h e with
               | Some q => q
               | None => Throw e
               end
  | Call op k => Call op (fun x => try_except (k x) h)
  end.

Fixpoint for_each {A : Type} (l : list A) (body : A -> Prog unit) : Prog unit :=
  match l with
  | [] => Ret tt
  | a :: l' => body a ;; for_each l' body
  end.

(** [sys.exit(code)] *)
Definition sys_exit {A : Type} (code : option Z) : Prog A := Throw (SystemExit code).

Definition when (b : bool) (p : Prog unit) : Prog unit := if b then p else Ret tt.

(** An event of a run: the call and its answer. *)
Definition Event : Type := {X : Type & (Ext X * X)%type}.
Definition event {X : Type} (op : Ext X) (x : X) : Event := existT _ X (op, x).

Section Run.

Variable W : Type.
Variable handle : forall X : Type, Ext X -> W -> X * W.

Fixpoint run {A : Type} (p : Prog A) (w : W) : list Event * Result A * W :=
  match p with
  | Ret a => ([], Ok a, w)
  | Throw e => ([], Raised e, w)
  | Call op k =>
      let '(x, w1) := handle _ op w in
      let '(tr, r, w2) := run (k x) w1 in
      (event op x :: tr, r, w2)
  end.

Definition trace_of {A : Type} (p : Prog A) (w : W) : list Event :=
  fst (fst (run p w)).

Definition result_of {A : Type} (p : Prog A) (w : W) : Result A :=
  snd (fst (run p w)).

End Run.

(** ** utils.py: configuration, logging, identity, backup, schema check *)

Record Config := {
  ICDC_DOMAIN : pystr;
  BACKUP_FOLDER : pystr
}.

Definition PSWD_ENV : pystr := lit "NEO_PASSWORD".
Definition DATETIME_FORMAT : pystr := lit "%Y%m%d-%H%M%S".
Definition QUOTE : Z := 34.
Definition TAB : Z := 9.

(** A logger is known by its name.  The set-up of utils.py reads
    [DL_LOG_LEVEL] on every call, and [log.setLevel] raises [ValueError] on
    a level it does not know: [GetLogger] is that set-up as one call, which
    answers with the logger or with the exception. *)
Definition get_logger (name : string) : Prog string :=
  call_resp (GetLogger name) ;; Ret name.

Definition log_str (log : string) (m : LogMethod) (msg : pystr) : Prog unit :=
  call (Log log m (MsgStr msg)).

Definition lift {A : Type} (r : Result A) : Prog A :=
  match r with
  | Ok a => Ret a
  | Raised e => Throw e
  end.

Definition get_uuid_for_node (cfg : Config) (node_type signature : pystr) : Prog pystr :=
  log <- get_logger "Utils" ;;
  icdc_base_uuid <- lift (Uuid.uuid5 Uuid.NAMESPACE_URL (ICDC_DOMAIN cfg)) ;;
  type_uuid <- lift (Uuid.uuid5 icdc_base_uuid node_type) ;;
  node_uuid <- lift (Uuid.uuid5 type_uuid signature) ;;
  log_str log debug (lit "Node UUID: " ++ Uuid.str node_uuid) ;;
  Ret (Uuid.str node_uuid).

(** ['{}'.format(x)] for a value that is a [str] or [None]. *)
Definition format_opt (x : option pystr) : pystr :=
  match x with
  | Some s => s
  | None => lit "None"
  end.

Definition join (sep : pystr) (l : list pystr) : pystr :=
  match l with
  | [] => []
  | x :: l' => x ++ flat_map (fun y => sep ++ y) l'
  end.

Definition is_local (address : option pystr) : bool :=
  match address with
  | Some a => pystr_eqb a (lit "localhost") || pystr_eqb a (lit "127.0.0.1")
  | None => false
  end.

(** The result is the restore hint, or [None] for Python's [False]. *)
Definition backup_neo4j (cfg : Config) (backup_dir name : pystr)
    (address : option pystr) (log : string) : Prog (option pystr) :=
  try_except
    (let restore_cmd :=
       lit "To restore DB from backup (to remove any changes caused by current data loading, run following commands:"
       ++ [NEWLINE] in
     let restore_cmd := restore_cmd ++ repeat 35 160 ++ [NEWLINE] in
     let neo4j_cmd :=
       lit "neo4j-admin restore --from=" ++ BACKUP_FOLDER cfg ++ lit "/" ++ name
       ++ lit " --force" in
     let cmds :=
       [ [lit "mkdir"; lit "-p"; backup_dir];
         [lit "neo4j-admin"; lit "backup";
          lit "--backup-dir=" ++ backup_dir; lit "--name=" ++ name] ] in
     restore_cmd <-
       (if is_local address then
          let restore_cmd :=
            restore_cmd ++ [TAB] ++ lit "$ neo4j stop && " ++ neo4j_cmd
            ++ lit " && neo4j start" ++ [NEWLINE] in
          for_each cmds (fun cmd =>
            call (Log log info (MsgList cmd)) ;;
            call_resp (SubprocessCall cmd) ;;
            Ret tt) ;;
          Ret restore_cmd
        else
          let second_cmd :=
            lit "sudo systemctl stop neo4j && " ++ neo4j_cmd
            ++ lit " && sudo systemctl start neo4j && exit" in
          let restore_cmd :=
            restore_cmd ++ [TAB] ++ lit "$ echo " ++ [QUOTE] ++ second_cmd ++ [QUOTE]
            ++ lit " | ssh -t " ++ format_opt address ++ lit " sudo su - neo4j"
            ++ [NEWLINE] in
          for_each cmds (fun cmd =>
            match address with
            | None => Throw (Exception "TypeError")
            | Some a =>
                let remote_cmd := [lit "ssh"; a] ++ cmd in
                log_str log info (join (lit " ") remote_cmd) ;;
                call_resp (SubprocessCall remote_cmd) ;;
                Ret tt
            end) ;;
          Ret restore_cmd) ;;
     let restore_cmd := restore_cmd ++ repeat 35 160 in
     Ret (Some restore_cmd))
    (fun e =>
       match e with
       | SystemExit _ => None
       | _ => Some (call (Log log exception (MsgExn e)) ;; Ret None)
       end).

Definition get_host (uri : pystr) : Prog (option pystr) :=
  call_resp (UrlHostname uri).

Fixpoint check_each_schema (schemas : list pystr) (log : string) : Prog bool :=
  match schemas with
  | [] => Ret true
  | schema_file :: rest =>
      f <- call (IsFile schema_file) ;;
      if negb f then
        log_str log error (schema_file ++ lit " is not a file") ;;
        Ret false
      else check_each_schema rest log
  end.

Definition check_schema_files (schemas : list pystr) (log : string) : Prog bool :=
  match schemas with
  | [] =>
      log_str log error (lit "Please specify schema file(s) with -s or --schema argument") ;;
      Ret false
  | _ => check_each_schema schemas log
  end.

(** ** [str.strip] and [str.lower] *)

(** [ch.isspace()] *)
Definition isspace (c : Z) : bool :=
  ((9 <=? c) && (c <=? 13)) || ((28 <=? c) && (c <=? 32))
  || (c =? 0x85) || (c =? 0xA0) || (c =? 0x1680)
  || ((0x2000 <=? c) && (c <=? 0x200A))
  || (c =? 0x2028) || (c =? 0x2029) || (c =? 0x202F) || (c =? 0x205F)
  || (c =? 0x3000).

Fixpoint lstrip (s : pystr) : pystr :=
  match s with
  | c :: s' => if isspace c then lstrip s' else s
  | [] => []
  end.

Definition strip (s : pystr) : pystr := rev (lstrip (rev (lstrip s))).

Definition ascii_lower (c : Z) : Z :=
  if (65 <=? c) && (c <=? 90) then c + 32 else c.

(** ** loader.py *)

(** Truth value of an optional string: [None] and [''] are false. *)
Definition truthy (x : option pystr) : bool :=
  match x with
  | Some (_ :: _) => true
  | _ => false
  end.

Definition the (x : option pystr) : pystr :=
  match x with
  | Some s => s
  | None => []
  end.

Section Loader.

(** The Unicode database: word characters above 127, and the lower-casing
    of the character above 127 at an index of a string (it depends on the
    context for a capital sigma). *)
Variable unicode_alnum : Z -> bool.
Variable unicode_lower : pystr -> nat -> pystr.

Variable cfg : Config.

Definition lower (s : pystr) : pystr :=
  flat_map (fun ic => if snd ic <? 128 then [ascii_lower (snd ic)]
                      else unicode_lower s (fst ic))
           (combine (seq 0 (List.length s)) s).

Definition confirm_wipe_db : Prog bool :=
  call (Print (lit "Wipe out entire Neo4j database before loading?")) ;;
  confirm <- call_resp (Input
    (lit "Type " ++ [QUOTE] ++ lit "yes" ++ [QUOTE]
     ++ lit " and press enter to proceed (You'll LOSE ALL DATA!!!), press enter to cancel:")) ;;
  let confirm := lower (strip confirm) in
  Ret (pystr_eqb confirm (lit "yes")).

Definition main (args : Args) : Prog unit :=
  log <- get_logger "Loader" ;;
  let directory := dir args in
  when (truthy (s3_folder args))
    (ex <- call (PathExists directory) ;;
     if negb ex then call_resp (MakeDirs directory)
     else
       exist_files <- call (Glob (directory ++ lit "/*")) ;;
       when (0 <? List.length exist_files)%nat
         (log_str log error
            (lit "Folder: " ++ [QUOTE] ++ directory ++ [QUOTE]
             ++ lit " is not empty, please empty it first") ;;
          sys_exit (Some 1))) ;;
  when (truthy (s3_folder args))
    (when (negb (truthy (bucket args)))
       (log_str log error (lit "Please specify S3 bucket name with -b/--bucket argument!") ;;
        sys_exit (Some 1)) ;;
     s3bucket <- call_resp (S3BucketNew (the (bucket args))) ;;
     d <- call (IsDir directory) ;;
     when (negb d)
       (log_str log error (directory ++ lit " is not a directory!") ;;
        sys_exit (Some 1)) ;;
     ok <- call_resp (S3Download s3bucket (the (s3_folder args)) directory) ;;
     when (negb ok)
       (log_str log error
          (lit "Download files from S3 bucket " ++ [QUOTE] ++ the (bucket args)
           ++ [QUOTE] ++ lit " failed!") ;;
        sys_exit (Some 1))) ;;
  d <- call (IsDir directory) ;;
  when (negb d)
    (log_str log error (directory ++ lit " is not a directory!") ;;
     sys_exit (Some 1)) ;;
  let uri := if truthy (uri args) then the (uri args)
             else lit "bolt://localhost:7687" in
  let uri := removeTrailingSlash unicode_alnum uri in
  password <-
    (if negb (truthy (password args)) then
       env <- call (EnvironGet PSWD_ENV) ;;
       match env with
       | None =>
           log_str log error
             (lit "Password not specified! Please specify password with -p or --password argument, or set "
              ++ PSWD_ENV ++ lit " env var") ;;
           sys_exit (Some 1)
       | Some p => Ret p
       end
     else Ret (the (password args))) ;;
  let user := if truthy (user args) then the (user args) else lit "neo4j" in
  ok <- check_schema_files (schema args) log ;;
  when (negb ok) (sys_exit (Some 1)) ;;
  try_except
    (file_list <- call (Glob (directory ++ lit "/*.txt")) ;;
     match file_list with
     | _ :: _ =>
         backup_name <- call (TodayStrftime DATETIME_FORMAT) ;;
         host <- get_host uri ;;
         let restore_cmd := Some (lit "") in
         restore_cmd <-
           (if negb (no_backup args) && negb (dry_run args) then
              restore_cmd <- backup_neo4j cfg (BACKUP_FOLDER cfg) backup_name host log ;;
              when (negb (truthy restore_cmd))
                (log_str log error (lit "Backup Neo4j failed, abort loading!") ;;
                 sys_exit (Some 1)) ;;
              Ret restore_cmd
            else Ret restore_cmd) ;;
         schema <- call_resp (SchemaNew (schema args)) ;;
         let driver := None in
         driver <-
           (if negb (dry_run args) then
              d <- call_neo (DriverNew uri user password) ;; Ret (Some d)
            else Ret driver) ;;
         loader <- call_neo (LoaderNew driver schema) ;;
         when (wipe_db args)
           (c <- confirm_wipe_db ;;
            when (negb c) (sys_exit None)) ;;
         call_neo (LoaderLoad loader file_list (cheat_mode args) (dry_run args)
                     (mode args) (wipe_db args) (max_violations args)) ;;
         match driver with
         | Some d => call_neo (DriverClose d)
         | None => Ret tt
         end ;;
         when (truthy restore_cmd) (log_str log info (the restore_cmd))
     | [] => log_str log info (lit "No files to load.")
     end)
    (fun err =>
       match err with
       | ServiceUnavailable =>
           Some (call (Log log exception (MsgExn err)) ;;
                 log_str log critical
                   (lit "Can't connect to Neo4j server at: " ++ [QUOTE] ++ uri ++ [QUOTE]))
       | _ => None
       end).

(** [main] from its first line: the command line is parsed, and [argparse]
    may end the run there; the rest is [main] above. *)
Definition main_from_command_line : Prog unit :=
  parsed <- call ParseArgs ;;
  match parsed with
  | ParsedArgs args => main args
  | ParseExit code => sys_exit (Some code)
  end.

End Loader.

(** ** Properties of runs *)

(** [wp p post]: [post] holds of the trace and result of every run of [p],
    whatever the collaborators answer. *)
Fixpoint wp {A : Type} (p : Prog A) (post : list Event -> Result A -> Prop) : Prop :=
  match p with
  | Ret a => post [] (Ok a)
  | Throw e => post [] (Raised e)
  | Call op k => forall x, wp (k x) (fun tr r => post (event op x :: tr) r)
  end.

Definition op_of (ev : Event) : Ext (projT1 ev) := fst (projT2 ev).

Definition is_DriverNew (ev : Event) : bool :=
  match op_of ev with DriverNew _ _ _ => true | _ => false end.

Definition is_SchemaNew (ev : Event) : bool :=
  match op_of ev with SchemaNew _ => true | _ => false end.

Definition is_LoaderNew (ev : Event) : bool :=
  match op_of ev with LoaderNew _ _ => true | _ => false end.

Definition is_LoaderLoad (ev : Event) : bool :=
  match op_of ev with LoaderLoad _ _ _ _ _ _ _ => true | _ => false end.

Definition is_SubprocessCall (ev : Event) : bool :=
  match op_of ev with SubprocessCall _ => true | _ => false end.

(** Building the schema, opening the session, building the loader, loading. *)
Definition load_activity (ev : Event) : bool :=
  is_SchemaNew ev || is_DriverNew ev || is_LoaderNew ev || is_LoaderLoad ev.

(** Calls that change the file system. *)
Definition writes_files (ev : Event) : bool :=
  match op_of ev with
  | MakeDirs _ | S3Download _ _ _ | SubprocessCall _ => true
  | _ => false
  end.

(** Answered calls, with their answers. *)
Definition subprocess_returned {X : Type} (op : Ext X) : X -> option (list pystr) :=
  match op in Ext T return T -> option (list pystr) with
  | SubprocessCall cmd => fun r => match r with
                                   | Returns _ => Some cmd
                                   | Fails _ => None
                                   end
  | _ => fun _ => None
  end.

Definition glob_answer {X : Type} (op : Ext X) : X -> option (pystr * list pystr) :=
  match op in Ext T return T -> option (pystr * list pystr) with
  | Glob pat => fun l => Some (pat, l)
  | _ => fun _ => None
  end.

Definition isfile_answer {X : Type} (op : Ext X) : X -> option (pystr * bool) :=
  match op in Ext T return T -> option (pystr * bool) with
  | IsFile p => fun b => Some (p, b)
  | _ => fun _ => None
  end.

Definition isdir_answer {X : Type} (op : Ext X) : X -> option (pystr * bool) :=
  match op in Ext T return T -> option (pystr * bool) with
  | IsDir p => fun b => Some (p, b)
  | _ => fun _ => None
  end.

Definition input_answer {X : Type} (op : Ext X) : X -> option pystr :=
  match op in Ext T return T -> option pystr with
  | Input _ => fun r => match r with
                        | Returns s => Some s
                        | Fails _ => None
                        end
  | _ => fun _ => None
  end.

Definition answered {R : Type} (f : forall X : Type, Ext X -> X -> option R)
    (ev : Event) : option R :=
  f _ (fst (projT2 ev)) (snd (projT2 ev)).

(** The [neo4j-admin backup] command of [backup_neo4j] was run and returned. *)
Definition is_backup_call (backup_dir : pystr) (ev : Event) : bool :=
  match answered (@subprocess_returned) ev with
  | Some cmd =>
      match rev cmd with
      | _ :: d :: b :: _ =>
          pystr_eqb d (lit "--backup-dir=" ++ backup_dir) && pystr_eqb b (lit "backup")
      | _ => false
      end
  | None => false
  end.

(** [glob] of [pattern] answered with at least one file. *)
Definition is_glob_nonempty (pattern : pystr) (ev : Event) : bool :=
  match answered (@glob_answer) ev with
  | Some (pat, _ :: _) => pystr_eqb pat pattern
  | _ => false
  end.

Definition is_glob_of (pattern : pystr) (ev : Event) : bool :=
  match answered (@glob_answer) ev with
  | Some (pat, _) => pystr_eqb pat pattern
  | None => false
  end.

(** [os.path.isfile(f)] answered [b]. *)
Definition is_isfile (f : pystr) (b : bool) (ev : Event) : bool :=
  match answered (@isfile_answer) ev with
  | Some (p, x) => pystr_eqb p f && Bool.eqb x b
  | None => false
  end.

Definition is_isdir (d : pystr) (b : bool) (ev : Event) : bool :=
  match answered (@isdir_answer) ev with
  | Some (p, x) => pystr_eqb p d && Bool.eqb x b
  | None => false
  end.

(** What [input()] returned, if the event is an answered [input()]. *)
Definition input_of (ev : Event) : option pystr := answered (@input_answer) ev.

Definition logger_answer {X : Type} (op : Ext X) : X -> option (string * Resp unit) :=
  match op in Ext T return T -> option (string * Resp unit) with
  | GetLogger name => fun r => Some (name, r)
  | _ => fun _ => None
  end.

(** Not a set-up of the logger [name] that raised. *)
Definition logger_ready (name : string) (ev : Event) : bool :=
  match answered (@logger_answer) ev with
  | Some (n, Fails _) => negb (String.eqb n name)
  | _ => true
  end.

(** No event [late] comes before the first event [gate]. *)
Fixpoint guarded (gate late : Event -> bool) (tr : list Event) : bool :=
  match tr with
  | [] => true
  | ev :: tr' => negb (late ev) && (gate ev || guarded gate late tr')
  end.

Definition aborted {A : Type} (r : Result A) : Prop := exists e, r = Raised e.

(** ** Reference definitions from the specification *)

Definition result_bind {A B : Type} (r : Result A) (f : A -> Result B) : Result B :=
  match r with
  | Ok a => f a
  | Raised e => Raised e
  end.

(** Three nested version-5 derivations: base id from the domain, per-type
    id from the base id and the type, node id from the per-type id and the
    signature; the result is the string form of the last. *)
Definition nested_uuid5 (domain node_type signature : pystr) : Result pystr :=
  result_bind (Uuid.uuid5 Uuid.NAMESPACE_URL domain) (fun base =>
  result_bind (Uuid.uuid5 base node_type) (fun per_type =>
  result_bind (Uuid.uuid5 per_type signature) (fun final =>
  Ok (Uuid.str final)))).

(** [u] without its trailing slashes. *)
Fixpoint strip_trailing_slashes (u : pystr) : pystr :=
  match u with
  | [] => []
  | c :: u' =>
      match strip_trailing_slashes u' with
      | [] => if c =? SLASH then [] else [c]
      | r => c :: r
      end
  end.

(** A byte value. *)
Definition is_byte (b : Z) : Prop := 0 <= b < 256.

(** The hex digits of a string form, dashes removed. *)
Definition undash (s : pystr) : pystr :=
  firstn 8 s ++ firstn 4 (skipn 9 s) ++ firstn 4 (skipn 14 s)
  ++ firstn 4 (skipn 19 s) ++ skipn 24 s.

(** [u.endswith('/')], by recursion on [u]. *)
Fixpoint ends_with_slash (u : pystr) : bool :=
  match u with
  | [] => false
  | c :: u' => match u' with
               | [] => c =? SLASH
               | _ :: _ => ends_with_slash u'
               end
  end.

Definition all_slashes (u : pystr) : bool := forallb (fun c => c =? SLASH) u.

(** The shape [word.word]: word characters, one dot, word characters. *)
Definition word_dot_word (unicode_alnum : Z -> bool) (s : pystr) : Prop :=
  exists p q,
    s = p ++ DOT :: q /\ p <> [] /\ q <> []
    /\ forallb (Re.is_word unicode_alnum) p = true
    /\ forallb (Re.is_word unicode_alnum) q = true.

(** Operations on the store. *)
Inductive StoreOp :=
| OpenSession (d : Driver)
| WipeStore
| ApplyFile (m : Mode) (file : pystr).

(** Modelled from the spec: [DataLoader.load] of data_loader.py, which is
    not among the sources.  Cheat mode bypasses the Validator; a dry run
    runs the Validator and stops before the Load Engine, regardless of the
    outcome; otherwise violations stop the load, the wipe step comes
    before any file, and the files are applied in order on one session.
    [validate] counts the violations of the batch. *)
Definition DataLoader_load (validate : list pystr -> option Z -> nat)
    (driver : option Driver) (file_list : list pystr) (cheat_mode dry_run : bool)
    (mode : Mode) (wipe_db : bool) (max_violations : option Z) : Result (list StoreOp) :=
  let violations := if cheat_mode then 0%nat else validate file_list max_violations in
  if dry_run then Ok []
  else if (0 <? violations)%nat then Ok []
  else
    match driver with
    | None => Raised (Exception "AttributeError")
    | Some d =>
        Ok (OpenSession d :: (if wipe_db then [WipeStore] else [])
            ++ map (ApplyFile mode) file_list)
    end.

(** ** A scripted world, for running the programs on concrete inputs *)

Record Answers := {
  ans_exists : bool;
  ans_isdir : bool;
  ans_isfile : bool;
  ans_glob : list pystr;
  ans_environ : option pystr;
  ans_today : pystr;
  ans_hostname : option pystr;
  ans_exit_code : Z;
  ans_input : pystr
}.

Definition sample_args : Args :=
  {| uri := None; user := None; password := Some (lit "pw");
     schema := [lit "model.yml"]; cheat_mode := false; dry_run := false;
     wipe_db := false; no_backup := false; max_violations := Some 10;
     bucket := None; s3_folder := None; mode := UPSERT_MODE; dir := lit "data" |}.

Definition answer (a : Answers) (X : Type) (op : Ext X) (w : unit) : X * unit :=
  match op in Ext T return T * unit with
  | ParseArgs => (ParsedArgs sample_args, w)
  | GetLogger _ => (Returns tt, w)
  | Log _ _ _ => (tt, w)
  | PathExists _ => (ans_exists a, w)
  | IsDir _ => (ans_isdir a, w)
  | IsFile _ => (ans_isfile a, w)
  | MakeDirs _ => (Returns tt, w)
  | Glob _ => (ans_glob a, w)
  | EnvironGet _ => (ans_environ a, w)
  | S3BucketNew _ => (Returns (BucketHandle 0), w)
  | S3Download _ _ _ => (Returns true, w)
  | TodayStrftime _ => (ans_today a, w)
  | UrlHostname _ => (Returns (ans_hostname a), w)
  | SubprocessCall _ => (Returns (ans_exit_code a), w)
  | SchemaNew _ => (Returns (SchemaHandle 0), w)
  | DriverNew _ _ _ => (NeoReturns (DriverHandle 0), w)
  | LoaderNew _ _ => (NeoReturns (LoaderHandle 0), w)
  | Print _ => (tt, w)
  | Input _ => (Returns (ans_input a), w)
  | LoaderLoad _ _ _ _ _ _ _ => (NeoReturns tt, w)
  | DriverClose _ => (NeoReturns tt, w)
  end.

Definition sample_answers : Answers :=
  {| ans_exists := true; ans_isdir := true; ans_isfile := true;
     ans_glob := [lit "data/case.txt"]; ans_environ := Some (lit "secret");
     ans_today := lit "20200101-000000"; ans_hostname := Some (lit "localhost");
     ans_exit_code := 0; ans_input := lit " YES " |}.

Definition sample_config : Config :=
  {| ICDC_DOMAIN := lit "d.org"; BACKUP_FOLDER := lit "/backups" |}.

Definition ascii_lower_only (s : pystr) (i : nat) : pystr := [nth i s 0].

(** What the logger set-up of [name] answers in the state [w] of a world. *)
Definition logger_set_up (W : Type) (handle : forall X : Type, Ext X -> W -> X * W)
    (name : string) (w : W) : Resp unit :=
  fst (handle _ (GetLogger name) w).

(** A world in which [DL_LOG_LEVEL] names a level that [logging] does not
    know: the logger set-up raises [ValueError]. *)
Definition unknown_level (X : Type) (op : Ext X) (w : unit) : X * unit :=
  match op in Ext T return T * unit with
  | GetLogger _ => (Fails "ValueError", w)
  | op' => answer sample_answers _ op' w
  end.


(** ** Classes of events *)

(** The calls of the schema check. *)
Definition schema_check_event (ev : Event) : bool :=
  match op_of ev with
  | IsFile _ | Log _ _ _ => true
  | _ => false
  end.

(** The calls [main] makes before it lists the data files of [directory]. *)
Definition startup_event (directory : pystr) (ev : Event) : bool :=
  match op_of ev with
  | GetLogger _ | Log _ _ _ | PathExists _ | IsDir _ | IsFile _ | MakeDirs _
  | EnvironGet _ | S3BucketNew _ | S3Download _ _ _ => true
  | Glob pat => pystr_eqb pat (directory ++ lit "/*")
  | _ => false
  end.

(** The calls of [backup_neo4j]. *)
Definition backup_event (ev : Event) : bool :=
  match op_of ev with
  | SubprocessCall _ | Log _ _ _ => true
  | _ => false
  end.

(** Events of a run without a session: no driver is created or closed, the
    loader is built without one and is only asked for a dry run. *)
Definition sessionless (ev : Event) : bool :=
  match op_of ev with
  | DriverNew _ _ _ | DriverClose _ => false
  | LoaderNew d _ => match d with
                     | None => true
                     | Some _ => false
                     end
  | LoaderLoad _ _ _ dry _ _ _ => dry
  | _ => true
  end.

(** Neither a gate nor a late event. *)
Definition quiet (gate late : Event -> bool) (ev : Event) : bool :=
  negb (gate ev) && negb (late ev).

(** [input()] returned a string that is [yes] once stripped and lowered. *)
Definition confirmed (unicode_lower : pystr -> nat -> pystr) (ev : Event) : bool :=
  match input_of ev with
  | Some s => pystr_eqb (lower unicode_lower (strip s)) (lit "yes")
  | None => false
  end.

(** [input()] returned anything else. *)
Definition refused (unicode_lower : pystr -> nat -> pystr) (ev : Event) : bool :=
  match input_of ev with
  | Some s => negb (pystr_eqb (lower unicode_lower (strip s)) (lit "yes"))
  | None => false
  end.

Definition environ_answer {X : Type} (op : Ext X) : X -> option (pystr * option pystr) :=
  match op in Ext T return T -> option (pystr * option pystr) with
  | EnvironGet key => fun v => Some (key, v)
  | _ => fun _ => None
  end.

(** The environment was asked for [key] and does not hold it. *)
Definition environ_missing (key : pystr) (ev : Event) : bool :=
  match answered (@environ_answer) ev with
  | Some (k, None) => pystr_eqb k key
  | _ => false
  end.

(** A failed start-up check: the data directory is not a directory, or a
    schema path of [schemas] is not a file. *)
Definition check_failed (directory : pystr) (schemas : list pystr) (ev : Event) : bool :=
  is_isdir directory false ev || existsb (fun f => is_isfile f false ev) schemas.

(** Neither loading nor a command. *)
Definition idle (ev : Event) : bool :=
  negb (load_activity ev) && negb (is_SubprocessCall ev).

(** Further scripted inputs. *)
Definition wipe_args : Args :=
  {| uri := None; user := None; password := Some (lit "pw");
     schema := [lit "model.yml"]; cheat_mode := false; dry_run := false;
     wipe_db := true; no_backup := false; max_violations := Some 10;
     bucket := None; s3_folder := None; mode := UPSERT_MODE; dir := lit "data" |}.

Definition no_file_answers : Answers :=
  {| ans_exists := true; ans_isdir := true; ans_isfile := false;
     ans_glob := [lit "data/case.txt"]; ans_environ := Some (lit "secret");
     ans_today := lit "20200101-000000"; ans_hostname := Some (lit "localhost");
     ans_exit_code := 0; ans_input := lit "yes" |}.

Definition no_txt_answers : Answers :=
  {| ans_exists := true; ans_isdir := true; ans_isfile := true;
     ans_glob := []; ans_environ := None;
     ans_today := lit "20200101-000000"; ans_hostname := Some (lit "localhost");
     ans_exit_code := 0; ans_input := lit "yes" |}.

Definition no_password_args : Args :=
  {| uri := None; user := None; password := None;
     schema := [lit "model.yml"]; cheat_mode := false; dry_run := false;
     wipe_db := false; no_backup := false; max_violations := Some 10;
     bucket := None; s3_folder := None; mode := UPSERT_MODE; dir := lit "data" |}.

(** ** Further observations of runs *)

(** The commands handed to [subprocess.call], in order. *)
Definition subprocess_cmd {X : Type} (op : Ext X) : option (list pystr) :=
  match op with
  | SubprocessCall cmd => Some cmd
  | _ => None
  end.

Fixpoint commands_run (tr : list Event) : list (list pystr) :=
  match tr with
  | [] => []
  | ev :: tr' =>
      match subprocess_cmd (op_of ev) with
      | Some cmd => cmd :: commands_run tr'
      | None => commands_run tr'
      end
  end.

(** [subprocess.call] raised. *)
Definition subprocess_raised {X : Type} (op : Ext X) : X -> bool :=
  match op in Ext T return T -> bool with
  | SubprocessCall _ => fun r => match r with
                                 | Returns _ => false
                                 | Fails _ => true
                                 end
  | _ => fun _ => false
  end.

Definition command_raised (ev : Event) : bool :=
  subprocess_raised (fst (projT2 ev)) (snd (projT2 ev)).

(** The two commands of a backup, as [backup_neo4j] builds them: run
    directly on the local host, through [ssh] on any other. *)
Definition backup_commands (backup_dir name : pystr) (address : option pystr)
  : list (list pystr) :=
  let cmds :=
    [ [lit "mkdir"; lit "-p"; backup_dir];
      [lit "neo4j-admin"; lit "backup";
       lit "--backup-dir=" ++ backup_dir; lit "--name=" ++ name] ] in
  if is_local address then cmds
  else match address with
       | Some a => map (fun cmd => [lit "ssh"; a] ++ cmd) cmds
       | None => []
       end.



Fixpoint cmd_eqb (c d : list pystr) : bool :=
  match c, d with
  | [], [] => true
  | x :: c', y :: d' => pystr_eqb x y && cmd_eqb c' d'
  | _, _ => false
  end.





(** A world in which every command fails with exit status 1. *)
Definition failing_command_answers : Answers :=
  {| ans_exists := true; ans_isdir := true; ans_isfile := true;
     ans_glob := [lit "data/case.txt"]; ans_environ := Some (lit "secret");
     ans_today := lit "20200101-000000"; ans_hostname := Some (lit "db.example.org");
     ans_exit_code := 1; ans_input := lit "yes" |}.

(** The restore hint for the backup [20200101-000000] on the local host. *)
Definition sample_restore_hint : pystr :=
  lit "To restore DB from backup (to remove any changes caused by current data loading, run following commands:"
  ++ [NEWLINE] ++ repeat 35 160 ++ [NEWLINE; TAB]
  ++ lit "$ neo4j stop && neo4j-admin restore --from=/backups/20200101-000000 --force && neo4j start"
  ++ [NEWLINE] ++ repeat 35 160.

(** The paths asked of [os.path.isfile], with the answers, in order. *)
Fixpoint isfile_asked (tr : list Event) : list (pystr * bool) :=
  match tr with
  | [] => []
  | ev :: tr' =>
      match answered (@isfile_answer) ev with
      | Some a => a :: isfile_asked tr'
      | None => isfile_asked tr'
      end
  end.

Definition error_message {X : Type} (op : Ext X) : option pystr :=
  match op with
  | Log _ error (MsgStr m) => Some m
  | _ => None
  end.

(** The messages logged with [log.error], in order. *)
Fixpoint errors_logged (tr : list Event) : list pystr :=
  match tr with
  | [] => []
  | ev :: tr' =>
      match error_message (op_of ev) with
      | Some m => m :: errors_logged tr'
      | None => errors_logged tr'
      end
  end.

(** [yes] in any letter case, between white space. *)
Definition yes_between_spaces (s : pystr) : Prop :=
  exists pre y e z post,
    s = pre ++ [y; e; z] ++ post
    /\ forallb isspace pre = true /\ forallb isspace post = true
    /\ (y = 89 \/ y = 121) /\ (e = 69 \/ e = 101) /\ (z = 83 \/ z = 115).

Definition is_ascii (s : pystr) : bool := forallb (fun c => c <? 128) s.

Definition DASH : Z := 45.

(** A lower-case hexadecimal digit. *)
Definition is_hex_char (c : Z) : bool :=
  ((48 <=? c) && (c <=? 57)) || ((97 <=? c) && (c <=? 102)).

(** The text form of a version-5 UUID of the RFC 4122 variant:
    [xxxxxxxx-xxxx-5xxx-Vxxx-xxxxxxxxxxxx], with [x] a lower-case
    hexadecimal digit and [V] one of [8 9 a b]. *)
Definition canonical_uuid5 (id : pystr) : bool :=
  (List.length id =? 36)%nat
  && forallb (fun ic : nat * Z =>
                let (i, c) := ic in
                if existsb (Nat.eqb i) [8; 13; 18; 23]%nat then c =? DASH
                else if (i =? 14)%nat then c =? 53
                else if (i =? 19)%nat then existsb (Z.eqb c) [56; 57; 97; 98]
                else is_hex_char c)
             (combine (seq 0 36) id).

(** A code point that UTF-8 encodes: in range and not a surrogate. *)
Definition is_scalar_value (c : Z) : bool :=
  (0 <=? c) && (c <=? 0x10FFFF) && negb ((0xD800 <=? c) && (c <=? 0xDFFF)).

Definition encodable (s : pystr) : bool := forallb is_scalar_value s.

(** ** What the calls of [main] may be *)

(** What the flags of the command line allow a call of [main] to be:
    commands are run only when neither [--no-backup] nor [--dry-run] is
    given, the user is prompted only with [--wipe-db], the data directory
    is probed for existence or created and S3 is used only with
    [--s3-folder], and the environment is read only for the password
    variable and only when no password is given. *)
Definition allowed_by_flags (args : Args) (ev : Event) : Prop :=
  match op_of ev with
  | SubprocessCall _ => no_backup args = false /\ dry_run args = false
  | Print _ | Input _ => wipe_db args = true
  | PathExists _ | MakeDirs _ | S3BucketNew _ | S3Download _ _ _ =>
      truthy (s3_folder args) = true
  | EnvironGet key => key = PSWD_ENV /\ truthy (password args) = false
  | _ => True
  end.

(** The arguments of the command line, as the calls of [main] get them. *)
Definition passes_arguments (unicode_alnum : Z -> bool) (args : Args) (ev : Event)
  : Prop :=
  let uri := removeTrailingSlash unicode_alnum
               (if truthy (uri args) then the (uri args)
                else lit "bolt://localhost:7687") in
  match op_of ev with
  | PathExists p | MakeDirs p | IsDir p => p = dir args
  | IsFile p => In p (schema args)
  | Glob pat => pat = dir args ++ lit "/*.txt" \/ pat = dir args ++ lit "/*"
  | S3BucketNew name => truthy (bucket args) = true /\ name = the (bucket args)
  | S3Download _ folder d =>
      truthy (bucket args) = true /\ folder = the (s3_folder args) /\ d = dir args
  | TodayStrftime fmt => fmt = DATETIME_FORMAT
  | UrlHostname u => u = uri
  | SchemaNew files => files = schema args
  | DriverNew u usr _ =>
      u = uri /\ usr = (if truthy (user args) then the (user args) else lit "neo4j")
  | LoaderLoad _ file_list cheat dry m wipe mv =>
      file_list <> [] /\ cheat = cheat_mode args /\ dry = dry_run args
      /\ m = mode args /\ wipe = wipe_db args /\ mv = max_violations args
  | _ => True
  end.

(** The password a driver is created with. *)
Definition driver_password (ev : Event) : option pystr :=
  match op_of ev with
  | DriverNew _ _ pw => Some pw
  | _ => None
  end.

(** The password of a driver of the trace [tr] is the one given on the
    command line, if any, else the value the environment gave for the
    password variable. *)
Definition password_from (args : Args) (tr : list Event) (ev : Event) : Prop :=
  match driver_password ev with
  | Some pw =>
      if truthy (password args) then pw = the (password args)
      else In (event (EnvironGet PSWD_ENV) (Some pw)) tr
  | None => True
  end.

Definition expected_call (unicode_alnum : Z -> bool) (args : Args) (ev : Event) : Prop :=
  allowed_by_flags args ev /\ passes_arguments unicode_alnum args ev.

(** An expected call that creates no driver. *)
Definition startup_call (unicode_alnum : Z -> bool) (args : Args) (ev : Event) : Prop :=
  expected_call unicode_alnum args ev /\ driver_password ev = None.

(** An expected call that creates no driver but with the password [pw]. *)
Definition driver_call (unicode_alnum : Z -> bool) (args : Args) (pw : pystr)
    (ev : Event) : Prop :=
  expected_call unicode_alnum args ev
  /\ forall pw', driver_password ev = Some pw' -> pw' = pw.

Definition calls_post (unicode_alnum : Z -> bool) (args : Args) (tr : list Event)
  : Prop :=
  Forall (expected_call unicode_alnum args) tr /\ Forall (password_from args tr) tr.

(** The paths that [check_schema_files] asks about are the schema paths. *)
Definition asks_about (l : list pystr) (ev : Event) : Prop :=
  match op_of ev with
  | IsFile p => In p l
  | Log _ _ _ => True
  | _ => False
  end.

(** ** How a run ends *)

Definition resp_exn {X : Type} (r : Resp X) : option Exn :=
  match r with
  | Returns _ => None
  | Fails name => Some (Exception name)
  end.

Definition neo_exn {X : Type} (r : NeoResp X) : option Exn :=
  match r with
  | NeoReturns _ => None
  | NeoFails name => Some (Exception name)
  | Unavailable => Some ServiceUnavailable
  end.

(** The exception that a call raised, if it raised one. *)
Definition raised_by {X : Type} (op : Ext X) : X -> option Exn :=
  match op in Ext T return T -> option Exn with
  | GetLogger _ => resp_exn
  | MakeDirs _ => resp_exn
  | S3BucketNew _ => resp_exn
  | S3Download _ _ _ => resp_exn
  | UrlHostname _ => resp_exn
  | SubprocessCall _ => resp_exn
  | SchemaNew _ => resp_exn
  | Input _ => resp_exn
  | DriverNew _ _ _ => neo_exn
  | LoaderNew _ _ => neo_exn
  | LoaderLoad _ _ _ _ _ _ _ => neo_exn
  | DriverClose _ => neo_exn
  | _ => fun _ => None
  end.

Definition is_error_log (ev : Event) : bool :=
  match op_of ev with
  | Log _ error _ => true
  | _ => false
  end.

Definition parse_answer {X : Type} (op : Ext X) : X -> option Parsed :=
  match op in Ext T return T -> option Parsed with
  | ParseArgs => fun p => Some p
  | _ => fun _ => None
  end.

(** [argparse] ended the run with the status [code]. *)
Definition parse_exit (code : Z) (ev : Event) : Prop :=
  answered (@parse_answer) ev = Some (ParseExit code).

(** The last call of a run that [main] ends with [e]: an exit with a status
    is the one of [argparse], or has status 1 and follows an error message;
    an exit without status follows an input that does not confirm; and any
    other exception is the one that the last call raised. *)
Definition caused (unicode_lower : pystr -> nat -> pystr) (e : Exn) (ev : Event) : Prop :=
  match e with
  | SystemExit (Some code) => parse_exit code ev \/ (code = 1 /\ is_error_log ev = true)
  | SystemExit None => refused unicode_lower ev = true
  | _ => answered (@raised_by) ev = Some e
  end.

Definition ends_with (G : Event -> Prop) (tr : list Event) : Prop :=
  exists pre ev, tr = pre ++ [ev] /\ G ev.

Definition ends_by (unicode_lower : pystr -> nat -> pystr) (tr : list Event)
    (r : Result unit) : Prop :=
  r <> Raised ServiceUnavailable
  /\ match r with
     | Ok _ => True
     | Raised e => ends_with (caused unicode_lower e) tr
     end.

(** A call to Neo4j answered [ServiceUnavailable]. *)
Definition unavailable (ev : Event) : bool :=
  match answered (@raised_by) ev with
  | Some ServiceUnavailable => true
  | _ => false
  end.

Definition available (ev : Event) : bool := negb (unavailable ev).

(** What [main] logs when Neo4j cannot be reached. *)
Definition unavailable_report (unicode_alnum : Z -> bool) (args : Args) : list Event :=
  let uri := removeTrailingSlash unicode_alnum
               (if truthy (uri args) then the (uri args)
                else lit "bolt://localhost:7687") in
  [event (Log "Loader" exception (MsgExn ServiceUnavailable)) tt;
   event (Log "Loader" critical
            (MsgStr (lit "Can't connect to Neo4j server at: " ++ [QUOTE] ++ uri
                     ++ [QUOTE]))) tt].

Definition swallowed (unicode_alnum : Z -> bool) (args : Args) (tr : list Event)
    (r : Result unit) : Prop :=
  forallb available tr = true
  \/ (r = Ok tt
      /\ exists pre ev,
           tr = pre ++ ev :: unavailable_report unicode_alnum args
           /\ unavailable ev = true /\ forallb available pre = true).

(** A world in which Neo4j cannot be reached. *)
Definition unreachable (X : Type) (op : Ext X) (w : unit) : X * unit :=
  match op in Ext T return T * unit with
  | DriverNew _ _ _ => (Unavailable, w)
  | op' => answer sample_answers _ op' w
  end.

(** [loader.load] returned. *)
Definition load_returned (ev : Event) : bool :=
  is_LoaderLoad ev
  && match answered (@raised_by) ev with
     | None => true
     | Some _ => false
     end.

Definition is_DriverClose (ev : Event) : bool :=
  match op_of ev with
  | DriverClose _ => true
  | _ => false
  end.

(** Neither a returned load nor the closing of the driver. *)
Definition before_load (ev : Event) : bool :=
  negb (is_DriverClose ev) && negb (load_returned ev).

(** Moreover not a listing of [pattern] that found files. *)
Definition before_listing (pattern : pystr) (ev : Event) : bool :=
  before_load ev && negb (is_glob_nonempty pattern ev).

Definition loaded_and_closed (args : Args) (tr : list Event) (r : Result unit) : Prop :=
  existsb is_DriverClose tr = negb (dry_run args) && existsb load_returned tr
  /\ (r = Ok tt -> forallb available tr = true ->
      existsb (is_glob_nonempty (dir args ++ lit "/*.txt")) tr = true ->
      existsb load_returned tr = true).

(** ** A data directory that is not empty *)

Definition exists_answer {X : Type} (op : Ext X) : X -> option (pystr * bool) :=
  match op in Ext T return T -> option (pystr * bool) with
  | PathExists p => fun b => Some (p, b)
  | _ => fun _ => None
  end.

(** Not the answer that [d] does not exist. *)
Definition found (d : pystr) (ev : Event) : bool :=
  match answered (@exists_answer) ev with
  | Some (p, b) => b || negb (pystr_eqb p d)
  | None => true
  end.

(** Not the answer that [pattern] matches nothing. *)
Definition matched (pattern : pystr) (ev : Event) : bool :=
  match answered (@glob_answer) ev with
  | Some (pat, []) => negb (pystr_eqb pat pattern)
  | _ => true
  end.

Definition refuses_full_directory (args : Args) (tr : list Event) (r : Result unit)
  : Prop :=
  forallb (logger_ready "Loader") tr = true ->
  forallb (found (dir args)) tr = true ->
  forallb (matched (dir args ++ lit "/*")) tr = true ->
  r = Raised (SystemExit (Some 1))
  /\ exists files,
       files <> []
       /\ tr = [event (GetLogger "Loader") (Returns tt);
                event (PathExists (dir args)) true;
                event (Glob (dir args ++ lit "/*")) files;
                event (Log "Loader" error
                         (MsgStr (lit "Folder: " ++ [QUOTE] ++ dir args ++ [QUOTE]
                                  ++ lit " is not empty, please empty it first"))) tt].

(** A data directory that exists and holds a file. *)
Definition full_directory_answers : Answers :=
  {| ans_exists := true; ans_isdir := true; ans_isfile := true;
     ans_glob := [lit "data/old.txt"]; ans_environ := Some (lit "secret");
     ans_today := lit "20200101-000000"; ans_hostname := Some (lit "localhost");
     ans_exit_code := 0; ans_input := lit "yes" |}.

Definition s3_args : Args :=
  {| uri := None; user := None; password := Some (lit "pw");
     schema := [lit "model.yml"]; cheat_mode := false; dry_run := false;
     wipe_db := false; no_backup := false; max_violations := Some 10;
     bucket := Some (lit "bucket"); s3_folder := Some (lit "folder");
     mode := UPSERT_MODE; dir := lit "data" |}.

(** * The rest of [utils.py]: the logger set-up and [send_mail] *)

(** Here [get_logger] is followed call by call, where the programs above
    take it as one call. *)

Module Lib.

(** Handles of the objects that [logging], [email], [smtplib] and [open]
    hand out. *)
Inductive Formatter := FormatterHandle (id : Z).
Inductive Handler := HandlerHandle (id : Z).
Inductive Message := MessageHandle (id : Z).
Inductive Part := PartHandle (id : Z).
Inductive Blob := BlobHandle (id : Z).
Inductive File := FileHandle (id : Z).
Inductive Smtp := SmtpHandle (id : Z).

(** The [contents] of a mail: a [str], or any other object. *)
Inductive Contents :=
| Text (s : pystr)
| Other (b : Blob).

(** The library calls of [get_logger] and [send_mail].  A logger is known
    by its name. *)
Inductive Op : Type -> Type :=
| FormatterNew (fmt : pystr) : Op Formatter
| EnvironGetOr (key default : pystr) : Op pystr
| LoggingGetLogger (name : pystr) : Op unit
| SetLevel (logger level : pystr) : Op (Resp unit)
| StreamHandlerNew : Op Handler
| SetFormatter (h : Handler) (f : Formatter) : Op unit
| AddHandler (logger : pystr) (h : Handler) : Op unit
| LogError (logger : pystr) (e : Exn) : Op unit
| MIMEMultipartNew : Op Message
| SetHeader (m : Message) (key value : pystr) : Op unit
| Encode (b : Blob) : Op (Resp Blob)
| MIMETextNew (c : Contents) : Op (Resp Part)
| Attach (m : Message) (p : Part) : Op unit
| Open (path : pystr) : Op (Resp File)
| Read (f : File) : Op (Resp Blob)
| Close (f : File) : Op unit
| MIMEApplicationNew (data : Blob) (name : pystr) : Op (Resp Part)
| SMTPNew (server : pystr) : Op (Resp Smtp)
| AsString (m : Message) : Op (Resp pystr)
| Sendmail (s : Smtp) (from_addr : pystr) (to_addrs : list pystr) (msg : pystr)
  : Op (Resp unit)
| Quit (s : Smtp) : Op (Resp unit).

(** Sequences of calls. *)
Inductive Code (A : Type) : Type :=
| Done (a : A)
| Do {X : Type} (op : Op X) (k : X -> Code A).
Arguments Done {A} a.
Arguments Do {A X} op k.

Fixpoint code_bind {A B : Type} (c : Code A) (f : A -> Code B) : Code B :=
  match c with
  | Done a => f a
  | Do op k => Do op (fun x => code_bind (k x) f)
  end.

(** A function body with local variables [S]: it ends with the values of
    the variables and a result or an exception. *)
Definition M (S A : Type) : Type := S -> Code (S * Result A).

Definition ret {S A : Type} (a : A) : M S A := fun s => Done (s, Ok a).

Definition bind {S A B : Type} (p : M S A) (f : A -> M S B) : M S B :=
  fun s => code_bind (p s) (fun sr =>
             match snd sr with
             | Ok a => f a (fst sr)
             | Raised e => Done (fst sr, Raised e)
             end).

Definition call {S X : Type} (op : Op X) : M S X :=
  fun s => Do op (fun x => Done (s, Ok x)).

(** A call that raises what the library raised. *)
Definition call_resp {S X : Type} (op : Op (Resp X)) : M S X :=
  fun s => Do op (fun r => Done (s, match r with
                                    | Returns x => Ok x
                                    | Fails name => Raised (Exception name)
                                    end)).

Definition get {S : Type} : M S S := fun s => Done (s, Ok s).

Definition put {S : Type} (s' : S) : M S unit := fun _ => Done (s', Ok tt).

(** [try: p  except ...: h e  finally: fin]; [h] answers [None] for what
    the clause does not catch.  An exception of [fin] replaces the outcome. *)
Definition try_except_finally {S A : Type} (p : M S A) (h : Exn -> option (M S A))
    (fin : M S unit) : M S A :=
  fun s =>
    code_bind (p s) (fun sr =>
    code_bind (match snd sr with
               | Ok a => Done (fst sr, Ok a)
               | Raised e =>
                   match h e with
                   | Some q => q (fst sr)
                   | None => Done (fst sr, Raised e)
                   end
               end) (fun sr2 =>
    code_bind (fin (fst sr2)) (fun sr3 =>
      Done (fst sr3, match snd sr3 with
                     | Ok _ => snd sr2
                     | Raised e => Raised e
                     end)))).

(** [with open(path, 'rb') as f: body f] *)
Definition with_open {S A : Type} (path : pystr) (body : File -> M S A) : M S A :=
  bind (call_resp (Open path)) (fun f =>
    try_except_finally (body f) (fun _ => None) (call (Close f))).

Fixpoint for_each {S A : Type} (l : list A) (body : A -> M S unit) : M S unit :=
  match l with
  | [] => ret tt
  | a :: l' => bind (body a) (fun _ => for_each l' body)
  end.

Declare Scope lib_scope.
Delimit Scope lib_scope with lib.
Notation "x <- p ;; q" := (bind p (fun x => q))
  (at level 61, p at next level, right associativity) : lib_scope.
Notation "p ;; q" := (bind p (fun _ => q))
  (at level 61, right associativity) : lib_scope.
Local Open Scope lib_scope.

(** [os.path.basename] *)
Fixpoint basename (p : pystr) : pystr :=
  match p with
  | [] => []
  | c :: p' =>
      if existsb (Z.eqb SLASH) p' then basename p'
      else if c =? SLASH then p'
      else c :: p'
  end.

Definition COMMA : Z := 44.

(** [s.split(sep)] for a separator of one character. *)
Fixpoint split (s : pystr) (sep : Z) : list pystr :=
  match s with
  | [] => [[]]
  | c :: s' =>
      if c =? sep then [] :: split s' sep
      else match split s' sep with
           | w :: ws => (c :: w) :: ws
           | [] => [[c]]
           end
  end.

Record MailConfig := {
  MAIL_SERVER : pystr;
  ADMIN_EMAILS : pystr;
  SENDER_EMAIL : pystr
}.

Definition get_logger {S : Type} (name : pystr) : M S pystr :=
  formatter <- call (FormatterNew
    (lit "%(asctime)s %(levelname)s: (%(name)s) - %(message)s")) ;;
  log_level <- call (EnvironGetOr (lit "DL_LOG_LEVEL") (lit "INFO")) ;;
  call (LoggingGetLogger name) ;;
  call_resp (SetLevel name log_level) ;;
  std_handler <- call StreamHandlerNew ;;
  call (SetFormatter std_handler formatter) ;;
  call (AddHandler name std_handler) ;;
  ret name.

(** The local variable is [server].  An SMTP session is a true value and
    has a [quit], so the [finally] clause quits whenever [server] is set. *)
Definition send_mail (cfg : MailConfig) (subject : pystr) (contents : Contents)
    (attachments : option (list pystr)) : M (option Smtp) bool :=
  put None ;;
  log <- get_logger (lit "Utils") ;;
  try_except_finally
    (message <- call MIMEMultipartNew ;;
     call (SetHeader message (lit "Subject") subject) ;;
     call (SetHeader message (lit "From") (SENDER_EMAIL cfg)) ;;
     call (SetHeader message (lit "To") (ADMIN_EMAILS cfg)) ;;
     contents <- match contents with
                 | Text s => ret (Text s)
                 | Other b => b' <- call_resp (Encode b) ;; ret (Other b')
                 end ;;
     part <- call_resp (MIMETextNew contents) ;;
     call (Attach message part) ;;
     match attachments with
     | Some l =>
         for_each l (fun attachment =>
           with_open attachment (fun _file =>
             data <- call_resp (Read _file) ;;
             part <- call_resp (MIMEApplicationNew data (basename attachment)) ;;
             call (Attach message part)))
     | None => ret tt
     end ;;
     server <- call_resp (SMTPNew (MAIL_SERVER cfg)) ;;
     put (Some server) ;;
     msg <- call_resp (AsString message) ;;
     call_resp (Sendmail server (SENDER_EMAIL cfg) (split (ADMIN_EMAILS cfg) COMMA) msg) ;;
     ret true)
    (fun e =>
       match e with
       | SystemExit _ => None
       | _ => Some (call (LogError log e) ;; ret false)
       end)
    (server <- get ;;
     match server with
     | Some s => call_resp (Quit s)
     | None => ret tt
     end).

(** An event of a run: the call and its answer. *)
Definition Event : Type := {X : Type & (Op X * X)%type}.
Definition event {X : Type} (op : Op X) (x : X) : Event := existT _ X (op, x).

Section Run.

Variable W : Type.
Variable handle : forall X : Type, Op X -> W -> X * W.

Fixpoint run {A : Type} (c : Code A) (w : W) : list Event * A * W :=
  match c with
  | Done a => ([], a, w)
  | Do op k =>
      let '(x, w1) := handle _ op w in
      let '(tr, a, w2) := run (k x) w1 in
      (event op x :: tr, a, w2)
  end.

Definition trace_of {S A : Type} (p : M S A) (s : S) (w : W) : list Event :=
  fst (fst (run (p s) w)).

Definition result_of {S A : Type} (p : M S A) (s : S) (w : W) : Result A :=
  snd (snd (fst (run (p s) w))).

Definition world_after {S A : Type} (p : M S A) (s : S) (w : W) : W :=
  snd (run (p s) w).

End Run.

(** [wp c post]: [post] holds of the trace and the outcome of every run. *)
Fixpoint wp {A : Type} (c : Code A) (post : list Event -> A -> Prop) : Prop :=
  match c with
  | Done a => post [] a
  | Do op k => forall x, wp (k x) (fun tr a => post (event op x :: tr) a)
  end.

(** ** Observations of runs *)

Definition op_of (ev : Event) : Op (projT1 ev) := fst (projT2 ev).

Definition answered {R : Type} (f : forall X : Type, Op X -> X -> option R)
    (ev : Event) : option R :=
  f _ (fst (projT2 ev)) (snd (projT2 ev)).

Definition file_eqb (f g : File) : bool :=
  match f, g with
  | FileHandle i, FileHandle j => i =? j
  end.

Definition smtp_eqb (s t : Smtp) : bool :=
  match s, t with
  | SmtpHandle i, SmtpHandle j => i =? j
  end.

Definition is_none {A : Type} (x : option A) : bool :=
  match x with
  | None => true
  | Some _ => false
  end.

(** The file that [open] returned. *)
Definition opened {X : Type} (op : Op X) : X -> option File :=
  match op in Op T return T -> option File with
  | Open _ => fun r => match r with
                       | Returns f => Some f
                       | Fails _ => None
                       end
  | _ => fun _ => None
  end.

Definition closed (ev : Event) : option File :=
  match op_of ev with
  | Close f => Some f
  | _ => None
  end.

(** The session that [smtplib.SMTP] returned. *)
Definition connected {X : Type} (op : Op X) : X -> option Smtp :=
  match op in Op T return T -> option Smtp with
  | SMTPNew _ => fun r => match r with
                          | Returns s => Some s
                          | Fails _ => None
                          end
  | _ => fun _ => None
  end.

Definition quit_of (ev : Event) : option Smtp :=
  match op_of ev with
  | Quit s => Some s
  | _ => None
  end.

Definition uses_session (ev : Event) : option Smtp :=
  match op_of ev with
  | Sendmail s _ _ _ => Some s
  | _ => None
  end.

Definition is_SMTPNew (ev : Event) : bool :=
  match op_of ev with
  | SMTPNew _ => true
  | _ => false
  end.

(** Every file that [open] returned is closed again, and no other file is
    opened and the mail server is not contacted while it is open; [cur] is
    the file that is open. *)
Fixpoint files_closed (cur : option File) (tr : list Event) : bool :=
  match tr with
  | [] => is_none cur
  | ev :: tr' =>
      match answered (@opened) ev, closed ev with
      | Some f, _ => is_none cur && files_closed (Some f) tr'
      | None, Some f =>
          match cur with
          | Some g => file_eqb f g && files_closed None tr'
          | None => false
          end
      | None, None => (negb (is_SMTPNew ev) || is_none cur) && files_closed cur tr'
      end
  end.

(** The session is used only once [smtplib.SMTP] returned it, at most one
    session is opened, and a session that was opened is quit, by the last
    call of the run; [cur] is the session that is open. *)
Fixpoint session_quit (cur : option Smtp) (tr : list Event) : bool :=
  match tr with
  | [] => is_none cur
  | ev :: tr' =>
      match answered (@connected) ev, quit_of ev, uses_session ev with
      | Some s, _, _ => is_none cur && session_quit (Some s) tr'
      | None, Some s, _ =>
          match cur, tr' with
          | Some t, [] => smtp_eqb s t
          | _, _ => false
          end
      | None, None, Some s =>
          match cur with
          | Some t => smtp_eqb s t && session_quit cur tr'
          | None => false
          end
      | None, None, None => (negb (is_SMTPNew ev) || is_none cur) && session_quit cur tr'
      end
  end.

Fixpoint first_of {A : Type} (f : Event -> option A) (tr : list Event) : option A :=
  match tr with
  | [] => None
  | ev :: tr' =>
      match f ev with
      | Some a => Some a
      | None => first_of f tr'
      end
  end.

Definition failure {X : Type} (op : Op X) : X -> option string :=
  match op in Op T return T -> option string with
  | SetLevel _ _ => fun r => match r with Fails n => Some n | Returns _ => None end
  | Encode _ => fun r => match r with Fails n => Some n | Returns _ => None end
  | MIMETextNew _ => fun r => match r with Fails n => Some n | Returns _ => None end
  | Open _ => fun r => match r with Fails n => Some n | Returns _ => None end
  | Read _ => fun r => match r with Fails n => Some n | Returns _ => None end
  | MIMEApplicationNew _ _ => fun r => match r with Fails n => Some n | Returns _ => None end
  | SMTPNew _ => fun r => match r with Fails n => Some n | Returns _ => None end
  | AsString _ => fun r => match r with Fails n => Some n | Returns _ => None end
  | Sendmail _ _ _ _ => fun r => match r with Fails n => Some n | Returns _ => None end
  | Quit _ => fun r => match r with Fails n => Some n | Returns _ => None end
  | _ => fun _ => None
  end.

(** [log.setLevel] rejected the level. *)
Definition level_rejected (ev : Event) : option string :=
  match op_of ev with
  | SetLevel _ _ => answered (@failure) ev
  | _ => None
  end.

(** [server.quit()] raised. *)
Definition quit_failed (ev : Event) : option string :=
  match op_of ev with
  | Quit _ => answered (@failure) ev
  | _ => None
  end.

(** A call of the [try] block raised. *)
Definition try_failed (ev : Event) : option string :=
  match op_of ev with
  | SetLevel _ _ | Quit _ => None
  | _ => answered (@failure) ev
  end.

(** [server.sendmail] returned. *)
Definition sent (ev : Event) : bool :=
  match op_of ev with
  | Sendmail _ _ _ _ => is_none (answered (@failure) ev)
  | _ => false
  end.

Definition logged (ev : Event) : list Exn :=
  match op_of ev with
  | LogError _ e => [e]
  | _ => []
  end.

Definition failed (ev : Event) : list Exn :=
  match try_failed ev with
  | Some n => [Exception n]
  | None => []
  end.

(** What [send_mail] answers, read off the calls of the run. *)
Definition send_mail_answer (tr : list Event) : Result bool :=
  match first_of quit_failed tr with
  | Some n => Raised (Exception n)
  | None =>
      match first_of level_rejected tr with
      | Some n => Raised (Exception n)
      | None => Ok (existsb sent tr)
      end
  end.

(** ** The registry of [logging] as a world *)

Record Logging := {
  attached : list (pystr * Handler);
  next_handler : Z
}.

Definition handler_eqb (h g : Handler) : bool :=
  match h, g with
  | HandlerHandle i, HandlerHandle j => i =? j
  end.

Definition handlers_of (name : pystr) (w : Logging) : list Handler :=
  map snd (filter (fun nh => pystr_eqb (fst nh) name) (attached w)).

(** [StreamHandler()] makes a new handler; [addHandler] attaches a handler
    unless the logger has it already; the level is accepted, the
    environment holds no level. *)
Definition logging (X : Type) (op : Op X) (w : Logging) : X * Logging :=
  match op in Op T return T * Logging with
  | FormatterNew _ => (FormatterHandle 0, w)
  | EnvironGetOr _ default => (default, w)
  | LoggingGetLogger _ => (tt, w)
  | SetLevel _ _ => (Returns tt, w)
  | StreamHandlerNew =>
      (HandlerHandle (next_handler w),
       {| attached := attached w; next_handler := next_handler w + 1 |})
  | SetFormatter _ _ => (tt, w)
  | AddHandler name h =>
      (tt, if existsb (handler_eqb h) (handlers_of name w) then w
           else {| attached := attached w ++ [(name, h)];
                   next_handler := next_handler w |})
  | LogError _ _ => (tt, w)
  | MIMEMultipartNew => (MessageHandle 0, w)
  | SetHeader _ _ _ => (tt, w)
  | Encode b => (Returns b, w)
  | MIMETextNew _ => (Returns (PartHandle 0), w)
  | Attach _ _ => (tt, w)
  | Open _ => (Returns (FileHandle 0), w)
  | Read _ => (Returns (BlobHandle 0), w)
  | Close _ => (tt, w)
  | MIMEApplicationNew _ _ => (Returns (PartHandle 1), w)
  | SMTPNew _ => (Returns (SmtpHandle 0), w)
  | AsString _ => (Returns (lit "message"), w)
  | Sendmail _ _ _ _ => (Returns tt, w)
  | Quit _ => (Returns tt, w)
  end.

Definition fresh_logging : Logging := {| attached := []; next_handler := 0 |}.

(** The registry after [n] calls of [get_logger name]. *)
Fixpoint after_calls (n : nat) (name : pystr) (w : Logging) : Logging :=
  match n with
  | O => w
  | S k => after_calls k name (world_after Logging logging (@get_logger unit name) tt w)
  end.

(** A world for [send_mail] in which the mail server refuses the mail. *)
Definition refusing (X : Type) (op : Op X) (w : Logging) : X * Logging :=
  match op in Op T return T * Logging with
  | Sendmail _ _ _ _ => (Fails "SMTPRecipientsRefused", w)
  | op' => logging _ op' w
  end.

Definition sample_mail_config : MailConfig :=
  {| MAIL_SERVER := lit "mail.example.org"; ADMIN_EMAILS := lit "a@example.org,b@example.org";
     SENDER_EMAIL := lit "loader@example.org" |}.

End Lib.

(** ** What the runs of [send_mail] and [get_logger] keep *)

(** The calls of the loop over the attachments. *)
Definition attachment_event (ev : Lib.Event) : bool :=
  match Lib.op_of ev with
  | Lib.Open _ | Lib.Read _ | Lib.Close _ | Lib.MIMEApplicationNew _ _ | Lib.Attach _ _ =>
      true
  | _ => false
  end.

(** The body of the loop over the attachments. *)
Definition attach_file (message : Lib.Message) (attachment : pystr)
  : Lib.M (option Lib.Smtp) unit :=
  Lib.with_open attachment (fun _file =>
    Lib.bind (Lib.call_resp (Lib.Read _file)) (fun data =>
    Lib.bind (Lib.call_resp (Lib.MIMEApplicationNew data (Lib.basename attachment)))
      (fun part => Lib.call (Lib.Attach message part)))).

(** What the loop over the attachments keeps. *)
Definition attached_all (s : option Lib.Smtp) (tr : list Lib.Event)
    (sr : option Lib.Smtp * Result unit) : Prop :=
  fst sr = s
  /\ forallb attachment_event tr = true
  /\ Lib.files_closed None tr = true
  /\ match snd sr with
     | Ok _ => flat_map Lib.failed tr = []
     | Raised e => flat_map Lib.failed tr = [e]
     end.

(** What every run of [send_mail] keeps. *)
Definition mail_outcome (tr : list Lib.Event) (sr : option Lib.Smtp * Result bool)
  : Prop :=
  Lib.files_closed None tr = true
  /\ Lib.session_quit None tr = true
  /\ snd sr = Lib.send_mail_answer tr
  /\ flat_map Lib.logged tr = flat_map Lib.failed tr
  /\ (List.length (flat_map Lib.logged tr) <= 1)%nat.

(** Between [open] and [close]: no file is opened or closed and the mail
    server is not contacted. *)
Definition while_open (ev : Lib.Event) : bool :=
  Lib.is_none (Lib.answered (@Lib.opened) ev) && Lib.is_none (Lib.closed ev)
  && negb (Lib.is_SMTPNew ev).

(** Not a call of [quit]. *)
Definition no_quit (ev : Lib.Event) : bool := Lib.is_none (Lib.quit_of ev).

(** Every handler of the registry was made before the next one. *)
Definition registry_fresh (w : Lib.Logging) : bool :=
  forallb (fun nh => match snd nh with
                     | Lib.HandlerHandle i => i <? Lib.next_handler w
                     end) (Lib.attached w).

(** * Theorems *)

(** ** [removeTrailingSlash] *)

Section TrailingSlash.

Variable ua : Z -> bool.

Lemma endswith_slash (u : pystr) : endswith u (lit "/") = ends_with_slash u.
Proof.
  induction u as [|c u IH]; [reflexivity|].
  destruct u as [|d u].
  - unfold endswith. simpl. fold SLASH. now rewrite andb_true_r.
  - change (ends_with_slash (c :: d :: u)) with (ends_with_slash (d :: u)).
    rewrite <- IH. unfold endswith. simpl List.length.
    replace (S (S (List.length u)) - 1)%nat with (S (S (List.length u) - 1)) by lia.
    reflexivity.
Qed.

Lemma match_all_slashes (u : pystr) :
  all_slashes u = true -> u <> [] ->
  Re.match_here ua TRAILING_SLASHES u = Some (List.length u).
Proof.
  induction u as [|c u IH]; intros Hall Hne; [congruence|].
  simpl in Hall. apply andb_true_iff in Hall as [Hc Hall].
  destruct u as [|d u].
  - simpl. now rewrite Hc.
  - assert (IH' := IH Hall ltac:(discriminate)).
    change (Re.match_here ua TRAILING_SLASHES (c :: d :: u))
      with (if Re.accepts ua (Re.Lit SLASH) c
            then match Re.match_here ua TRAILING_SLASHES (d :: u) with
                 | Some n => Some (S n)
                 | None => option_map S (Re.match_here ua [Re.Dollar] (d :: u))
                 end
            else None).
    rewrite IH'. simpl Re.accepts. now rewrite Hc.
Qed.

Lemma match_trailing_inv (u : pystr) (n : nat) :
  Re.match_here ua TRAILING_SLASHES u = Some n ->
  ends_with_slash u = true ->
  all_slashes u = true /\ n = List.length u.
Proof.
  revert n. induction u as [|c u IH]; intros n Hm He; [discriminate|].
  change (Re.match_here ua TRAILING_SLASHES (c :: u))
    with (if Re.accepts ua (Re.Lit SLASH) c
          then match Re.match_here ua TRAILING_SLASHES u with
               | Some n => Some (S n)
               | None => option_map S (Re.match_here ua [Re.Dollar] u)
               end
          else None) in Hm.
  simpl Re.accepts in Hm.
  destruct (c =? SLASH) eqn:Hc; [|discriminate].
  destruct (Re.match_here ua TRAILING_SLASHES u) as [m|] eqn:Hu.
  - injection Hm as <-.
    destruct u as [|d u]; [discriminate|].
    destruct (IH m eq_refl He) as [Hall ->].
    split; [|reflexivity]. simpl. rewrite Hc. exact Hall.
  - destruct u as [|d u].
    + simpl in Hm. injection Hm as <-. simpl. now rewrite Hc.
    + simpl in Hm. destruct u as [|e u]; [|discriminate].
      simpl in He. destruct (d =? NEWLINE) eqn:Hd; [|discriminate].
      apply Z.eqb_eq in Hd, He. unfold NEWLINE, SLASH in *. lia.
Qed.

Lemma sub_from_skip_all (r : Re.regex) (s : pystr) :
  Re.match_here ua r [] = None ->
  Re.sub_from ua r [] s (List.length s) = [].
Proof.
  intros Hnil. induction s as [|c s IH]; simpl.
  - now rewrite Hnil.
  - exact IH.
Qed.

Lemma strip_nil_iff (u : pystr) :
  strip_trailing_slashes u = [] <-> all_slashes u = true.
Proof.
  induction u as [|c u IH]; simpl; [tauto|].
  destruct (strip_trailing_slashes u) as [|x r] eqn:Hs.
  - destruct (c =? SLASH); simpl.
    + tauto.
    + split; discriminate.
  - split; [discriminate|]. intros H. apply andb_true_iff in H as [_ H].
    apply IH in H. discriminate.
Qed.

Lemma strip_cons (c : Z) (u : pystr) :
  strip_trailing_slashes (c :: u) =
  match strip_trailing_slashes u with
  | [] => if c =? SLASH then [] else [c]
  | r => c :: r
  end.
Proof. reflexivity. Qed.

Lemma sub_trailing (u : pystr) :
  ends_with_slash u = true ->
  Re.sub ua TRAILING_SLASHES [] u = strip_trailing_slashes u.
Proof.
  unfold Re.sub.
  induction u as [|c u IH]; intros He; [discriminate|].
  cbn [Re.sub_from].
  destruct (Re.match_here ua TRAILING_SLASHES (c :: u)) as [n|] eqn:Hm.
  - destruct (match_trailing_inv _ _ Hm He) as [Hall ->].
    cbn [List.length app].
    rewrite sub_from_skip_all by reflexivity.
    symmetry. now apply strip_nil_iff.
  - destruct u as [|d u].
    + simpl in He. simpl in Hm. rewrite He in Hm. discriminate.
    + rewrite (IH He). rewrite (strip_cons c (d :: u)).
      destruct (strip_trailing_slashes (d :: u)) as [|x r] eqn:Hs; [|reflexivity].
      destruct (c =? SLASH) eqn:Hc; [|reflexivity].
      exfalso. apply strip_nil_iff in Hs.
      rewrite match_all_slashes in Hm; [discriminate| |discriminate].
      simpl. rewrite Hc. exact Hs.
Qed.

Lemma strip_decompose (u : pystr) :
  exists k, u = strip_trailing_slashes u ++ repeat SLASH k.
Proof.
  induction u as [|c u [k IH]]; [now exists 0%nat|].
  rewrite strip_cons.
  destruct (strip_trailing_slashes u) as [|x r] eqn:Hs.
  - destruct (c =? SLASH) eqn:Hc.
    + apply Z.eqb_eq in Hc. subst c. exists (S k). simpl in *. now f_equal.
    + exists k. simpl in *. now f_equal.
  - exists k. simpl in *. now f_equal.
Qed.

Lemma strip_no_trailing (u : pystr) :
  ends_with_slash (strip_trailing_slashes u) = false.
Proof.
  induction u as [|c u IH]; [reflexivity|].
  rewrite strip_cons.
  destruct (strip_trailing_slashes u) as [|x r] eqn:Hs.
  - destruct (c =? SLASH) eqn:Hc; simpl; auto.
  - exact IH.
Qed.

Lemma strip_unchanged (u : pystr) :
  ends_with_slash u = false -> strip_trailing_slashes u = u.
Proof.
  induction u as [|c u IH]; intros He; [reflexivity|].
  rewrite strip_cons.
  destruct u as [|d u].
  - simpl in *. now rewrite He.
  - rewrite (IH He). reflexivity.
Qed.

Lemma removeTrailingSlash_strip (u : pystr) :
  removeTrailingSlash ua u = strip_trailing_slashes u.
Proof.
  unfold removeTrailingSlash. rewrite endswith_slash.
  destruct (ends_with_slash u) eqn:He.
  - now apply sub_trailing.
  - symmetry. now apply strip_unchanged.
Qed.

(** C9. [removeTrailingSlash] removes every trailing slash: the result is
    [u] without its trailing slashes, so [u] is the result followed by
    slashes only and the result does not end in a slash; a [u] that does
    not end in a slash is returned unchanged; and the function is
    idempotent. *)
Theorem removeTrailingSlash_all_and_idempotent (u : pystr) :
  removeTrailingSlash ua u = strip_trailing_slashes u
  /\ (exists k, u = removeTrailingSlash ua u ++ repeat SLASH k)
  /\ endswith (removeTrailingSlash ua u) (lit "/") = false
  /\ (endswith u (lit "/") = false -> removeTrailingSlash ua u = u)
  /\ removeTrailingSlash ua (removeTrailingSlash ua u) = removeTrailingSlash ua u.
Proof.
  rewrite !removeTrailingSlash_strip, !endswith_slash.
  repeat split.
  - apply strip_decompose.
  - apply strip_no_trailing.
  - apply strip_unchanged.
  - apply strip_unchanged, strip_no_trailing.
Qed.

End TrailingSlash.

(** The embedding agrees with CPython's [re.sub] on examples. *)
Example removeTrailingSlash_examples :
  map (removeTrailingSlash ascii_only)
      [lit "bolt://h:7687///"; lit "a//b/"; lit "bolt://localhost:7687"; lit "///";
       lit "a/" ++ [NEWLINE]]
  = [lit "bolt://h:7687"; lit "a//b"; lit "bolt://localhost:7687"; lit "";
     lit "a/" ++ [NEWLINE]].
Proof. reflexivity. Qed.

(** ** [is_parent_pointer] *)

Section ParentPointer.

Variable ua : Z -> bool.

Lemma plus_unfold (a : Re.atom) (r : Re.regex) (c : Z) (s : pystr) :
  Re.match_here ua (Re.Plus a :: r) (c :: s) =
  if Re.accepts ua a c then
    match Re.match_here ua (Re.Plus a :: r) s with
    | Some n => Some (S n)
    | None => option_map S (Re.match_here ua r s)
    end
  else None.
Proof. reflexivity. Qed.

Lemma matches_plus (a : Re.atom) (r : Re.regex) (s : pystr) :
  Re.matches ua (Re.Plus a :: r) s <->
  exists p q, s = p ++ q /\ p <> [] /\ forallb (Re.accepts ua a) p = true /\ Re.matches ua r q.
Proof.
  induction s as [|c s IH].
  - split.
    + intros [n Hn]. discriminate.
    + intros (p & q & Heq & Hp & _). destruct p; [congruence|discriminate].
  - split.
    + intros [n Hn]. rewrite plus_unfold in Hn.
      destruct (Re.accepts ua a c) eqn:Hc; [|discriminate].
      destruct (Re.match_here ua (Re.Plus a :: r) s) as [m|] eqn:Hs.
      * destruct (proj1 IH (ex_intro _ m Hs)) as (p & q & -> & Hp & Hall & Hq).
        exists (c :: p), q. repeat split; [discriminate| |exact Hq].
        simpl. now rewrite Hc.
      * destruct (Re.match_here ua r s) as [m|] eqn:Hr; [|discriminate].
        exists [c], s. repeat split; [discriminate| |now exists m].
        simpl. now rewrite Hc.
    + intros (p & q & Heq & Hp & Hall & Hq).
      destruct p as [|c' p]; [congruence|].
      injection Heq as <- ->. simpl in Hall. apply andb_true_iff in Hall as [Hc Hall].
      unfold Re.matches. rewrite plus_unfold, Hc.
      destruct (Re.match_here ua (Re.Plus a :: r) (p ++ q)) as [m|] eqn:Hs; [eauto|].
      destruct p as [|d p].
      * destruct Hq as [m Hm]. simpl. rewrite Hm. simpl. eauto.
      * exfalso. assert (H : Re.matches ua (Re.Plus a :: r) ((d :: p) ++ q)).
        { apply IH. exists (d :: p), q. repeat split; [discriminate|exact Hall|exact Hq]. }
        destruct H as [m Hm]. congruence.
Qed.

Lemma matches_one (a : Re.atom) (r : Re.regex) (s : pystr) :
  Re.matches ua (Re.One a :: r) s <->
  exists c q, s = c :: q /\ Re.accepts ua a c = true /\ Re.matches ua r q.
Proof.
  unfold Re.matches. destruct s as [|c s]; simpl.
  - split; [intros [n Hn]; discriminate|intros (c & q & H & _); discriminate].
  - destruct (Re.accepts ua a c) eqn:Hc.
    + split.
      * intros [n Hn]. destruct (Re.match_here ua r s) as [m|] eqn:Hm; [|discriminate].
        exists c, s. split; [reflexivity|]. split; [exact Hc|]. eauto.
      * intros (c' & q & Heq & _ & [m Hm]). injection Heq as <- <-.
        rewrite Hm. simpl. eauto.
    + split; [intros [n Hn]; discriminate|].
      intros (c' & q & Heq & Hc' & _). injection Heq as <- <-. congruence.
Qed.

Lemma matches_end (s : pystr) : Re.matches ua [Re.EndZ] s <-> s = [].
Proof.
  unfold Re.matches. destruct s; simpl.
  - split; eauto.
  - split; [intros [n Hn]|]; discriminate.
Qed.

Lemma fullmatch_matches (r : Re.regex) (s : pystr) :
  Re.fullmatch ua r s = true <-> Re.matches ua (r ++ [Re.EndZ]) s.
Proof.
  unfold Re.fullmatch, Re.matches.
  destruct (Re.match_here ua (r ++ [Re.EndZ]) s).
  - split; eauto.
  - split; [discriminate|intros [n Hn]; discriminate].
Qed.

Lemma is_word_dot : Re.is_word ua DOT = false.
Proof. reflexivity. Qed.

Lemma count_words (p : pystr) :
  forallb (Re.is_word ua) p = true -> count_occ Z.eq_dec p DOT = 0%nat.
Proof.
  induction p as [|c p IH]; [reflexivity|].
  simpl. intros H. apply andb_true_iff in H as [Hc Hp].
  destruct (Z.eq_dec c DOT) as [->|_]; [|auto].
  rewrite is_word_dot in Hc. discriminate.
Qed.

(** C4. A field name is a parent pointer exactly when it has the shape
    [word.word]: one or more word characters, a dot, one or more word
    characters, and nothing else; such a name holds exactly one dot. *)
Theorem is_parent_pointer_iff_word_dot_word (s : pystr) :
  (is_parent_pointer ua s = true <-> word_dot_word ua s)
  /\ (is_parent_pointer ua s = true -> count_occ Z.eq_dec s DOT = 1%nat).
Proof.
  assert (Hiff : is_parent_pointer ua s = true <-> word_dot_word ua s).
  { unfold is_parent_pointer, word_dot_word. rewrite fullmatch_matches.
    unfold WORD_DOT_WORD. cbn [app]. rewrite matches_plus. split.
    - intros (p & q1 & -> & Hp & Hwp & H1).
      apply matches_one in H1 as (c & q2 & -> & Hc & H2).
      apply matches_plus in H2 as (q & q3 & -> & Hq & Hwq & H3).
      apply matches_end in H3 as ->.
      simpl in Hc. apply Z.eqb_eq in Hc as ->.
      exists p, q. rewrite app_nil_r. auto.
    - intros (p & q & -> & Hp & Hq & Hwp & Hwq).
      exists p, (DOT :: q).
      split; [reflexivity|]. split; [exact Hp|]. split; [exact Hwp|].
      apply matches_one. exists DOT, q.
      split; [reflexivity|]. split; [apply Z.eqb_refl|].
      apply matches_plus. exists q, []. rewrite app_nil_r.
      split; [reflexivity|]. split; [exact Hq|]. split; [exact Hwq|].
      now apply matches_end. }
  split; [exact Hiff|].
  intros H. apply Hiff in H as (p & q & -> & _ & _ & Hwp & Hwq).
  rewrite count_occ_app. simpl.
  rewrite (count_words p Hwp), (count_words q Hwq).
  destruct (Z.eq_dec DOT DOT); [reflexivity|congruence].
Qed.

End ParentPointer.

Example is_parent_pointer_examples :
  map (is_parent_pointer ascii_only)
      [lit "case.case_id"; lit "case_id"; lit "a.b.c"; lit ".b"; lit "a."; lit "a-b.c";
       lit "a.b" ++ [NEWLINE]]
  = [true; false; false; false; false; false; false].
Proof. reflexivity. Qed.

(** ** [get_uuid_for_node] *)

Section Identity.

Variable W : Type.
Variable handle : forall X : Type, Ext X -> W -> X * W.

(** The whole run: the logger is set up, and the id is logged when the
    three derivations succeed. *)
Lemma get_uuid_for_node_result (cfg : Config) (t s : pystr) (w : W) :
  result_of W handle (get_uuid_for_node cfg t s) w
  = match logger_set_up W handle "Utils" w with
    | Returns _ => nested_uuid5 (ICDC_DOMAIN cfg) t s
    | Fails name => Raised (Exception name)
    end.
Proof.
  unfold result_of, get_uuid_for_node, nested_uuid5, get_logger, log_str, call, call_resp,
    logger_set_up.
  cbn [bind run].
  destruct (handle (Resp unit) (GetLogger "Utils") w) as [[[]|name] w1];
    cbn [bind run fst snd]; [|reflexivity].
  destruct (Uuid.uuid5 Uuid.NAMESPACE_URL (ICDC_DOMAIN cfg)) as [base|e];
    cbn [lift bind run result_bind fst snd]; [|reflexivity].
  destruct (Uuid.uuid5 base t) as [ty|e];
    cbn [lift bind run result_bind fst snd]; [|reflexivity].
  destruct (Uuid.uuid5 ty s) as [u|e];
    cbn [lift bind run result_bind fst snd]; [|reflexivity].
  destruct (handle unit _ w1) as [[] w2]. reflexivity.
Qed.

(** Every run starts with the logger set-up. *)
Lemma get_uuid_for_node_first_call (cfg : Config) (t s : pystr) (w : W) :
  exists tr,
    trace_of W handle (get_uuid_for_node cfg t s) w
    = event (GetLogger "Utils") (logger_set_up W handle "Utils" w) :: tr.
Proof.
  unfold trace_of, get_uuid_for_node, get_logger, call_resp, logger_set_up.
  cbn [bind run].
  destruct (handle (Resp unit) (GetLogger "Utils") w) as [r w1]. cbn [fst].
  destruct (run W handle _ w1) as [[tr r'] w2]. now exists tr.
Qed.

(** C1, amended. When the logger set-up of the call returns, the result is
    the string form of three nested version-5 UUID derivations: from the
    URL namespace and the domain, then the node type, then the signature;
    when the set-up raises, the call raises the same exception and derives
    no id. *)
Theorem get_uuid_for_node_is_nested_uuid5 (cfg : Config) (t s : pystr) (w : W) :
  result_of W handle (get_uuid_for_node cfg t s) w
  = match logger_set_up W handle "Utils" w with
    | Returns _ =>
        result_bind (Uuid.uuid5 Uuid.NAMESPACE_URL (ICDC_DOMAIN cfg)) (fun base =>
        result_bind (Uuid.uuid5 base t) (fun per_type =>
        result_bind (Uuid.uuid5 per_type s) (fun final => Ok (Uuid.str final))))
    | Fails name => Raised (Exception name)
    end.
Proof.
  unfold result_of, get_uuid_for_node, get_logger, log_str, call, call_resp, logger_set_up.
  cbn [bind run].
  destruct (handle (Resp unit) (GetLogger "Utils") w) as [[[]|name] w1];
    cbn [bind run fst snd]; [|reflexivity].
  destruct (Uuid.uuid5 Uuid.NAMESPACE_URL (ICDC_DOMAIN cfg)) as [base|e];
    cbn [lift bind run result_bind fst snd]; [|reflexivity].
  destruct (Uuid.uuid5 base t) as [per_type|e];
    cbn [lift bind run result_bind fst snd]; [|reflexivity].
  destruct (Uuid.uuid5 per_type s) as [final|e];
    cbn [lift bind run result_bind fst snd]; [|reflexivity].
  destruct (handle unit _ w1) as [[] w2]. reflexivity.
Qed.

End Identity.

(** The embedding agrees with CPython's [uuid.uuid5] on examples. *)
Example uuid5_python_org :
  Uuid.uuid5 Uuid.NAMESPACE_DNS (lit "python.org")
  = Ok 0x886313e13b8a53729b900c9aee199e5d.
Proof. vm_compute. reflexivity. Qed.

Example nested_uuid5_case_C1 :
  nested_uuid5 (lit "d.org") (lit "case") (lit "C1")
  = Ok (lit "39cf0f7d-d374-5c1d-ba78-b7603635b64d").
Proof. vm_compute. reflexivity. Qed.

(** C1, counterexample. With a level in [DL_LOG_LEVEL] that [logging] does
    not know, the call for the node type [case] and the signature [C1]
    raises [ValueError], where the three nested derivations give an id. *)
Lemma get_uuid_for_node_unknown_level_raises :
  result_of unit unknown_level
    (get_uuid_for_node sample_config (lit "case") (lit "C1")) tt
  = Raised (Exception "ValueError")
  /\ nested_uuid5 (ICDC_DOMAIN sample_config) (lit "case") (lit "C1")
     = Ok (lit "39cf0f7d-d374-5c1d-ba78-b7603635b64d").
Proof. split; vm_compute; reflexivity. Qed.

(** C2, counterexample. Two calls with the same domain, node type and
    signature that do not return the same id: one returns the id, the
    other, with an unknown level in [DL_LOG_LEVEL], raises. *)
Lemma get_uuid_for_node_depends_on_log_level :
  result_of unit (answer sample_answers)
    (get_uuid_for_node sample_config (lit "case") (lit "C1")) tt
  <> result_of unit unknown_level
       (get_uuid_for_node sample_config (lit "case") (lit "C1")) tt.
Proof. vm_compute. discriminate. Qed.

(** C2, amended. Any two calls on the same configuration, node type and
    signature whose logger set-up returns give the same result, in any two
    worlds and states; and no call is pure: each starts with the logger
    set-up. *)
Theorem get_uuid_for_node_deterministic
    (W1 W2 : Type)
    (handle1 : forall X : Type, Ext X -> W1 -> X * W1)
    (handle2 : forall X : Type, Ext X -> W2 -> X * W2)
    (cfg : Config) (t s : pystr) (w1 : W1) (w2 : W2) :
  logger_set_up W1 handle1 "Utils" w1 = Returns tt ->
  logger_set_up W2 handle2 "Utils" w2 = Returns tt ->
  result_of W1 handle1 (get_uuid_for_node cfg t s) w1
  = result_of W2 handle2 (get_uuid_for_node cfg t s) w2
  /\ exists tr1 tr2,
       trace_of W1 handle1 (get_uuid_for_node cfg t s) w1
       = event (GetLogger "Utils") (Returns tt) :: tr1
       /\ trace_of W2 handle2 (get_uuid_for_node cfg t s) w2
          = event (GetLogger "Utils") (Returns tt) :: tr2.
Proof.
  intros H1 H2. split.
  - rewrite (get_uuid_for_node_result W1 handle1), (get_uuid_for_node_result W2 handle2).
    now rewrite H1, H2.
  - destruct (get_uuid_for_node_first_call W1 handle1 cfg t s w1) as [tr1 E1].
    destruct (get_uuid_for_node_first_call W2 handle2 cfg t s w2) as [tr2 E2].
    rewrite H1 in E1. rewrite H2 in E2. now exists tr1, tr2.
Qed.

Lemma get_uuid_for_node_deterministic_witness :
  result_of unit (answer sample_answers)
    (get_uuid_for_node sample_config (lit "case") (lit "C1")) tt
  = result_of unit (answer no_txt_answers)
      (get_uuid_for_node sample_config (lit "case") (lit "C1")) tt
  /\ exists tr1 tr2,
       trace_of unit (answer sample_answers)
         (get_uuid_for_node sample_config (lit "case") (lit "C1")) tt
       = event (GetLogger "Utils") (Returns tt) :: tr1
       /\ trace_of unit (answer no_txt_answers)
            (get_uuid_for_node sample_config (lit "case") (lit "C1")) tt
          = event (GetLogger "Utils") (Returns tt) :: tr2.
Proof.
  apply (get_uuid_for_node_deterministic unit unit (answer sample_answers)
           (answer no_txt_answers) sample_config (lit "case") (lit "C1") tt tt);
    reflexivity.
Defined.

(** *** Range of [uuid5] *)

Lemma to_bytes_range (n : nat) (x : Z) : Forall is_byte (Sha1.to_bytes n x).
Proof.
  revert x. induction n as [|n IH]; intros x; simpl; [constructor|].
  apply Forall_app. split; [apply IH|].
  constructor; [|constructor]. unfold is_byte. apply Z.mod_pos_bound. lia.
Qed.

Lemma fold_bytes_range (bs : list Z) (acc k : Z) :
  Forall is_byte bs -> 0 <= k -> 0 <= acc < 256 ^ k ->
  0 <= fold_left (fun a b => a * 256 + b) bs acc < 256 ^ (k + Z.of_nat (List.length bs)).
Proof.
  intros Hb. revert acc k. induction Hb as [|b bs Hb _ IH]; intros acc k Hk Hacc.
  - simpl. now rewrite Z.add_0_r.
  - cbn [fold_left List.length].
    replace (k + Z.of_nat (S (List.length bs))) with ((k + 1) + Z.of_nat (List.length bs)) by lia.
    apply IH; [lia|].
    rewrite Z.pow_add_r by lia. unfold is_byte in Hb. change (256 ^ 1) with 256. nia.
Qed.

Lemma from_bytes_range (bs : list Z) :
  Forall is_byte bs -> 0 <= Sha1.from_bytes bs < 256 ^ Z.of_nat (List.length bs).
Proof.
  intros Hb. unfold Sha1.from_bytes.
  apply (fold_bytes_range bs 0 0 Hb); [lia|]. change (256 ^ 0) with 1. lia.
Qed.

Lemma digest_bytes (msg : list Z) : Forall is_byte (Sha1.digest msg).
Proof.
  unfold Sha1.digest.
  destruct (fold_left Sha1.compress _ Sha1.init) as [[[[h0 h1] h2] h3] h4].
  rewrite !Forall_app. repeat split; apply to_bytes_range.
Qed.

Lemma in_range_iff (x n : Z) :
  0 <= n -> (0 <= x < 2 ^ n <-> Z.land x (Z.ones n) = x).
Proof.
  intros Hn. rewrite Z.land_ones by exact Hn. split.
  - intros H. now apply Z.mod_small.
  - intros <-. apply Z.mod_pos_bound. apply Z.pow_pos_nonneg; lia.
Qed.

Lemma lor_below (a b n : Z) :
  0 <= n -> 0 <= a < 2 ^ n -> 0 <= b < 2 ^ n -> 0 <= Z.lor a b < 2 ^ n.
Proof.
  intros Hn Ha Hb. apply in_range_iff in Ha, Hb; try exact Hn.
  apply in_range_iff; [exact Hn|].
  now rewrite Z.land_lor_distr_l, Ha, Hb.
Qed.

Lemma land_below (a b n : Z) :
  0 <= n -> 0 <= a < 2 ^ n -> 0 <= Z.land a b < 2 ^ n.
Proof.
  intros Hn Ha. apply in_range_iff in Ha; try exact Hn.
  apply in_range_iff; [exact Hn|].
  rewrite <- Z.land_assoc, (Z.land_comm b), Z.land_assoc. now rewrite Ha.
Qed.

Lemma of_bytes_range (b : list Z) :
  Forall is_byte b -> (List.length b <= 16)%nat ->
  0 <= Uuid.of_bytes b 5 < 2 ^ 128.
Proof.
  intros Hb Hlen. unfold Uuid.of_bytes.
  assert (H : 0 <= Sha1.from_bytes b < 2 ^ 128).
  { pose proof (from_bytes_range b Hb) as [H0 H1]. split; [exact H0|].
    eapply Z.lt_le_trans; [exact H1|].
    change (2 ^ 128) with (256 ^ 16). apply Z.pow_le_mono_r; lia. }
  apply lor_below; [lia| |vm_compute; split; [discriminate|reflexivity]].
  apply land_below; [lia|].
  apply lor_below; [lia| |vm_compute; split; [discriminate|reflexivity]].
  apply land_below; [lia|exact H].
Qed.

Lemma uuid5_range (ns : Uuid.UUID) (name : pystr) (u : Uuid.UUID) :
  Uuid.uuid5 ns name = Ok u -> 0 <= u < 2 ^ 128.
Proof.
  unfold Uuid.uuid5. destruct (utf8 name) as [b|]; [|discriminate].
  intros H.
  replace u with (Uuid.of_bytes (firstn 16 (Sha1.digest (Uuid.bytes ns ++ b))) 5)
    by congruence.
  apply of_bytes_range.
  - pose proof (digest_bytes (Uuid.bytes ns ++ b)) as Hd.
    rewrite <- (firstn_skipn 16) in Hd. apply Forall_app in Hd. apply Hd.
  - apply firstn_le_length.
Qed.

(** *** The string form is injective *)

Lemma hex_length (n : nat) (x : Z) : List.length (Uuid.hex n x) = n.
Proof.
  revert x. induction n as [|n IH]; intros x; [reflexivity|].
  simpl. rewrite length_app, IH. simpl. lia.
Qed.

Lemma hex_digit_inj (a b : Z) :
  0 <= a < 16 -> 0 <= b < 16 -> Uuid.hex_digit a = Uuid.hex_digit b -> a = b.
Proof.
  unfold Uuid.hex_digit. intros Ha Hb.
  destruct (a <? 10) eqn:Ea, (b <? 10) eqn:Eb;
    try apply Z.ltb_lt in Ea; try apply Z.ltb_lt in Eb;
    try apply Z.ltb_ge in Ea; try apply Z.ltb_ge in Eb; lia.
Qed.

Lemma hex_inj (n : nat) (x y : Z) :
  Uuid.hex n x = Uuid.hex n y -> x mod 16 ^ Z.of_nat n = y mod 16 ^ Z.of_nat n.
Proof.
  revert x y. induction n as [|n IH]; intros x y H.
  - change (16 ^ Z.of_nat 0) with 1. now rewrite !Z.mod_1_r.
  - simpl in H. apply app_inj_tail in H as [H1 H2].
    apply IH in H1. apply hex_digit_inj in H2; try (apply Z.mod_pos_bound; lia).
    rewrite Nat2Z.inj_succ, Z.pow_succ_r by lia.
    rewrite !Z.rem_mul_r by (try apply Z.pow_pos_nonneg; lia).
    now rewrite H1, H2.
Qed.

Lemma undash_str (u : Uuid.UUID) : undash (Uuid.str u) = Uuid.hex 32 u.
Proof.
  unfold Uuid.str. pose proof (hex_length 32 u) as Hlen.
  destruct (Uuid.hex 32 u) as [|? h]; [discriminate|].
  do 31 (destruct h as [|? h]; [discriminate|]).
  destruct h; [reflexivity|discriminate].
Qed.

Lemma str_inj (u v : Uuid.UUID) :
  0 <= u < 2 ^ 128 -> 0 <= v < 2 ^ 128 -> Uuid.str u = Uuid.str v -> u = v.
Proof.
  intros Hu Hv H. apply (f_equal undash) in H. rewrite !undash_str in H.
  apply hex_inj in H. change (16 ^ Z.of_nat 32) with (2 ^ 128) in H.
  now rewrite !Z.mod_small in H.
Qed.

(** *** Finitely many ids *)

Lemma bounded_search (n : nat) (P : nat -> Prop) :
  (forall i, {P i} + {~ P i}) ->
  (exists i, (i <= n)%nat /\ P i) \/ (forall i, (i <= n)%nat -> ~ P i).
Proof.
  intros dec. induction n as [|n [(i & Hi & HP)|IH]].
  - destruct (dec 0%nat) as [H|H].
    + left. exists 0%nat. auto.
    + right. intros i Hi. now replace i with 0%nat by lia.
  - left. exists i. split; [lia|exact HP].
  - destruct (dec (S n)) as [H|H].
    + left. exists (S n). auto.
    + right. intros i Hi. destruct (Nat.eq_dec i (S n)) as [->|Hne]; [exact H|].
      apply IH. lia.
Qed.

Lemma pigeonhole (n : nat) (f : nat -> nat) :
  (forall i, (i <= n)%nat -> (f i < n)%nat) ->
  exists i j, (i < j <= n)%nat /\ f i = f j.
Proof.
  revert f. induction n as [|n IH]; intros f Hf.
  - specialize (Hf 0%nat ltac:(lia)). lia.
  - destruct (bounded_search n (fun i => f i = f (S n))) as [(i & Hi & Heq)|Hnone].
    + intros i. apply Nat.eq_dec.
    + exists i, (S n). split; [lia|exact Heq].
    + set (g := fun i => if Nat.eq_dec (f i) n then f (S n) else f i).
      destruct (IH g) as (i & j & Hij & Hg).
      * intros i Hi. unfold g.
        pose proof (Hf i ltac:(lia)). pose proof (Hf (S n) ltac:(lia)).
        pose proof (Hnone i Hi).
        destruct (Nat.eq_dec (f i) n); lia.
      * unfold g in Hg.
        pose proof (Hnone i ltac:(lia)). pose proof (Hnone j ltac:(lia)).
        exists i, j. split; [lia|].
        destruct (Nat.eq_dec (f i) n), (Nat.eq_dec (f j) n); congruence.
Qed.

Lemma utf8_repeat_a (n : nat) : exists b, utf8 (repeat 97 n) = Some b.
Proof.
  induction n as [|n [b IH]]; [now exists []|].
  exists ([97] ++ b). cbn [repeat utf8]. rewrite IH. reflexivity.
Qed.

Lemma uuid5_repeat_a (ns : Uuid.UUID) (n : nat) :
  exists u, Uuid.uuid5 ns (repeat 97 n) = Ok u.
Proof.
  unfold Uuid.uuid5. destruct (utf8_repeat_a n) as [b ->]. eauto.
Qed.

Lemma uuid5_collision (ns : Uuid.UUID) :
  exists s1 s2 u,
    s1 <> s2 /\ Uuid.uuid5 ns s1 = Ok u /\ Uuid.uuid5 ns s2 = Ok u.
Proof.
  set (f := fun i => match Uuid.uuid5 ns (repeat 97 i) with
                     | Ok u => Z.to_nat u
                     | Raised _ => 0%nat
                     end).
  destruct (pigeonhole (Z.to_nat (2 ^ 128)) f) as (i & j & Hij & Hf).
  - intros i _. unfold f.
    destruct (uuid5_repeat_a ns i) as [u Hu]. rewrite Hu.
    apply uuid5_range in Hu. apply Z2Nat.inj_lt; lia.
  - unfold f in Hf.
    destruct (uuid5_repeat_a ns i) as [u Hu], (uuid5_repeat_a ns j) as [v Hv].
    rewrite Hu, Hv in Hf.
    pose proof (uuid5_range _ _ _ Hu). pose proof (uuid5_range _ _ _ Hv).
    apply Z2Nat.inj in Hf; [|lia|lia]. subst v.
    exists (repeat 97 i), (repeat 97 j), u. split; [|auto].
    intros Heq. apply (f_equal (@List.length Z)) in Heq.
    rewrite !repeat_length in Heq. lia.
Qed.

(** ** Reasoning about runs *)

Lemma wp_sound {A : Type} (W : Type) (handle : forall X : Type, Ext X -> W -> X * W)
    (p : Prog A) (post : list Event -> Result A -> Prop) (w : W) :
  wp p post -> post (trace_of W handle p w) (result_of W handle p w).
Proof.
  unfold trace_of, result_of. revert post w.
  induction p as [a|e|X op k IH]; intros post w H; simpl in *; auto.
  destruct (handle X op w) as [x w1]. specialize (IH x _ w1 (H x)).
  destruct (run W handle (k x) w1) as [[tr r] w2]. exact IH.
Qed.

Lemma wp_mono {A : Type} (p : Prog A) (P Q : list Event -> Result A -> Prop) :
  (forall tr r, P tr r -> Q tr r) -> wp p P -> wp p Q.
Proof.
  revert P Q. induction p as [a|e|X op k IH]; intros P Q HPQ H; simpl in *; auto.
  intros x. eapply IH; [|apply H]. intros tr r. apply HPQ.
Qed.

Lemma wp_trivial {A : Type} (p : Prog A) (P : list Event -> Result A -> Prop) :
  (forall tr r, P tr r) -> wp p P.
Proof.
  revert P. induction p as [a|e|X op k IH]; intros P H; simpl; auto.
Qed.

Lemma wp_bind {A B : Type} (p : Prog A) (f : A -> Prog B)
    (post : list Event -> Result B -> Prop) :
  wp p (fun tr r => match r with
                    | Ok a => wp (f a) (fun tr' r' => post (tr ++ tr') r')
                    | Raised e => post tr (Raised e)
                    end) ->
  wp (bind p f) post.
Proof.
  revert post. induction p as [a|e|X op k IH]; intros post H; simpl in *.
  - exact H.
  - exact H.
  - intros x. apply IH. exact (H x).
Qed.

Lemma wp_try_except {A : Type} (p : Prog A) (h : Exn -> option (Prog A))
    (post : list Event -> Result A -> Prop) :
  wp p (fun tr r => match r with
                    | Ok a => post tr (Ok a)
                    | Raised e =>
                        match h e with
                        | Some q => wp q (fun tr' r' => post (tr ++ tr') r')
                        | None => post tr (Raised e)
                        end
                    end) ->
  wp (try_except p h) post.
Proof.
  revert post. induction p as [a|e|X op k IH]; intros post H; simpl in *.
  - exact H.
  - destruct (h e); exact H.
  - intros x. apply IH. exact (H x).
Qed.

(** Every event of a run is a call with the answer the world gave. *)
Lemma trace_answers (W : Type) (handle : forall X : Type, Ext X -> W -> X * W)
    (P : Event -> bool) :
  (forall X (op : Ext X) w, P (event op (fst (handle X op w))) = true) ->
  forall A (p : Prog A) w, forallb P (trace_of W handle p w) = true.
Proof.
  intros HP A p. unfold trace_of.
  induction p as [a|e|X op k IH]; intros w; simpl; auto.
  specialize (HP X op w). destruct (handle X op w) as [x w1]. simpl in HP.
  specialize (IH x w1). destruct (run W handle (k x) w1) as [[tr r] w2].
  simpl in *. now rewrite HP, IH.
Qed.

Lemma pystr_eqb_eq (a b : pystr) : pystr_eqb a b = true <-> a = b.
Proof.
  revert b. induction a as [|x a IH]; intros [|y b]; simpl; split; try easy.
  - intros H. apply andb_true_iff in H as [Hx Hab].
    apply Z.eqb_eq in Hx. apply IH in Hab. now subst.
  - intros [= -> ->]. rewrite Z.eqb_refl. now apply IH.
Qed.

Lemma pystr_eqb_refl (a : pystr) : pystr_eqb a a = true.
Proof. now apply pystr_eqb_eq. Qed.


(** ** Traces *)

Lemma forallb_impl (P Q : Event -> bool) (l : list Event) :
  (forall ev, P ev = true -> Q ev = true) -> forallb P l = true -> forallb Q l = true.
Proof.
  intros H. induction l as [|ev l IH]; simpl; [auto|].
  intros Hl. apply andb_true_iff in Hl as [H1 H2]. now rewrite (H _ H1), IH.
Qed.

Lemma existsb_quiet (B P : Event -> bool) (tr : list Event) :
  (forall ev, B ev = true -> P ev = false) ->
  forallb B tr = true -> existsb P tr = false.
Proof.
  intros H. induction tr as [|ev tr IH]; simpl; [reflexivity|].
  intros Hall. apply andb_true_iff in Hall as [H1 H2]. now rewrite (H _ H1), IH.
Qed.

Lemma existsb_In (P : Event -> bool) (tr : list Event) (ev : Event) :
  In ev tr -> P ev = true -> existsb P tr = true.
Proof. intros Hin HP. apply existsb_exists. eauto. Qed.

Lemma guarded_app_quiet (gate late : Event -> bool) (pre tr : list Event) :
  forallb (quiet gate late) pre = true ->
  guarded gate late (pre ++ tr) = guarded gate late tr.
Proof.
  induction pre as [|ev pre IH]; simpl; [reflexivity|].
  intros H. apply andb_true_iff in H as [Hq Hpre].
  unfold quiet in Hq. apply andb_true_iff in Hq as [Hg Hl].
  apply negb_true_iff in Hg. rewrite Hg, Hl. simpl. now apply IH.
Qed.

Lemma guarded_quiet (gate late : Event -> bool) (tr : list Event) :
  forallb (quiet gate late) tr = true -> guarded gate late tr = true.
Proof.
  intros H. rewrite <- (app_nil_r tr). now rewrite guarded_app_quiet.
Qed.

Lemma guarded_sound (gate late : Event -> bool) (tr pre post : list Event) (ev : Event) :
  guarded gate late tr = true -> tr = pre ++ ev :: post -> late ev = true ->
  exists g, In g pre /\ gate g = true.
Proof.
  revert tr. induction pre as [|e pre IH]; intros tr Hg Heq Hl; subst tr.
  - simpl in Hg. rewrite Hl in Hg. discriminate.
  - simpl in Hg. apply andb_true_iff in Hg as [_ Hg].
    destruct (gate e) eqn:He.
    + exists e. split; [now left|exact He].
    + destruct (IH _ Hg eq_refl Hl) as (g & Hin & Hgate).
      exists g. split; [now right|exact Hgate].
Qed.

(** ** Symbolic execution *)

Ltac head_scrutinee p :=
  lazymatch p with
  | bind ?q _ => head_scrutinee q
  | try_except ?q _ => head_scrutinee q
  | match ?b with _ => _ end => b
  end.

Ltac wp_unfold :=
  cbn [wp bind try_except for_each lift negb andb orb app].

Ltac wp_open :=
  repeat unfold when, sys_exit, log_str, get_logger, get_host, call, call_resp, call_neo.

Ltac negb_hyps :=
  repeat match goal with
    | H : negb _ = true |- _ => apply negb_true_iff in H
    | H : negb _ = false |- _ => apply negb_false_iff in H
    end.

Ltac wp_case :=
  lazymatch goal with
  | |- wp ?p _ =>
      let b := head_scrutinee p in
      destruct b eqn:?; try solve [exfalso; negb_hyps; congruence]
  end.

Ltac wp_auto := repeat first [progress wp_unfold | intro | wp_case].

(** A step of a program whose events all satisfy [B], after a prefix of
    such events: what is left is the rest of the program after a longer
    prefix, and the case that the step raised. *)
Lemma wp_step {A B : Type} (Bv : Event -> bool) (p : Prog A) (f : A -> Prog B)
    (Phi : list Event -> Result B -> Prop) (pre : list Event) :
  forallb Bv pre = true ->
  wp p (fun tr _ => forallb Bv tr = true) ->
  (forall pre' a, forallb Bv pre' = true ->
                  wp (f a) (fun tr r => Phi (pre' ++ tr) r)) ->
  (forall pre' e, forallb Bv pre' = true -> Phi pre' (Raised e)) ->
  wp (bind p f) (fun tr r => Phi (pre ++ tr) r).
Proof.
  intros Hpre Hp Hok Hraise. apply wp_bind.
  eapply wp_mono; [|exact Hp]. cbn beta. intros tr r Htr.
  assert (Hall : forallb Bv (pre ++ tr) = true)
    by (rewrite forallb_app, Hpre, Htr; reflexivity).
  destruct r as [a|e].
  - eapply wp_mono; [|exact (Hok _ a Hall)]. cbn beta.
    intros tr' r'. now rewrite app_assoc.
  - exact (Hraise _ e Hall).
Qed.

Ltac wp_quiet B Phi :=
  lazymatch goal with
  | Hpre : forallb B ?pre = true |- _ =>
      apply (wp_step B _ _ Phi pre Hpre);
      [ solve [wp_auto; cbn; rewrite ?pystr_eqb_refl; reflexivity]
      | clear dependent pre; intros pre ? Hpre
      | clear dependent pre; intros pre ? Hpre ]
  end.

(** ** The schema check and the backup *)

Lemma check_each_schema_wp (l : list pystr) (log : string) :
  wp (check_each_schema l log)
     (fun tr r =>
        forallb schema_check_event tr = true
        /\ exists b, r = Ok b
           /\ (b = true -> Forall (fun f => In (event (IsFile f) true) tr) l)
           /\ (b = false -> Exists (fun f => In (event (IsFile f) false) tr) l)).
Proof.
  induction l as [|f l IH]; cbn [check_each_schema].
  - cbn. split; [reflexivity|]. exists true. repeat split; [constructor|discriminate].
  - cbn [wp bind call log_str]. intros [|].
    + cbn [negb]. eapply wp_mono; [|exact IH]. cbn beta.
      intros tr r (Hall & b & -> & Ht & Hf). split; [exact Hall|].
      exists b. split; [reflexivity|]. split.
      * intros Hb. constructor; [now left|].
        eapply Forall_impl; [|exact (Ht Hb)]. intros g Hg. now right.
      * intros Hb. apply Exists_cons_tl.
        eapply Exists_impl; [|exact (Hf Hb)]. intros g Hg. now right.
    + cbn. intros []. split; [reflexivity|]. exists false.
      split; [reflexivity|]. split; [discriminate|].
      intros _. apply Exists_cons_hd. now left.
Qed.

Lemma check_schema_files_wp (l : list pystr) (log : string) :
  wp (check_schema_files l log)
     (fun tr r =>
        forallb schema_check_event tr = true
        /\ exists b, r = Ok b
           /\ (b = true -> l <> [] /\ Forall (fun f => In (event (IsFile f) true) tr) l)
           /\ (b = false -> l = [] \/ Exists (fun f => In (event (IsFile f) false) tr) l)).
Proof.
  destruct l as [|f l].
  - cbn. intros []. split; [reflexivity|]. exists false.
    split; [reflexivity|]. split; [discriminate|auto].
  - change (check_schema_files (f :: l) log) with (check_each_schema (f :: l) log).
    eapply wp_mono; [|apply check_each_schema_wp]. cbn beta.
    intros tr r (Hall & b & -> & Ht & Hf). split; [exact Hall|].
    exists b. split; [reflexivity|]. split.
    + intros Hb. split; [discriminate|auto].
    + auto.
Qed.

Lemma schema_check_startup (directory : pystr) (ev : Event) :
  schema_check_event ev = true -> startup_event directory ev = true.
Proof. destruct ev as [X [op x]]. destruct op; easy. Qed.

Lemma check_schema_files_startup (directory : pystr) (l : list pystr) (log : string) :
  wp (check_schema_files l log)
     (fun tr r => forallb (startup_event directory) tr = true
                  /\ exists b, r = Ok b).
Proof.
  eapply wp_mono; [|apply check_schema_files_wp]. cbn beta.
  intros tr r (Hall & b & -> & _). split; [|eauto].
  revert Hall. apply forallb_impl, schema_check_startup.
Qed.

Lemma backup_neo4j_wp (cfg : Config) (backup_dir name : pystr)
    (address : option pystr) (log : string) :
  wp (backup_neo4j cfg backup_dir name address log)
     (fun tr r =>
        forallb backup_event tr = true
        /\ exists v, r = Ok v
           /\ existsb (is_backup_call backup_dir) tr = truthy v).
Proof.
  unfold backup_neo4j. wp_open.
  destruct (is_local address) eqn:Hloc.
  - wp_auto.
    all: split; [reflexivity|]; eexists; split; [reflexivity|].
    all: cbn [existsb]; unfold is_backup_call, answered; cbn;
      rewrite ?pystr_eqb_refl; reflexivity.
  - destruct address as [a|].
    + wp_auto.
      all: split; [reflexivity|]; eexists; split; [reflexivity|].
      all: cbn [existsb]; unfold is_backup_call, answered; cbn;
        rewrite ?pystr_eqb_refl; reflexivity.
    + wp_auto. split; [reflexivity|]. eexists. split; reflexivity.
Qed.

(** The start of [main], up to the schema check, step by step: what is
    left is the listing of the data files after a prefix [pre] of start-up
    events, and the cases that the start-up raised or exited. *)
Ltac wp_schema_quiet directory Phi :=
  lazymatch goal with
  | Hpre : forallb (startup_event directory) ?pre = true |- _ =>
      apply (wp_step (startup_event directory) _ _ Phi pre Hpre);
      [ eapply wp_mono; [|apply (check_schema_files_startup directory)];
        cbn beta; intros ? ? [? _]; assumption
      | clear dependent pre; intros pre ok Hpre; destruct ok; wp_unfold
      | clear dependent pre; intros pre ? Hpre ]
  end.

Ltac wp_startup_checks directory Phi :=
  let pre := fresh "pre" in
  let Hpre := fresh "Hpre" in
  pose (pre := @nil Event);
  assert (Hpre : forallb (startup_event directory) pre = true) by reflexivity;
  lazymatch goal with
  | |- wp ?m _ => change (wp m (fun tr r => Phi (pre ++ tr) r))
  end;
  clearbody pre;
  unfold main, confirm_wipe_db; wp_open;
  wp_quiet (startup_event directory) Phi;
  [ wp_quiet (startup_event directory) Phi;
    [ wp_quiet (startup_event directory) Phi;
      [ wp_quiet (startup_event directory) Phi;
        [ wp_quiet (startup_event directory) Phi;
          [ wp_quiet (startup_event directory) Phi | ]
        | ]
      | ]
    | ]
  | ].

Ltac wp_startup directory Phi :=
  wp_startup_checks directory Phi; [wp_schema_quiet directory Phi | ..].

(** The backup, wherever the program is about to run it. *)
Ltac wp_backup :=
  lazymatch goal with
  | |- wp (backup_neo4j _ _ _ _ _) _ =>
      eapply wp_mono; [|apply backup_neo4j_wp]; cbn beta;
      let r := fresh "r" in let v := fresh "restore_cmd" in
      intros ? r (? & v & -> & ?); cbn beta iota
  | |- wp (try_except _ _) _ => apply wp_try_except; wp_backup
  | |- wp (bind _ _) _ => apply wp_bind; wp_backup
  end.

(** Rewriting with what is known of the pieces of a trace. *)
Ltac trace_facts :=
  repeat match goal with
    | H : forallb _ ?t = true |- context [forallb _ ?t] => rewrite H
    | H : existsb _ ?t = _ |- context [existsb _ ?t] => rewrite H
    end.

Ltac trace_simpl :=
  rewrite ?app_nil_r, <- ?app_assoc;
  repeat (cbn [guarded existsb forallb app];
          rewrite ?guarded_app_quiet, ?guarded_quiet, ?existsb_app, ?forallb_app
            by assumption);
  trace_facts.

Lemma startup_sessionless (directory : pystr) (ev : Event) :
  startup_event directory ev = true -> sessionless ev = true.
Proof. destruct ev as [X [op x]]. destruct op; easy. Qed.

Section DryRun.

Variable ua : Z -> bool.
Variable ul : pystr -> nat -> pystr.
Variable cfg : Config.

Lemma main_dry_run_wp (args : Args) :
  dry_run args = true ->
  wp (main ua ul cfg args) (fun tr _ => forallb sessionless tr = true).
Proof.
  intros Hdry.
  wp_startup (dir args) (fun (tr : list Event) (_ : Result unit) =>
                           forallb sessionless tr = true).
  all: cbn beta.
  all: repeat match goal with
         | H : forallb (startup_event _) _ = true |- _ =>
             apply (forallb_impl _ _ _ (startup_sessionless _)) in H
         end.
  all: rewrite ?Hdry, ?andb_false_r.
  all: wp_auto.
  all: trace_simpl; reflexivity.
Qed.

(** C5. In a dry run no driver is ever created or closed, the loader is
    built without a driver and is only ever asked for a dry run; and the
    loader, asked for a dry run, issues no operation on the store. *)
Theorem dry_run_never_touches_store
    (W : Type) (handle : forall X : Type, Ext X -> W -> X * W) (args : Args) (w : W) :
  dry_run args = true ->
  forallb sessionless (trace_of W handle (main ua ul cfg args) w) = true
  /\ (forall validate driver file_list cheat mode wipe max_violations,
        DataLoader_load validate driver file_list cheat true mode wipe max_violations
        = Ok []).
Proof.
  intros Hdry. split.
  - exact (wp_sound W handle _ _ w (main_dry_run_wp args Hdry)).
  - reflexivity.
Qed.

End DryRun.

Lemma dry_run_never_touches_store_witness :
  forallb sessionless
    (trace_of unit (answer sample_answers)
       (main ascii_only ascii_lower_only sample_config
          {| uri := None; user := None; password := Some (lit "pw");
             schema := [lit "model.yml"]; cheat_mode := false; dry_run := true;
             wipe_db := true; no_backup := false; max_violations := Some 10;
             bucket := None; s3_folder := None; mode := UPSERT_MODE;
             dir := lit "data" |}) tt) = true
  /\ (forall validate driver file_list cheat mode wipe max_violations,
        DataLoader_load validate driver file_list cheat true mode wipe max_violations
        = Ok []).
Proof.
  apply (dry_run_never_touches_store ascii_only ascii_lower_only sample_config
           unit (answer sample_answers)).
  reflexivity.
Defined.

(** ** The wipe confirmation *)

Section Wipe.

Variable ua : Z -> bool.
Variable ul : pystr -> nat -> pystr.
Variable cfg : Config.

Lemma confirmed_input (prompt s : pystr) :
  confirmed ul (event (Input prompt) (Returns s))
  = pystr_eqb (lower ul (strip s)) (lit "yes").
Proof. reflexivity. Qed.

Lemma refused_input (prompt s : pystr) :
  refused ul (event (Input prompt) (Returns s))
  = negb (pystr_eqb (lower ul (strip s)) (lit "yes")).
Proof. reflexivity. Qed.

Lemma startup_quiet_wipe (directory : pystr) (ev : Event) :
  startup_event directory ev = true -> quiet (confirmed ul) is_LoaderLoad ev = true.
Proof. destruct ev as [X [op x]]. destruct op; easy. Qed.

Lemma backup_quiet_wipe (ev : Event) :
  backup_event ev = true -> quiet (confirmed ul) is_LoaderLoad ev = true.
Proof. destruct ev as [X [op x]]. destruct op; easy. Qed.

Lemma startup_not_refused (directory : pystr) (ev : Event) :
  startup_event directory ev = true -> refused ul ev = false.
Proof. destruct ev as [X [op x]]. destruct op; easy. Qed.

Lemma backup_not_refused (ev : Event) :
  backup_event ev = true -> refused ul ev = false.
Proof. destruct ev as [X [op x]]. destruct op; easy. Qed.

Lemma startup_not_load (directory : pystr) (ev : Event) :
  startup_event directory ev = true -> is_LoaderLoad ev = false.
Proof. destruct ev as [X [op x]]. destruct op; easy. Qed.

Lemma backup_not_load (ev : Event) :
  backup_event ev = true -> is_LoaderLoad ev = false.
Proof. destruct ev as [X [op x]]. destruct op; easy. Qed.

Ltac wipe_facts :=
  repeat match goal with
    | H : forallb (startup_event _) ?t = true |- _ =>
        pose proof (forallb_impl _ _ _ (startup_quiet_wipe _) H);
        pose proof (existsb_quiet _ _ _ (startup_not_refused _) H);
        pose proof (existsb_quiet _ _ _ (startup_not_load _) H);
        clear H
    | H : forallb backup_event ?t = true |- _ =>
        pose proof (forallb_impl _ _ _ backup_quiet_wipe H);
        pose proof (existsb_quiet _ _ _ backup_not_refused H);
        pose proof (existsb_quiet _ _ _ backup_not_load H);
        clear H
    end.

Lemma main_wipe_wp (args : Args) :
  wipe_db args = true ->
  wp (main ua ul cfg args)
     (fun tr r =>
        guarded (confirmed ul) is_LoaderLoad tr = true
        /\ (existsb (refused ul) tr = true ->
            r = Raised (SystemExit None) /\ existsb is_LoaderLoad tr = false)).
Proof.
  intros Hw.
  wp_startup (dir args)
    (fun (tr : list Event) (r : Result unit) =>
       guarded (confirmed ul) is_LoaderLoad tr = true
       /\ (existsb (refused ul) tr = true ->
           r = Raised (SystemExit None) /\ existsb is_LoaderLoad tr = false)).
  all: cbn beta.
  all: rewrite ?Hw.
  all: wp_auto.
  all: try wp_backup.
  all: wp_auto.
  all: wipe_facts.
  all: trace_simpl; rewrite ?confirmed_input, ?refused_input.
  all: repeat match goal with
         | H : negb _ = true |- _ => apply negb_true_iff in H
         | H : negb _ = false |- _ => apply negb_false_iff in H
         end.
  all: repeat match goal with
         | H : pystr_eqb _ _ = _ |- _ => rewrite H
         end.
  all: split; [reflexivity|].
  all: let Hx := fresh in
       intros Hx; first [exfalso; lazy in Hx; discriminate Hx | split; reflexivity].
Qed.



(** C6. With the wipe flag set, the loader is asked to load only after
    [input()] returned a string that is [yes] once stripped and lowered;
    after any other input the program exits before the load is called. *)
Theorem wipe_load_needs_yes
    (W : Type) (handle : forall X : Type, Ext X -> W -> X * W) (args : Args) (w : W) :
  wipe_db args = true ->
  (forall pre ev post,
      trace_of W handle (main ua ul cfg args) w = pre ++ ev :: post ->
      is_LoaderLoad ev = true ->
      exists g s, In g pre /\ input_of g = Some s /\ lower ul (strip s) = lit "yes")
  /\ (forall ev s,
        In ev (trace_of W handle (main ua ul cfg args) w) ->
        input_of ev = Some s -> lower ul (strip s) <> lit "yes" ->
        result_of W handle (main ua ul cfg args) w = Raised (SystemExit None)
        /\ forall e, In e (trace_of W handle (main ua ul cfg args) w) ->
                     is_LoaderLoad e = false).
Proof.
  intros Hw.
  destruct (wp_sound W handle _ _ w (main_wipe_wp args Hw)) as [Hg Hr].
  split.
  - intros pre ev post Heq Hl.
    destruct (guarded_sound _ _ _ _ _ _ Hg Heq Hl) as (g & Hin & Hc).
    unfold confirmed in Hc. destruct (input_of g) as [s|] eqn:Hs; [|discriminate].
    exists g, s. split; [exact Hin|]. split; [exact Hs|].
    now apply pystr_eqb_eq.
  - intros ev s Hin Hs Hne.
    destruct Hr as [Hres Hno].
    + apply existsb_exists. exists ev. split; [exact Hin|].
      unfold refused. rewrite Hs. apply negb_true_iff.
      destruct (pystr_eqb (lower ul (strip s)) (lit "yes")) eqn:He; [|reflexivity].
      apply pystr_eqb_eq in He. contradiction.
    + split; [exact Hres|]. intros e He.
      destruct (is_LoaderLoad e) eqn:Hl; [|reflexivity].
      assert (existsb is_LoaderLoad (trace_of W handle (main ua ul cfg args) w) = true)
        by (apply existsb_exists; eauto).
      congruence.
Qed.

End Wipe.


Lemma wipe_load_needs_yes_witness :
  (forall pre ev post,
      trace_of unit (answer sample_answers)
        (main ascii_only ascii_lower_only sample_config wipe_args) tt
      = pre ++ ev :: post ->
      is_LoaderLoad ev = true ->
      exists g s, In g pre /\ input_of g = Some s
                  /\ lower ascii_lower_only (strip s) = lit "yes")
  /\ (forall ev s,
        In ev (trace_of unit (answer sample_answers)
                 (main ascii_only ascii_lower_only sample_config wipe_args) tt) ->
        input_of ev = Some s -> lower ascii_lower_only (strip s) <> lit "yes" ->
        result_of unit (answer sample_answers)
          (main ascii_only ascii_lower_only sample_config wipe_args) tt
        = Raised (SystemExit None)
        /\ forall e, In e (trace_of unit (answer sample_answers)
                            (main ascii_only ascii_lower_only sample_config wipe_args) tt) ->
                     is_LoaderLoad e = false).
Proof.
  apply (wipe_load_needs_yes ascii_only ascii_lower_only sample_config
           unit (answer sample_answers) wipe_args tt).
  reflexivity.
Defined.

(** The scripted run with the wipe flag: [" YES "] confirms, the load is called. *)
Example wipe_confirmed_run :
  existsb is_LoaderLoad
    (trace_of unit (answer sample_answers)
       (main ascii_only ascii_lower_only sample_config wipe_args) tt) = true
  /\ result_of unit (answer sample_answers)
       (main ascii_only ascii_lower_only sample_config wipe_args) tt = Ok tt.
Proof. vm_compute. split; reflexivity. Qed.

(** ** The backup *)



Lemma glob_patterns_differ (d : pystr) :
  pystr_eqb (d ++ lit "/*") (d ++ lit "/*.txt") = false.
Proof. induction d as [|c d IH]; [reflexivity|]. simpl. now rewrite Z.eqb_refl. Qed.

Lemma is_glob_nonempty_event (pat p : pystr) (l : list pystr) :
  is_glob_nonempty pat (event (Glob pat) (p :: l)) = true.
Proof. unfold is_glob_nonempty, answered. simpl. apply pystr_eqb_refl. Qed.

Lemma startup_not_txt_glob (d : pystr) (ev : Event) :
  startup_event d ev = true -> is_glob_nonempty (d ++ lit "/*.txt") ev = false.
Proof.
  destruct ev as [X [op x]]. destruct op; try easy.
  unfold startup_event, is_glob_nonempty, answered, op_of. simpl.
  intros H. apply pystr_eqb_eq in H. subst pattern.
  destruct x; [reflexivity|apply glob_patterns_differ].
Qed.



Lemma startup_not_activity (d : pystr) (ev : Event) :
  startup_event d ev = true -> load_activity ev = false.
Proof. destruct ev as [X [op x]]. destruct op; easy. Qed.





Lemma cmd_eqb_eq (c d : list pystr) : cmd_eqb c d = true <-> c = d.
Proof.
  revert d. induction c as [|x c IH]; intros [|y d]; simpl; try easy.
  rewrite andb_true_iff, pystr_eqb_eq, IH. split.
  - now intros [-> ->].
  - now intros [= -> ->].
Qed.

Lemma cmd_eqb_refl (c : list pystr) : cmd_eqb c c = true.
Proof. now apply cmd_eqb_eq. Qed.







Section Backup.

Variable ua : Z -> bool.
Variable ul : pystr -> nat -> pystr.
Variable cfg : Config.







End Backup.


(** The scripted run: the backup command is the fourth call of the listing
    stage, before the schema is built. *)
Example backup_run_order :
  map is_SubprocessCall
    (trace_of unit (answer sample_answers)
       (main ascii_only ascii_lower_only sample_config sample_args) tt)
  = [false; false; false; false; false; false; false; true; false; true;
     false; false; false; false; false; false]
  /\ map load_activity
       (trace_of unit (answer sample_answers)
          (main ascii_only ascii_lower_only sample_config sample_args) tt)
     = [false; false; false; false; false; false; false; false; false; false;
        true; true; true; true; false; false].
Proof. vm_compute. split; reflexivity. Qed.

(** ** The schema check *)

Lemma is_isfile_event (f : pystr) (b : bool) :
  is_isfile f b (event (IsFile f) b) = true.
Proof.
  unfold is_isfile, answered. simpl. rewrite pystr_eqb_refl. now destruct b.
Qed.

Lemma startup_not_subprocess (d : pystr) (ev : Event) :
  startup_event d ev = true -> is_SubprocessCall ev = false.
Proof. destruct ev as [X [op x]]. destruct op; easy. Qed.

Lemma startup_not_listing (d : pystr) (ev : Event) :
  startup_event d ev = true -> is_glob_of (d ++ lit "/*.txt") ev = false.
Proof.
  destruct ev as [X [op x]]. destruct op; try easy.
  unfold startup_event, is_glob_of, answered, op_of. simpl.
  intros H. apply pystr_eqb_eq in H. subst pattern. apply glob_patterns_differ.
Qed.

Lemma forallb_negb_existsb (P : Event -> bool) (l : list Event) :
  forallb (fun ev => negb (P ev)) l = true -> existsb P l = false.
Proof.
  induction l as [|ev l IH]; simpl; [reflexivity|].
  intros H. apply andb_true_iff in H as [H1 H2].
  apply negb_true_iff in H1. now rewrite H1, IH.
Qed.

(** A path that the world never takes for a file is never answered as one. *)
Lemma isfile_never_true (W : Type) (handle : forall X : Type, Ext X -> W -> X * W)
    (f : pystr) :
  (forall w, fst (handle bool (IsFile f) w) = false) ->
  forall A (p : Prog A) w, existsb (is_isfile f true) (trace_of W handle p w) = false.
Proof.
  intros Hf A p w. apply forallb_negb_existsb. apply trace_answers.
  intros X op w'. destruct op; try reflexivity.
  unfold is_isfile, answered. simpl.
  destruct (pystr_eqb p0 f) eqn:Hp; [|reflexivity].
  apply pystr_eqb_eq in Hp. subst p0. now rewrite Hf.
Qed.

Section SchemaCheck.

Variable ua : Z -> bool.
Variable ul : pystr -> nat -> pystr.
Variable cfg : Config.

Lemma main_schema_wp (args : Args) :
  wp (main ua ul cfg args)
     (fun tr r =>
        (schema args = []
         \/ exists f, In f (schema args) /\ existsb (is_isfile f true) tr = false) ->
        aborted r /\ forallb (startup_event (dir args)) tr = true).
Proof.
  wp_startup_checks (dir args)
    (fun (tr : list Event) (r : Result unit) =>
       (schema args = []
        \/ exists f, In f (schema args) /\ existsb (is_isfile f true) tr = false) ->
       aborted r /\ forallb (startup_event (dir args)) tr = true).
  all: cbn beta.
  2-7: intros _; split; [eexists; reflexivity|assumption].
  apply wp_bind. eapply wp_mono; [|apply check_schema_files_wp]. cbn beta.
  intros tr r (Hall & ok & -> & Ht & Hf).
  apply (forallb_impl _ _ _ (schema_check_startup (dir args))) in Hall.
  destruct ok.
  - apply wp_trivial. intros tr' r' Hbad. exfalso.
    destruct (Ht eq_refl) as [Hne Hfiles].
    destruct Hbad as [Hnil|(f & Hin & Hno)]; [contradiction|].
    rewrite Forall_forall in Hfiles. specialize (Hfiles f Hin).
    rewrite !existsb_app in Hno.
    rewrite (existsb_In (is_isfile f true) tr _ Hfiles (is_isfile_event f true)) in Hno.
    rewrite orb_true_r in Hno. simpl in Hno. discriminate.
  - wp_unfold. intros _. split; [eexists; reflexivity|].
    rewrite !forallb_app, Hpre, Hall. reflexivity.
Qed.

(** C8. When no schema is given, or some schema path is not a file, the
    schema check answers [False] and the run is aborted having made only
    start-up calls: no backup command, no listing of the data files, no
    schema, session or loader, no load. *)
Theorem bad_schema_aborts_before_anything
    (W : Type) (handle : forall X : Type, Ext X -> W -> X * W) (args : Args) (w : W) :
  (schema args = []
   \/ exists f, In f (schema args) /\ forall w', fst (handle bool (IsFile f) w') = false) ->
  (forall log w', result_of W handle (check_schema_files (schema args) log) w' = Ok false)
  /\ aborted (result_of W handle (main ua ul cfg args) w)
  /\ (forall ev, In ev (trace_of W handle (main ua ul cfg args) w) ->
                 load_activity ev = false /\ is_SubprocessCall ev = false
                 /\ is_glob_of (dir args ++ lit "/*.txt") ev = false).
Proof.
  intros Hbad. split.
  - intros log w'.
    destruct (wp_sound W handle _ _ w' (check_schema_files_wp (schema args) log))
      as (_ & ok & Hres & Ht & _).
    rewrite Hres. destruct ok; [|reflexivity]. exfalso.
    destruct (Ht eq_refl) as [Hne Hfiles].
    destruct Hbad as [Hnil|(f & Hin & Hf)]; [contradiction|].
    rewrite Forall_forall in Hfiles. specialize (Hfiles f Hin).
    pose proof (isfile_never_true W handle f Hf _
                  (check_schema_files (schema args) log) w') as Hno.
    rewrite (existsb_In _ _ _ Hfiles (is_isfile_event f true)) in Hno. discriminate.
  - destruct (wp_sound W handle _ _ w (main_schema_wp args)) as [Hab Hst].
    + destruct Hbad as [Hnil|(f & Hin & Hf)]; [now left|right].
      exists f. split; [exact Hin|]. now apply isfile_never_true.
    + split; [exact Hab|]. intros ev Hin.
      rewrite forallb_forall in Hst. specialize (Hst ev Hin).
      split; [|split].
      * exact (startup_not_activity _ _ Hst).
      * exact (startup_not_subprocess _ _ Hst).
      * exact (startup_not_listing _ _ Hst).
Qed.

End SchemaCheck.


Lemma bad_schema_aborts_before_anything_witness :
  (forall log w',
      result_of unit (answer no_file_answers)
        (check_schema_files (schema sample_args) log) w' = Ok false)
  /\ aborted (result_of unit (answer no_file_answers)
                (main ascii_only ascii_lower_only sample_config sample_args) tt)
  /\ (forall ev,
        In ev (trace_of unit (answer no_file_answers)
                 (main ascii_only ascii_lower_only sample_config sample_args) tt) ->
        load_activity ev = false /\ is_SubprocessCall ev = false
        /\ is_glob_of (dir sample_args ++ lit "/*.txt") ev = false).
Proof.
  apply (bad_schema_aborts_before_anything ascii_only ascii_lower_only sample_config
           unit (answer no_file_answers) sample_args tt).
  right. exists (lit "model.yml"). split; [now left|]. intros w'. reflexivity.
Defined.

(** The scripted run with a missing schema file exits with status 1. *)
Example bad_schema_run :
  result_of unit (answer no_file_answers)
    (main ascii_only ascii_lower_only sample_config sample_args) tt
  = Raised (SystemExit (Some 1)).
Proof. vm_compute. reflexivity. Qed.

(** ** No files to load *)


Lemma startup_idle (d : pystr) (ev : Event) :
  startup_event d ev = true -> idle ev = true.
Proof. destruct ev as [X [op x]]. destruct op; easy. Qed.

Lemma schema_check_reads (ev : Event) :
  schema_check_event ev = true -> negb (writes_files ev) = true.
Proof. destruct ev as [X [op x]]. destruct op; easy. Qed.

Lemma check_failed_isfile (d : pystr) (l : list pystr) (f : pystr) :
  In f l -> check_failed d l (event (IsFile f) false) = true.
Proof.
  intros Hin. unfold check_failed.
  replace (existsb (fun g => is_isfile g false (event (IsFile f) false)) l) with true.
  - now rewrite orb_true_r.
  - symmetry. apply existsb_exists. exists f. split; [exact Hin|apply is_isfile_event].
Qed.

Lemma is_isdir_event (d : pystr) (b : bool) :
  is_isdir d b (event (IsDir d) b) = true.
Proof.
  unfold is_isdir, answered. simpl. rewrite pystr_eqb_refl. now destruct b.
Qed.

Lemma check_failed_isdir (d : pystr) (l : list pystr) :
  check_failed d l (event (IsDir d) false) = true.
Proof. unfold check_failed. now rewrite is_isdir_event. Qed.

Lemma environ_missing_event (key : pystr) :
  environ_missing key (event (EnvironGet key) None) = true.
Proof. unfold environ_missing, answered. simpl. apply pystr_eqb_refl. Qed.

Lemma ends_with_cons (x e : Event) (l : list Event) :
  (exists pre, l = pre ++ [e]) -> exists pre, x :: l = pre ++ [e].
Proof. intros [pre ->]. now exists (x :: pre). Qed.

Lemma ends_with_app (e : Event) (l1 l2 : list Event) :
  (exists pre, l2 = pre ++ [e]) -> exists pre, l1 ++ l2 = pre ++ [e].
Proof. intros [pre ->]. exists (l1 ++ pre). now rewrite app_assoc. Qed.

Lemma existsb_false_const (A : Type) (l : list A) :
  existsb (fun _ => false) l = false.
Proof. induction l; simpl; auto. Qed.

Section NoFiles.

Variable ua : Z -> bool.
Variable ul : pystr -> nat -> pystr.
Variable cfg : Config.

Lemma main_no_files_wp (args : Args) :
  wp (main ua ul cfg args)
     (fun tr _ =>
        existsb (is_glob_nonempty (dir args ++ lit "/*.txt")) tr = false ->
        forallb idle tr = true).
Proof.
  wp_startup (dir args)
    (fun (tr : list Event) (_ : Result unit) =>
       existsb (is_glob_nonempty (dir args ++ lit "/*.txt")) tr = false ->
       forallb idle tr = true).
  all: cbn beta.
  all: apply (forallb_impl _ _ _ (startup_idle _)) in Hpre.
  2-9: intros _; rewrite ?app_nil_r; assumption.
  intros [|p l].
  - wp_auto. rewrite forallb_app, Hpre. reflexivity.
  - apply wp_trivial. intros tr r Hno. exfalso.
    rewrite existsb_app in Hno. cbn [existsb] in Hno.
    rewrite is_glob_nonempty_event in Hno.
    rewrite orb_true_r in Hno. discriminate.
Qed.

Lemma main_checks_pass_wp (args : Args) :
  truthy (s3_folder args) = false ->
  wp (main ua ul cfg args)
     (fun tr r =>
        forallb (logger_ready "Loader") tr = true ->
        existsb (check_failed (dir args) (schema args)) tr = false ->
        (truthy (password args) = true \/ existsb (environ_missing PSWD_ENV) tr = false) ->
        schema args <> [] ->
        existsb (is_glob_nonempty (dir args ++ lit "/*.txt")) tr = false ->
        r = Ok tt
        /\ forallb (fun ev => negb (writes_files ev)) tr = true
        /\ exists pre,
             tr = pre ++ [event (Log "Loader" info (MsgStr (lit "No files to load."))) tt]).
Proof.
  intros Hs3. unfold main, confirm_wipe_db. wp_open. rewrite Hs3.
  wp_auto.
  all: negb_hyps; subst.
  all: try (exfalso;
            match goal with
            | H : forallb (logger_ready _) _ = true |- _ => cbn in H; discriminate H
            end).
  all: try (exfalso;
            match goal with
            | H : existsb (check_failed _ _) _ = false |- _ =>
                cbn [existsb] in H; rewrite ?check_failed_isdir in H;
                rewrite ?orb_true_l, ?orb_true_r in H; discriminate H
            end).
  all: try (exfalso;
            match goal with
            | H : _ \/ existsb (environ_missing _) _ = false |- _ =>
                destruct H as [H|H]; [congruence|];
                cbn [existsb] in H; rewrite ?environ_missing_event in H;
                rewrite ?orb_true_l, ?orb_true_r in H; discriminate H
            end).
  all: apply wp_bind; eapply wp_mono; [|apply check_schema_files_wp]; cbn beta;
    intros tr r (Hall & ok & -> & Ht & Hf); destruct ok; wp_unfold.
  all: try (intros _ Hc _ Hne Hglob; exfalso;
            destruct (Hf eq_refl) as [Hnil|Hex]; [contradiction|];
            apply Exists_exists in Hex as (f & Hin & Hev);
            rewrite ?app_nil_r in Hc; cbn [existsb] in Hc;
            rewrite ?existsb_app in Hc;
            rewrite (existsb_In _ tr _ Hev (check_failed_isfile _ _ _ Hin)) in Hc;
            rewrite ?orb_true_l, ?orb_true_r in Hc; discriminate Hc).
  all: intros [|file files].
  all: try (apply wp_trivial; intros tr' r' _ _ _ _ Hglob; exfalso;
            cbn [existsb] in Hglob; rewrite ?existsb_app in Hglob;
            cbn [existsb] in Hglob; rewrite is_glob_nonempty_event in Hglob;
            rewrite ?orb_true_l, ?orb_true_r in Hglob; discriminate Hglob).
  all: wp_auto.
  all: apply (forallb_impl _ _ _ schema_check_reads) in Hall.
  all: repeat match goal with
         | u : unit |- _ => destruct u
         end.
  all: split; [reflexivity|split].
  all: try (cbn [forallb]; rewrite ?forallb_app, ?Hall; reflexivity).
  all: repeat first [ (exists []; reflexivity)
                    | apply ends_with_cons | apply ends_with_app ].
Qed.

(** What the world never answers does not show in a trace. *)
Lemma never_answered (W : Type) (handle : forall X : Type, Ext X -> W -> X * W)
    (P : Event -> bool) :
  (forall X (op : Ext X) w, P (event op (fst (handle X op w))) = false) ->
  forall A (p : Prog A) w, existsb P (trace_of W handle p w) = false.
Proof.
  intros HP A p w. apply forallb_negb_existsb. apply trace_answers.
  intros X op w'. now rewrite HP.
Qed.

(** C10, amended. When no file of the data directory matches [*.txt], no
    run builds a schema, opens a session, builds a loader, loads or runs a
    command; and when moreover the logger set-up returns, no S3 download is
    asked for, the data directory is a directory, a password is given or is
    in the environment, and the schema paths (at least one) are files, the
    run makes no call that writes files and ends normally right after
    logging that there are no files to load. *)
Theorem no_files_nothing_loaded
    (W : Type) (handle : forall X : Type, Ext X -> W -> X * W) (args : Args) (w : W) :
  (forall w', fst (handle _ (Glob (dir args ++ lit "/*.txt")) w') = []) ->
  (forall ev, In ev (trace_of W handle (main ua ul cfg args) w) ->
              load_activity ev = false /\ is_SubprocessCall ev = false)
  /\ ((forall w', logger_set_up W handle "Loader" w' = Returns tt) ->
      truthy (s3_folder args) = false ->
      (forall w', fst (handle _ (IsDir (dir args)) w') = true) ->
      (truthy (password args) = true
       \/ forall w', fst (handle _ (EnvironGet PSWD_ENV) w') <> None) ->
      schema args <> [] ->
      (forall f w', In f (schema args) -> fst (handle _ (IsFile f) w') = true) ->
      result_of W handle (main ua ul cfg args) w = Ok tt
      /\ (forall ev, In ev (trace_of W handle (main ua ul cfg args) w) ->
                     writes_files ev = false)
      /\ exists pre,
           trace_of W handle (main ua ul cfg args) w
           = pre ++ [event (Log "Loader" info (MsgStr (lit "No files to load."))) tt]).
Proof.
  intros Hglob.
  assert (Hg : existsb (is_glob_nonempty (dir args ++ lit "/*.txt"))
                 (trace_of W handle (main ua ul cfg args) w) = false).
  { apply never_answered. intros X op w'. destruct op; try reflexivity.
    unfold is_glob_nonempty, answered. simpl.
    destruct (fst (handle (list pystr) (Glob pattern) w')) as [|x l] eqn:Hx;
      [reflexivity|].
    destruct (pystr_eqb pattern (dir args ++ lit "/*.txt")) eqn:Hp; [|reflexivity].
    apply pystr_eqb_eq in Hp. subst pattern. rewrite Hglob in Hx. discriminate. }
  split.
  - intros ev Hin.
    pose proof (wp_sound W handle _ _ w (main_no_files_wp args) Hg) as Hidle.
    rewrite forallb_forall in Hidle. specialize (Hidle ev Hin).
    unfold idle in Hidle. apply andb_true_iff in Hidle as [Hl Hs].
    apply negb_true_iff in Hl, Hs. auto.
  - intros Hlog Hs3 Hdir Hpw Hne Hfiles.
    destruct (wp_sound W handle _ _ w (main_checks_pass_wp args Hs3)) as (Hr & Hw & Hlast).
    + apply trace_answers. intros X op w'. destruct op; try reflexivity.
      unfold logger_ready, answered. simpl.
      destruct (fst (handle (Resp unit) (GetLogger name) w')) eqn:Hx; [reflexivity|].
      destruct (String.eqb_spec name "Loader") as [->|]; [|reflexivity].
      unfold logger_set_up in Hlog. rewrite Hlog in Hx. discriminate.
    + apply never_answered. intros X op w'. unfold check_failed.
      destruct op; try (simpl; now rewrite existsb_false_const).
      * unfold is_isdir, is_isfile, answered. simpl.
        rewrite existsb_false_const, orb_false_r.
        destruct (pystr_eqb p (dir args)) eqn:Hp; [|reflexivity].
        apply pystr_eqb_eq in Hp. subst p. now rewrite Hdir.
      * unfold is_isdir, is_isfile, answered. simpl.
        destruct (existsb _ (schema args)) eqn:He; [|reflexivity].
        apply existsb_exists in He as (f & Hin & Hf).
        apply andb_true_iff in Hf as [Hp Hb]. apply pystr_eqb_eq in Hp. subst p.
        rewrite (Hfiles f w' Hin) in Hb. discriminate.
    + destruct Hpw as [Hpw|Hpw]; [now left|right].
      apply never_answered. intros X op w'. destruct op; try reflexivity.
      unfold environ_missing, answered. simpl.
      destruct (fst (handle (option pystr) (EnvironGet key) w')) eqn:Hk; [reflexivity|].
      destruct (pystr_eqb key PSWD_ENV) eqn:Hp; [|reflexivity].
      apply pystr_eqb_eq in Hp. subst key. now apply Hpw in Hk.
    + exact Hne.
    + exact Hg.
    + split; [exact Hr|]. split; [|exact Hlast].
      intros ev Hin. rewrite forallb_forall in Hw. specialize (Hw ev Hin).
      now apply negb_true_iff.
Qed.

End NoFiles.

Lemma no_files_nothing_loaded_witness :
  (forall ev, In ev (trace_of unit (answer no_txt_answers)
                       (main ascii_only ascii_lower_only sample_config sample_args) tt) ->
              load_activity ev = false /\ is_SubprocessCall ev = false)
  /\ ((forall w', logger_set_up unit (answer no_txt_answers) "Loader" w' = Returns tt) ->
      truthy (s3_folder sample_args) = false ->
      (forall w', fst (answer no_txt_answers _ (IsDir (dir sample_args)) w') = true) ->
      (truthy (password sample_args) = true
       \/ forall w', fst (answer no_txt_answers _ (EnvironGet PSWD_ENV) w') <> None) ->
      schema sample_args <> [] ->
      (forall f w', In f (schema sample_args) ->
                    fst (answer no_txt_answers _ (IsFile f) w') = true) ->
      result_of unit (answer no_txt_answers)
        (main ascii_only ascii_lower_only sample_config sample_args) tt = Ok tt
      /\ (forall ev, In ev (trace_of unit (answer no_txt_answers)
                              (main ascii_only ascii_lower_only sample_config sample_args) tt) ->
                     writes_files ev = false)
      /\ exists pre,
           trace_of unit (answer no_txt_answers)
             (main ascii_only ascii_lower_only sample_config sample_args) tt
           = pre ++ [event (Log "Loader" info (MsgStr (lit "No files to load."))) tt]).
Proof.
  apply (no_files_nothing_loaded ascii_only ascii_lower_only sample_config
           unit (answer no_txt_answers) sample_args tt).
  intros w'. reflexivity.
Defined.

(** C10, counterexample. No file matches any pattern, no password is given
    and none is in the environment: the run exits with status 1 instead of
    ending normally. *)
Lemma no_files_run_exits_with_1 :
  (forall pattern w, fst (answer no_txt_answers _ (Glob pattern) w) = [])
  /\ result_of unit (answer no_txt_answers)
       (main ascii_only ascii_lower_only sample_config no_password_args) tt
     = Raised (SystemExit (Some 1)).
Proof. split; [reflexivity|]. vm_compute. reflexivity. Qed.

(** ** Further properties of [removeTrailingSlash] *)

Lemma strip_app_slash (u : pystr) :
  strip_trailing_slashes (u ++ [SLASH]) = strip_trailing_slashes u.
Proof.
  induction u as [|c u IH]; [reflexivity|].
  cbn [app]. rewrite !strip_cons, IH. reflexivity.
Qed.

Lemma strip_app_slashes (u : pystr) (k : nat) :
  strip_trailing_slashes (u ++ repeat SLASH k) = strip_trailing_slashes u.
Proof.
  revert u. induction k as [|k IH]; intros u; simpl.
  - now rewrite app_nil_r.
  - change (SLASH :: repeat SLASH k) with ([SLASH] ++ repeat SLASH k).
    now rewrite app_assoc, IH, strip_app_slash.
Qed.

Section TrailingSlashExtras.

Variable ua : Z -> bool.

(** X1. [removeTrailingSlash] is a normal form for the number of trailing
    slashes: strings that differ only in trailing slashes have the same
    result; and the result is empty exactly for a string of slashes only,
    the empty string included. *)
Theorem removeTrailingSlash_normal_form (u : pystr) :
  (forall k, removeTrailingSlash ua (u ++ repeat SLASH k) = removeTrailingSlash ua u)
  /\ (removeTrailingSlash ua u = [] <-> all_slashes u = true).
Proof.
  split.
  - intros k. rewrite !removeTrailingSlash_strip. apply strip_app_slashes.
  - rewrite removeTrailingSlash_strip. exact (strip_nil_iff ua u).
Qed.

End TrailingSlashExtras.

(** ** The form of the ids *)

Lemma hex_nth (n : nat) (x : Z) (i : nat) :
  (i < n)%nat ->
  nth i (Uuid.hex n x) 0 = Uuid.hex_digit ((x / 16 ^ Z.of_nat (n - 1 - i)) mod 16).
Proof.
  revert x i. induction n as [|n IH]; intros x i Hi; [lia|].
  cbn [Uuid.hex]. destruct (Nat.eq_dec i n) as [->|Hne].
  - rewrite app_nth2 by (rewrite hex_length; lia).
    rewrite hex_length, Nat.sub_diag. simpl nth.
    replace (S n - 1 - n)%nat with 0%nat by lia. now rewrite Z.pow_0_r, Z.div_1_r.
  - rewrite app_nth1 by (rewrite hex_length; lia).
    rewrite IH by lia. f_equal. f_equal.
    replace (S n - 1 - i)%nat with (S (n - 1 - i)) by lia.
    rewrite Nat2Z.inj_succ, Z.pow_succ_r by lia.
    rewrite Z.div_div by (try apply Z.pow_pos_nonneg; lia). reflexivity.
Qed.

Lemma hex_digit_is_hex (d : Z) : 0 <= d < 16 -> is_hex_char (Uuid.hex_digit d) = true.
Proof.
  intros Hd. unfold Uuid.hex_digit, is_hex_char.
  destruct (d <? 10) eqn:E; [apply Z.ltb_lt in E|apply Z.ltb_ge in E].
  - apply orb_true_iff. left. apply andb_true_iff. split; apply Z.leb_le; lia.
  - apply orb_true_iff. right. apply andb_true_iff. split; apply Z.leb_le; lia.
Qed.

Lemma hex_chars (n : nat) (x : Z) : forallb is_hex_char (Uuid.hex n x) = true.
Proof.
  revert x. induction n as [|n IH]; intros x; [reflexivity|].
  cbn [Uuid.hex]. rewrite forallb_app, IH. cbn [forallb].
  rewrite hex_digit_is_hex by (apply Z.mod_pos_bound; lia). reflexivity.
Qed.

Lemma of_bytes_version (b : list Z) :
  Z.land (Z.shiftr (Uuid.of_bytes b 5) 76) 15 = 5.
Proof.
  unfold Uuid.of_bytes.
  rewrite Z.shiftr_lor, Z.shiftr_land, Z.land_lor_distr_l, <- Z.land_assoc.
  replace (Z.land (Z.shiftr (Z.lnot (Z.shiftl 61440 64)) 76) 15) with 0
    by (vm_compute; reflexivity).
  rewrite Z.land_0_r. vm_compute. reflexivity.
Qed.

Lemma of_bytes_variant (b : list Z) :
  Z.land (Z.shiftr (Uuid.of_bytes b 5) 62) 3 = 2.
Proof.
  unfold Uuid.of_bytes.
  rewrite Z.shiftr_lor, Z.shiftr_land, Z.land_lor_distr_l, <- Z.land_assoc.
  replace (Z.land (Z.shiftr (Z.lnot (Z.shiftl 61440 64)) 62) 3) with 3
    by (vm_compute; reflexivity).
  replace (Z.land (Z.shiftr (Z.shiftl 5 76) 62) 3) with 0 by (vm_compute; reflexivity).
  rewrite Z.lor_0_r.
  rewrite Z.shiftr_lor, Z.shiftr_land, Z.land_lor_distr_l, <- Z.land_assoc.
  replace (Z.land (Z.shiftr (Z.lnot (Z.shiftl 49152 48)) 62) 3) with 0
    by (vm_compute; reflexivity).
  rewrite Z.land_0_r. vm_compute. reflexivity.
Qed.

Lemma version_digit (u : Z) :
  Z.land (Z.shiftr u 76) 15 = 5 -> nth 12 (Uuid.hex 32 u) 0 = 53.
Proof.
  intros H. rewrite hex_nth by lia.
  change (Z.of_nat (32 - 1 - 12)) with 19. change (16 ^ 19) with (2 ^ 76).
  rewrite <- Z.shiftr_div_pow2 by lia.
  change 16 with (2 ^ 4). rewrite <- Z.land_ones by lia.
  change (Z.ones 4) with 15. rewrite H. reflexivity.
Qed.

Lemma variant_digit (u : Z) :
  Z.land (Z.shiftr u 62) 3 = 2 ->
  existsb (Z.eqb (nth 16 (Uuid.hex 32 u) 0)) [56; 57; 97; 98] = true.
Proof.
  intros H. rewrite hex_nth by lia.
  change (Z.of_nat (32 - 1 - 16)) with 15. change (16 ^ 15) with (2 ^ 60).
  rewrite <- Z.shiftr_div_pow2 by lia.
  change 16 with (2 ^ 4). rewrite <- Z.land_ones by lia.
  change (Z.ones 4) with 15.
  set (d := Z.land (Z.shiftr u 60) 15).
  assert (Hd : Z.shiftr d 2 = 2).
  { unfold d. rewrite Z.shiftr_land, Z.shiftr_shiftr by lia. exact H. }
  assert (Hr : 0 <= d < 16).
  { unfold d. change 15 with (Z.ones 4). rewrite Z.land_ones by lia.
    apply Z.mod_pos_bound. lia. }
  rewrite Z.shiftr_div_pow2 in Hd by lia. change (2 ^ 2) with 4 in Hd.
  assert (Hd' : d = 8 \/ d = 9 \/ d = 10 \/ d = 11).
  { pose proof (Z.div_mod d 4 ltac:(lia)). pose proof (Z.mod_pos_bound d 4 ltac:(lia)).
    lia. }
  destruct Hd' as [-> | [-> | [-> | ->]]]; reflexivity.
Qed.

Lemma str_canonical (u : Uuid.UUID) :
  Z.land (Z.shiftr u 76) 15 = 5 -> Z.land (Z.shiftr u 62) 3 = 2 ->
  canonical_uuid5 (Uuid.str u) = true.
Proof.
  intros Hver Hvar. apply version_digit in Hver. apply variant_digit in Hvar.
  pose proof (hex_chars 32 u) as Hhex. pose proof (hex_length 32 u) as Hlen.
  unfold Uuid.str. revert Hver Hvar Hhex Hlen.
  generalize (Uuid.hex 32 u). intros h.
  destruct h as [|? h]; [discriminate|].
  do 31 (destruct h as [|? h]; [discriminate|]).
  destruct h; [|discriminate].
  cbn [nth]. intros -> Hvar Hhex _.
  cbn [forallb] in Hhex.
  repeat match type of Hhex with
         | _ && _ = true => let H := fresh in apply andb_true_iff in Hhex as [H Hhex]
         end.
  unfold canonical_uuid5. cbn -[is_hex_char Z.eqb].
  repeat match goal with
         | H : is_hex_char _ = true |- _ => rewrite H; clear H
         end.
  cbn [existsb] in Hvar. rewrite Hvar. reflexivity.
Qed.

Lemma uuid5_canonical (ns : Uuid.UUID) (name : pystr) (u : Uuid.UUID) :
  Uuid.uuid5 ns name = Ok u -> canonical_uuid5 (Uuid.str u) = true.
Proof.
  unfold Uuid.uuid5. destruct (utf8 name) as [b|]; [|discriminate].
  intros H.
  replace u with (Uuid.of_bytes (firstn 16 (Sha1.digest (Uuid.bytes ns ++ b))) 5)
    by congruence.
  apply str_canonical; [apply of_bytes_version|apply of_bytes_variant].
Qed.

Lemma utf8_char_scalar (c : Z) : utf8_char c <> None <-> is_scalar_value c = true.
Proof.
  unfold utf8_char, is_scalar_value.
  destruct (c <? 0) eqn:E0; [apply Z.ltb_lt in E0|apply Z.ltb_ge in E0].
  - replace (0 <=? c) with false by (symmetry; apply Z.leb_gt; lia). simpl.
    split; [congruence|discriminate].
  - replace (0 <=? c) with true by (symmetry; apply Z.leb_le; lia).
    destruct (c <? 128) eqn:E1; [apply Z.ltb_lt in E1|apply Z.ltb_ge in E1].
    { replace (c <=? 1114111) with true by (symmetry; apply Z.leb_le; lia).
      replace (55296 <=? c) with false by (symmetry; apply Z.leb_gt; lia).
      simpl. split; [reflexivity|discriminate]. }
    destruct (c <? 2048) eqn:E2; [apply Z.ltb_lt in E2|apply Z.ltb_ge in E2].
    { replace (c <=? 1114111) with true by (symmetry; apply Z.leb_le; lia).
      replace (55296 <=? c) with false by (symmetry; apply Z.leb_gt; lia).
      simpl. split; [reflexivity|discriminate]. }
    destruct (c <? 65536) eqn:E3; [apply Z.ltb_lt in E3|apply Z.ltb_ge in E3].
    { replace (c <=? 1114111) with true by (symmetry; apply Z.leb_le; lia).
      simpl. destruct ((55296 <=? c) && (c <=? 57343)); simpl.
      - split; [congruence|discriminate].
      - split; [reflexivity|discriminate]. }
    replace ((55296 <=? c) && (c <=? 57343)) with false.
    2:{ symmetry. apply andb_false_iff. right. apply Z.leb_gt. lia. }
    simpl. rewrite andb_true_r.
    destruct (c <=? 1114111); split; try congruence; discriminate.
Qed.

Lemma utf8_encodable (s : pystr) : utf8 s <> None <-> encodable s = true.
Proof.
  induction s as [|c s IH]; simpl.
  - split; [reflexivity|discriminate].
  - pose proof (utf8_char_scalar c) as Hc.
    destruct (utf8_char c) as [b|].
    + destruct (utf8 s) as [bs|].
      * replace (is_scalar_value c) with true by (symmetry; apply Hc; discriminate).
        replace (encodable s) with true by (symmetry; apply IH; discriminate).
        split; [reflexivity|discriminate].
      * replace (encodable s) with false.
        -- rewrite andb_false_r. split; [congruence|discriminate].
        -- destruct (encodable s); [|reflexivity].
           exfalso. now apply (proj2 IH).
    + replace (is_scalar_value c) with false.
      * split; [congruence|discriminate].
      * destruct (is_scalar_value c); [|reflexivity].
        exfalso. now apply (proj2 Hc).
Qed.

Lemma uuid5_encodable (ns : Uuid.UUID) (name : pystr) :
  if encodable name then exists u, Uuid.uuid5 ns name = Ok u
  else Uuid.uuid5 ns name = Raised (Exception "UnicodeEncodeError").
Proof.
  unfold Uuid.uuid5. pose proof (utf8_encodable name) as H.
  destruct (utf8 name) as [b|].
  - replace (encodable name) with true by (symmetry; apply H; discriminate). eauto.
  - replace (encodable name) with false; [reflexivity|].
    destruct (encodable name); [|reflexivity]. exfalso. now apply (proj2 H).
Qed.

Section IdentityExtras.

Variable W : Type.
Variable handle : forall X : Type, Ext X -> W -> X * W.

(** X2. Every id that [get_uuid_for_node] returns is the canonical text form of
    a version-5 UUID: 36 characters, lower-case hexadecimal digits in groups
    of 8, 4, 4, 4 and 12 separated by dashes, the third group starting with
    [5] and the fourth with one of [8 9 a b]. *)
Theorem get_uuid_for_node_canonical (cfg : Config) (t s : pystr) (w : W) (id : pystr) :
  result_of W handle (get_uuid_for_node cfg t s) w = Ok id ->
  canonical_uuid5 id = true.
Proof.
  rewrite get_uuid_for_node_result. unfold nested_uuid5.
  destruct (logger_set_up W handle "Utils" w) as [[]|name]; [|discriminate].
  destruct (Uuid.uuid5 Uuid.NAMESPACE_URL (ICDC_DOMAIN cfg)) as [base|e];
    cbn [result_bind]; [|discriminate].
  destruct (Uuid.uuid5 base t) as [ty|e]; cbn [result_bind]; [|discriminate].
  destruct (Uuid.uuid5 ty s) as [u|e] eqn:Hu; cbn [result_bind]; [|discriminate].
  intros [= <-]. exact (uuid5_canonical _ _ _ Hu).
Qed.

(** X3. [get_uuid_for_node] returns an id exactly when its logger set-up
    returns and the domain, the node type and the signature can be encoded
    in UTF-8, that is, hold no surrogate code point; it then has logged the
    id it returns.  When the set-up raises, the call raises the same
    exception and makes no other call; otherwise it raises
    [UnicodeEncodeError] and logs nothing. *)
Theorem get_uuid_for_node_needs_encodable (cfg : Config) (t s : pystr) (w : W) :
  match logger_set_up W handle "Utils" w with
  | Fails name =>
      result_of W handle (get_uuid_for_node cfg t s) w = Raised (Exception name)
      /\ trace_of W handle (get_uuid_for_node cfg t s) w
         = [event (GetLogger "Utils") (Fails name)]
  | Returns _ =>
      if encodable (ICDC_DOMAIN cfg) && encodable t && encodable s then
        exists id,
          result_of W handle (get_uuid_for_node cfg t s) w = Ok id
          /\ trace_of W handle (get_uuid_for_node cfg t s) w
             = [event (GetLogger "Utils") (Returns tt);
                event (Log "Utils" debug (MsgStr (lit "Node UUID: " ++ id))) tt]
      else
        result_of W handle (get_uuid_for_node cfg t s) w
        = Raised (Exception "UnicodeEncodeError")
        /\ trace_of W handle (get_uuid_for_node cfg t s) w
           = [event (GetLogger "Utils") (Returns tt)]
  end.
Proof.
  unfold result_of, trace_of, get_uuid_for_node, get_logger, log_str, call, call_resp,
    logger_set_up.
  cbn [bind run].
  destruct (handle (Resp unit) (GetLogger "Utils") w) as [[[]|name] w1];
    cbn [bind run fst snd]; [|split; reflexivity].
  pose proof (uuid5_encodable Uuid.NAMESPACE_URL (ICDC_DOMAIN cfg)) as H1.
  destruct (encodable (ICDC_DOMAIN cfg)).
  2:{ rewrite H1. cbn. split; reflexivity. }
  destruct H1 as [base ->]. cbn [lift bind run andb].
  pose proof (uuid5_encodable base t) as H2.
  destruct (encodable t).
  2:{ rewrite H2. cbn. split; reflexivity. }
  destruct H2 as [ty ->]. cbn [lift bind run andb].
  pose proof (uuid5_encodable ty s) as H3.
  destruct (encodable s).
  2:{ rewrite H3. cbn. split; reflexivity. }
  destruct H3 as [u ->]. cbn [lift bind run andb].
  destruct (handle unit _ w1) as [[] w2]. cbn [fst snd].
  exists (Uuid.str u). split; reflexivity.
Qed.

End IdentityExtras.

Lemma get_uuid_for_node_canonical_witness :
  canonical_uuid5 (lit "39cf0f7d-d374-5c1d-ba78-b7603635b64d") = true.
Proof.
  apply (get_uuid_for_node_canonical unit (answer sample_answers) sample_config
           (lit "case") (lit "C1") tt).
  vm_compute. reflexivity.
Defined.

(** ** The commands of the backup *)

Lemma backup_neo4j_commands_wp (cfg : Config) (backup_dir name : pystr)
    (address : option pystr) (log : string) :
  wp (backup_neo4j cfg backup_dir name address log)
     (fun tr r =>
        exists k v,
          r = Ok v
          /\ commands_run tr = firstn k (backup_commands backup_dir name address)
          /\ (v <> None ->
              k = 2%nat /\ existsb command_raised tr = false /\ truthy v = true)
          /\ (v = None ->
              (address = None
               /\ tr = [event (Log log exception (MsgExn (Exception "TypeError"))) tt])
              \/ exists pre cmd e,
                   tr = pre ++ [event (SubprocessCall cmd) (Fails e);
                                event (Log log exception (MsgExn (Exception e))) tt])
          /\ (address = None -> v = None)
          /\ (existsb command_raised tr = false -> address <> None -> v <> None)).
Proof.
  unfold backup_neo4j, backup_commands. wp_open.
  destruct (is_local address) eqn:Hloc.
  - assert (Ha : address <> None) by (intros ->; discriminate).
    wp_auto.
    + exists 2%nat. eexists. split; [reflexivity|]. split; [reflexivity|].
      split; [repeat split; reflexivity|]. split; [discriminate|].
      split; [contradiction|discriminate].
    + exists 2%nat. eexists. split; [reflexivity|]. split; [reflexivity|].
      split; [intros H; now contradiction H|]. split; [|split; [contradiction|discriminate]].
      intros _. right. repeat match goal with u : unit |- _ => destruct u end. eexists [_; _; _], _, _. reflexivity.
    + exists 1%nat. eexists. split; [reflexivity|]. split; [reflexivity|].
      split; [intros H; now contradiction H|]. split; [|split; [contradiction|discriminate]].
      intros _. right. repeat match goal with u : unit |- _ => destruct u end. eexists [_], _, _. reflexivity.
  - destruct address as [a|].
    + wp_auto.
      * exists 2%nat. eexists. split; [reflexivity|]. split; [reflexivity|].
        split; [repeat split; reflexivity|]. split; [discriminate|].
        split; discriminate.
      * exists 2%nat. eexists. split; [reflexivity|]. split; [reflexivity|].
        split; [intros H; now contradiction H|]. split; [|split; discriminate].
        intros _. right. repeat match goal with u : unit |- _ => destruct u end. eexists [_; _; _], _, _. reflexivity.
      * exists 1%nat. eexists. split; [reflexivity|]. split; [reflexivity|].
        split; [intros H; now contradiction H|]. split; [|split; discriminate].
        intros _. right. repeat match goal with u : unit |- _ => destruct u end. eexists [_], _, _. reflexivity.
    + wp_auto. exists 0%nat. eexists. split; [reflexivity|]. split; [reflexivity|].
      split; [intros H; now contradiction H|]. split; [|split; [reflexivity|]].
      * intros _. left. destruct x. split; reflexivity.
      * intros _ H. now contradiction H.
Qed.

Lemma backup_neo4j_hint_wp (cfg : Config) (backup_dir name : pystr)
    (address : option pystr) (log : string) :
  wp (backup_neo4j cfg backup_dir name address log)
     (fun _ r =>
        forall hint, r = Ok (Some hint) ->
          exists pre post,
            hint = pre ++ lit "neo4j-admin restore --from=" ++ BACKUP_FOLDER cfg
                   ++ lit "/" ++ name ++ lit " --force" ++ post).
Proof.
  unfold backup_neo4j. wp_open.
  destruct (is_local address) eqn:Hloc.
  - wp_auto; try discriminate.
    match goal with H : Ok _ = Ok _ |- _ => injection H as <- end.
    exists ((lit "To restore DB from backup (to remove any changes caused by current data loading, run following commands:"
             ++ [NEWLINE]) ++ repeat 35 160 ++ [NEWLINE] ++ [TAB]
            ++ lit "$ neo4j stop && "),
           (lit " && neo4j start" ++ [NEWLINE] ++ repeat 35 160).
    simpl. repeat (rewrite <- app_assoc; simpl). reflexivity.
  - destruct address as [a|].
    + wp_auto; try discriminate.
      match goal with H : Ok _ = Ok _ |- _ => injection H as <- end.
      exists ((lit "To restore DB from backup (to remove any changes caused by current data loading, run following commands:"
               ++ [NEWLINE]) ++ repeat 35 160 ++ [NEWLINE] ++ [TAB]
              ++ lit "$ echo " ++ [QUOTE] ++ lit "sudo systemctl stop neo4j && "),
             (lit " && sudo systemctl start neo4j && exit" ++ [QUOTE]
              ++ lit " | ssh -t " ++ a ++ lit " sudo su - neo4j" ++ [NEWLINE]
              ++ repeat 35 160).
      simpl. repeat (rewrite <- app_assoc; simpl). reflexivity.
    + wp_auto. discriminate.
Qed.

Lemma commands_run_app (a b : list Event) :
  commands_run (a ++ b) = commands_run a ++ commands_run b.
Proof.
  induction a as [|ev a IH]; simpl; [reflexivity|].
  destruct (subprocess_cmd (op_of ev)); simpl; now rewrite IH.
Qed.

Section BackupExtras.

Variable W : Type.
Variable handle : forall X : Type, Ext X -> W -> X * W.

(** X4. Without a host ([urlparse] found none in the URI) [backup_neo4j] runs
    no command: joining the remote command raises [TypeError], which is
    logged, and the answer is [False]. *)
Theorem backup_neo4j_without_host
    (cfg : Config) (backup_dir name : pystr) (log : string) (w : W) :
  result_of W handle (backup_neo4j cfg backup_dir name None log) w = Ok None
  /\ trace_of W handle (backup_neo4j cfg backup_dir name None log) w
     = [event (Log log exception (MsgExn (Exception "TypeError"))) tt].
Proof.
  destruct (wp_sound W handle _ _ w
              (backup_neo4j_commands_wp cfg backup_dir name None log))
    as (k & v & Hr & Hc & _ & Hnone & Hv & _).
  rewrite (Hv eq_refl) in Hr. split; [exact Hr|].
  destruct (Hnone (Hv eq_refl)) as [[_ Htr]|(pre & cmd & e & Htr)]; [exact Htr|].
  exfalso. rewrite Htr, commands_run_app in Hc.
  unfold backup_commands in Hc. simpl in Hc. rewrite firstn_nil in Hc.
  now apply app_eq_nil in Hc as [_ Hc].
Qed.

(** X5. [backup_neo4j] never raises.  The commands it runs are, in order,
    [mkdir -p] of the backup directory and [neo4j-admin backup], each
    through [ssh] unless the host is local, and it stops at the first that
    raises, logging that exception; it hands back a restore hint only when
    both were run and neither raised. *)
Theorem backup_neo4j_commands_in_order
    (cfg : Config) (backup_dir name : pystr) (address : option pystr)
    (log : string) (w : W) :
  let tr := trace_of W handle (backup_neo4j cfg backup_dir name address log) w in
  exists k v,
    result_of W handle (backup_neo4j cfg backup_dir name address log) w = Ok v
    /\ commands_run tr = firstn k (backup_commands backup_dir name address)
    /\ (v <> None ->
        commands_run tr = backup_commands backup_dir name address
        /\ existsb command_raised tr = false)
    /\ (v = None -> address <> None ->
        exists pre cmd e,
          tr = pre ++ [event (SubprocessCall cmd) (Fails e);
                       event (Log log exception (MsgExn (Exception e))) tt]).
Proof.
  cbv zeta.
  destruct (wp_sound W handle _ _ w
              (backup_neo4j_commands_wp cfg backup_dir name address log))
    as (k & v & Hr & Hc & Hsome & Hnone & Hv & _).
  exists k, v. split; [exact Hr|]. split; [exact Hc|]. split.
  - intros Hne. destruct (Hsome Hne) as (-> & Hno & _). split; [|exact Hno].
    rewrite Hc. apply firstn_all2. unfold backup_commands.
    destruct (is_local address); [simpl; lia|].
    destruct address; simpl; lia.
  - intros Hn Ha. destruct (Hnone Hn) as [[Hx _]|H]; [contradiction|exact H].
Qed.

(** X6. The exit status of the commands is not looked at: on a host, when
    every command returns, whatever its status, both commands are run and
    the answer is a restore hint, which is not empty. *)
Theorem backup_neo4j_ignores_exit_status
    (cfg : Config) (backup_dir name a : pystr) (log : string) (w : W) :
  (forall cmd w', exists code, fst (handle _ (SubprocessCall cmd) w') = Returns code) ->
  commands_run (trace_of W handle (backup_neo4j cfg backup_dir name (Some a) log) w)
  = backup_commands backup_dir name (Some a)
  /\ exists hint,
       result_of W handle (backup_neo4j cfg backup_dir name (Some a) log) w
       = Ok (Some hint)
       /\ truthy (Some hint) = true.
Proof.
  intros Hret.
  assert (Hno : existsb command_raised
                  (trace_of W handle (backup_neo4j cfg backup_dir name (Some a) log) w)
                = false).
  { apply never_answered. intros X op w'. destruct op; try reflexivity.
    unfold command_raised. simpl. destruct (Hret cmd w') as [code ->]. reflexivity. }
  destruct (wp_sound W handle _ _ w
              (backup_neo4j_commands_wp cfg backup_dir name (Some a) log))
    as (k & v & Hr & Hc & Hsome & _ & _ & Hv).
  assert (Hne : v <> None) by (apply Hv; [exact Hno|discriminate]).
  destruct (Hsome Hne) as (-> & _ & Htruthy). split.
  - rewrite Hc. apply firstn_all2. unfold backup_commands.
    destruct (is_local (Some a)); simpl; lia.
  - destruct v as [hint|]; [|contradiction]. exists hint. split; [exact Hr|exact Htruthy].
Qed.

(** X7. The restore hint restores from the configured backup folder and the
    name of the backup. *)
Theorem backup_neo4j_hint_names_backup
    (cfg : Config) (backup_dir name : pystr) (address : option pystr)
    (log : string) (w : W) (hint : pystr) :
  result_of W handle (backup_neo4j cfg backup_dir name address log) w = Ok (Some hint) ->
  exists pre post,
    hint = pre ++ lit "neo4j-admin restore --from=" ++ BACKUP_FOLDER cfg
           ++ lit "/" ++ name ++ lit " --force" ++ post.
Proof.
  intros Hr.
  exact (wp_sound W handle _ _ w
           (backup_neo4j_hint_wp cfg backup_dir name address log) hint Hr).
Qed.

End BackupExtras.

Lemma backup_neo4j_ignores_exit_status_witness :
  commands_run
    (trace_of unit (answer failing_command_answers)
       (backup_neo4j sample_config (lit "/backups") (lit "20200101-000000")
          (Some (lit "db.example.org")) "Loader") tt)
  = backup_commands (lit "/backups") (lit "20200101-000000") (Some (lit "db.example.org"))
  /\ exists hint,
       result_of unit (answer failing_command_answers)
         (backup_neo4j sample_config (lit "/backups") (lit "20200101-000000")
            (Some (lit "db.example.org")) "Loader") tt
       = Ok (Some hint)
       /\ truthy (Some hint) = true.
Proof.
  apply (backup_neo4j_ignores_exit_status unit (answer failing_command_answers)
           sample_config (lit "/backups") (lit "20200101-000000")
           (lit "db.example.org") "Loader" tt).
  intros cmd w'. exists 1. reflexivity.
Defined.

Lemma backup_neo4j_hint_names_backup_witness :
  exists pre post,
    sample_restore_hint
    = pre ++ lit "neo4j-admin restore --from=" ++ BACKUP_FOLDER sample_config
      ++ lit "/" ++ lit "20200101-000000" ++ lit " --force" ++ post.
Proof.
  apply (backup_neo4j_hint_names_backup unit (answer sample_answers)
           sample_config (lit "/tmp/elsewhere") (lit "20200101-000000")
           (Some (lit "localhost")) "Loader" tt sample_restore_hint).
  vm_compute. reflexivity.
Defined.

(** ** The order of the schema check *)

Lemma check_each_schema_asks (l : list pystr) (log : string) :
  wp (check_each_schema l log)
     (fun tr r =>
        exists ok, r = Ok ok
          /\ (ok = true ->
              isfile_asked tr = map (fun f => (f, true)) l /\ errors_logged tr = [])
          /\ (ok = false ->
              exists pre f post,
                l = pre ++ f :: post
                /\ isfile_asked tr = map (fun g => (g, true)) pre ++ [(f, false)]
                /\ errors_logged tr = [f ++ lit " is not a file"])).
Proof.
  induction l as [|f l IH]; cbn [check_each_schema].
  - cbn. exists true. split; [reflexivity|]. split; [auto|discriminate].
  - cbn [wp bind call log_str]. intros [|].
    + cbn [negb]. eapply wp_mono; [|exact IH]. cbn beta.
      intros tr r (ok & -> & Ht & Hf). exists ok. split; [reflexivity|]. split.
      * intros Hok. destruct (Ht Hok) as [Ha He]. cbn. now rewrite Ha, He.
      * intros Hok. destruct (Hf Hok) as (pre & g & post & -> & Ha & He).
        exists (f :: pre), g, post. cbn. now rewrite Ha, He.
    + cbn. intros []. exists false. split; [reflexivity|]. split; [discriminate|].
      intros _. exists [], f, l. auto.
Qed.

Section SchemaCheckExtras.

Variable W : Type.
Variable handle : forall X : Type, Ext X -> W -> X * W.

(** X8. [check_schema_files] never raises.  It answers [True] exactly when there
    is a schema path and [isfile] was asked about every path, in order, and
    answered yes each time, nothing being logged; otherwise it answers
    [False] with one error logged: for an empty list without asking
    anything, else having asked up to the first path that is not a file and
    no further. *)
Theorem check_schema_files_stops_at_first_missing
    (schemas : list pystr) (log : string) (w : W) :
  let tr := trace_of W handle (check_schema_files schemas log) w in
  exists ok,
    result_of W handle (check_schema_files schemas log) w = Ok ok
    /\ (ok = true ->
        schemas <> []
        /\ isfile_asked tr = map (fun f => (f, true)) schemas
        /\ errors_logged tr = [])
    /\ (ok = false ->
        (schemas = [] /\ isfile_asked tr = []
         /\ errors_logged tr
            = [lit "Please specify schema file(s) with -s or --schema argument"])
        \/ exists pre f post,
             schemas = pre ++ f :: post
             /\ isfile_asked tr = map (fun g => (g, true)) pre ++ [(f, false)]
             /\ errors_logged tr = [f ++ lit " is not a file"]).
Proof.
  cbv zeta. apply (wp_sound W handle (check_schema_files schemas log)
    (fun tr r => exists ok, r = Ok ok
       /\ (ok = true -> schemas <> [] /\ isfile_asked tr = map (fun f => (f, true)) schemas
                        /\ errors_logged tr = [])
       /\ (ok = false ->
           (schemas = [] /\ isfile_asked tr = []
            /\ errors_logged tr
               = [lit "Please specify schema file(s) with -s or --schema argument"])
           \/ exists pre f post,
                schemas = pre ++ f :: post
                /\ isfile_asked tr = map (fun g => (g, true)) pre ++ [(f, false)]
                /\ errors_logged tr = [f ++ lit " is not a file"]))).
  destruct schemas as [|f l].
  - cbn. intros []. exists false. split; [reflexivity|]. split; [discriminate|].
    intros _. left. auto.
  - change (check_schema_files (f :: l) log) with (check_each_schema (f :: l) log).
    eapply wp_mono; [|apply check_each_schema_asks]. cbn beta.
    intros tr r (ok & -> & Ht & Hf). exists ok. split; [reflexivity|]. split.
    + intros Hok. destruct (Ht Hok). split; [discriminate|auto].
    + intros Hok. right. auto.
Qed.

End SchemaCheckExtras.

(** ** The answer to the wipe prompt *)

Lemma lstrip_decompose (s : pystr) :
  exists pre, s = pre ++ lstrip s /\ forallb isspace pre = true.
Proof.
  induction s as [|c s (pre & Hs & Hpre)]; simpl.
  - exists []. auto.
  - destruct (isspace c) eqn:Hc.
    + exists (c :: pre). simpl. rewrite Hc, Hpre. split; [now f_equal|reflexivity].
    + exists []. auto.
Qed.

Lemma lstrip_spaces (pre t : pystr) :
  forallb isspace pre = true -> lstrip (pre ++ t) = lstrip t.
Proof.
  induction pre as [|c pre IH]; simpl; [reflexivity|].
  intros H. apply andb_true_iff in H as [Hc Hpre]. rewrite Hc. auto.
Qed.

Lemma forallb_reverse (P : Z -> bool) (l : list Z) :
  forallb P (rev l) = forallb P l.
Proof.
  induction l as [|c l IH]; simpl; [reflexivity|].
  rewrite forallb_app, IH. simpl. rewrite andb_true_r. apply andb_comm.
Qed.

Lemma strip_decompose_spaces (s : pystr) :
  exists pre post,
    s = pre ++ strip s ++ post
    /\ forallb isspace pre = true /\ forallb isspace post = true.
Proof.
  destruct (lstrip_decompose s) as (pre & Hs & Hpre).
  destruct (lstrip_decompose (rev (lstrip s))) as (post & Hr & Hpost).
  exists pre, (rev post). split; [|split; [exact Hpre|now rewrite forallb_reverse]].
  unfold strip. rewrite <- rev_app_distr, <- Hr, rev_involutive. exact Hs.
Qed.

Lemma strip_between (pre post : pystr) (a b c : Z) :
  forallb isspace pre = true -> forallb isspace post = true ->
  isspace a = false -> isspace c = false ->
  strip (pre ++ [a; b; c] ++ post) = [a; b; c].
Proof.
  intros Hpre Hpost Ha Hc. unfold strip.
  rewrite (lstrip_spaces pre _ Hpre). cbn [app lstrip]. rewrite Ha.
  change (a :: b :: c :: post) with ([a; b; c] ++ post).
  rewrite rev_app_distr, lstrip_spaces by now rewrite forallb_reverse.
  simpl. now rewrite Hc.
Qed.

Lemma strip_blank (s : pystr) : forallb isspace s = true -> strip s = [].
Proof.
  intros H. unfold strip.
  rewrite <- (app_nil_r s), (lstrip_spaces s [] H). reflexivity.
Qed.

Section ConfirmExtras.

Variable ul : pystr -> nat -> pystr.

Lemma lower_ascii_from (full t : pystr) (k : nat) :
  is_ascii t = true ->
  flat_map (fun ic : nat * Z =>
              if snd ic <? 128 then [ascii_lower (snd ic)] else ul full (fst ic))
           (combine (seq k (List.length t)) t)
  = map ascii_lower t.
Proof.
  revert k. induction t as [|c t IH]; intros k H; simpl; [reflexivity|].
  simpl in H. apply andb_true_iff in H as [Hc Ht]. rewrite Hc. simpl.
  now rewrite IH.
Qed.

Lemma lower_ascii (s : pystr) : is_ascii s = true -> lower ul s = map ascii_lower s.
Proof. apply lower_ascii_from. Qed.

Lemma lower_yes (y e z : Z) :
  (y = 89 \/ y = 121) -> (e = 69 \/ e = 101) -> (z = 83 \/ z = 115) ->
  lower ul [y; e; z] = lit "yes".
Proof. intros [-> | ->] [-> | ->] [-> | ->]; reflexivity. Qed.

Lemma ascii_lower_inv (c l : Z) :
  97 <= l <= 122 -> ascii_lower c = l -> c = l - 32 \/ c = l.
Proof.
  unfold ascii_lower. intros Hl.
  destruct ((65 <=? c) && (c <=? 90)) eqn:H; intros <-; lia.
Qed.

Lemma confirm_wipe_db_result (W : Type) (handle : forall X : Type, Ext X -> W -> X * W)
    (s : pystr) (w : W) :
  (forall prompt w', fst (handle _ (Input prompt) w') = Returns s) ->
  result_of W handle (confirm_wipe_db ul) w
  = Ok (pystr_eqb (lower ul (strip s)) (lit "yes")).
Proof.
  intros Hin. unfold result_of, confirm_wipe_db, call, call_resp. cbn [bind run].
  destruct (handle unit _ w) as [[] w1].
  match goal with
  | |- context [handle (Resp pystr) ?op w1] =>
      specialize (Hin _ w1 : fst (handle (Resp pystr) op w1) = Returns s);
      destruct (handle (Resp pystr) op w1) as [x w2]
  end.
  simpl in Hin. subst x. reflexivity.
Qed.

(** X9. When the user types [s] at the prompt, [confirm_wipe_db] answers [True]
    if [s] is [yes] in any letter case between white space; for an ASCII
    [s] it answers [True] only then; and a blank [s] cancels. *)
Theorem confirm_wipe_db_accepts_only_yes
    (W : Type) (handle : forall X : Type, Ext X -> W -> X * W) (s : pystr) (w : W) :
  (forall prompt w', fst (handle _ (Input prompt) w') = Returns s) ->
  exists b,
    result_of W handle (confirm_wipe_db ul) w = Ok b
    /\ (yes_between_spaces s -> b = true)
    /\ (is_ascii s = true -> b = true -> yes_between_spaces s)
    /\ (forallb isspace s = true -> b = false).
Proof.
  intros Hin. eexists. split; [apply (confirm_wipe_db_result _ _ s w Hin)|].
  split; [|split].
  - intros (pre & y & e & z & post & -> & Hpre & Hpost & Hy & He & Hz).
    rewrite strip_between; try assumption.
    + now rewrite (lower_yes y e z Hy He Hz).
    + destruct Hy as [-> | ->]; reflexivity.
    + destruct Hz as [-> | ->]; reflexivity.
  - intros Ha Hb. apply pystr_eqb_eq in Hb.
    destruct (strip_decompose_spaces s) as (pre & post & Hs & Hpre & Hpost).
    assert (Hcore : is_ascii (strip s) = true).
    { unfold is_ascii in *. rewrite Hs, !forallb_app in Ha.
      apply andb_true_iff in Ha as [_ Ha]. now apply andb_true_iff in Ha as [Ha _]. }
    rewrite (lower_ascii _ Hcore) in Hb.
    destruct (strip s) as [|y [|e [|z [|? ?]]]]; try discriminate.
    injection Hb as Hy He Hz.
    apply ascii_lower_inv in Hy, He, Hz; try lia.
    exists pre, y, e, z, post. repeat split; assumption.
  - intros Hblank. now rewrite (strip_blank s Hblank).
Qed.

End ConfirmExtras.

Lemma confirm_wipe_db_accepts_only_yes_witness :
  exists b,
    result_of unit (answer sample_answers) (confirm_wipe_db ascii_lower_only) tt = Ok b
    /\ (yes_between_spaces (lit " YES ") -> b = true)
    /\ (is_ascii (lit " YES ") = true -> b = true -> yes_between_spaces (lit " YES "))
    /\ (forallb isspace (lit " YES ") = true -> b = false).
Proof.
  apply (confirm_wipe_db_accepts_only_yes ascii_lower_only unit (answer sample_answers)
           (lit " YES ") tt).
  intros prompt w'. reflexivity.
Defined.

(** ** The calls of [main] *)

(** A step of a program all of whose calls satisfy [P], after a prefix of
    such calls; [Q] is what the rest of the program needs of the value. *)
Lemma wp_all_step {A B : Type} (P : Event -> Prop) (Q : A -> Prop)
    (p : Prog A) (f : A -> Prog B) (pre : list Event) :
  Forall P pre ->
  wp p (fun tr r => Forall P tr /\ forall a, r = Ok a -> Q a) ->
  (forall pre' a, Forall P pre' -> Q a ->
                  wp (f a) (fun tr _ => Forall P (pre' ++ tr))) ->
  wp (bind p f) (fun tr _ => Forall P (pre ++ tr)).
Proof.
  intros Hpre Hp Hf. apply wp_bind. eapply wp_mono; [|exact Hp]. cbn beta.
  intros tr r [Htr Hq].
  assert (Hall : Forall P (pre ++ tr)) by (apply Forall_app; auto).
  destruct r as [a|e]; [|exact Hall].
  eapply wp_mono; [|exact (Hf _ a Hall (Hq a eq_refl))]. cbn beta.
  intros tr' _. now rewrite app_assoc.
Qed.

Lemma wp_try_except_inv {A : Type} (p : Prog A) (h : Exn -> option (Prog A))
    (post : list Event -> Result A -> Prop) :
  wp (try_except p h) post ->
  wp p (fun tr r => match r with
                    | Ok a => post tr (Ok a)
                    | Raised e =>
                        match h e with
                        | Some q => wp q (fun tr' r' => post (tr ++ tr') r')
                        | None => post tr (Raised e)
                        end
                    end).
Proof.
  revert post. induction p as [a|e|X op k IH]; intros post H; simpl in *.
  - exact H.
  - destruct (h e); exact H.
  - intros x. exact (IH x (fun tr r => post (event op x :: tr) r) (H x)).
Qed.

(** The same step under a handler whose clauses satisfy [P] as well. *)
Lemma wp_all_try_step {A B : Type} (P : Event -> Prop) (Q : A -> Prop)
    (p : Prog A) (f : A -> Prog B) (h : Exn -> option (Prog B)) (pre : list Event) :
  Forall P pre ->
  wp p (fun tr r => Forall P tr /\ forall a, r = Ok a -> Q a) ->
  (forall e q, h e = Some q -> wp q (fun tr _ => Forall P tr)) ->
  (forall pre' a, Forall P pre' -> Q a ->
                  wp (try_except (f a) h) (fun tr _ => Forall P (pre' ++ tr))) ->
  wp (try_except (bind p f) h) (fun tr _ => Forall P (pre ++ tr)).
Proof.
  intros Hpre Hp Hh Hf. apply wp_try_except. apply wp_bind.
  eapply wp_mono; [|exact Hp]. cbn beta. intros tr r [Htr Hq].
  assert (Hall : Forall P (pre ++ tr)) by (apply Forall_app; auto).
  destruct r as [a|e].
  - specialize (Hf _ a Hall (Hq a eq_refl)). apply wp_try_except_inv in Hf.
    eapply wp_mono; [|exact Hf]. cbn beta. intros tr' [b|e].
    + now rewrite app_assoc.
    + destruct (h e) as [q|].
      * intros Hw. eapply wp_mono; [|exact Hw]. cbn beta. intros tr'' _.
        now rewrite !app_assoc.
      * now rewrite app_assoc.
  - destruct (h e) as [q|] eqn:He; [|exact Hall].
    eapply wp_mono; [|exact (Hh e q He)]. cbn beta.
    intros tr' _ Htr'. rewrite app_assoc. apply Forall_app. auto.
Qed.

Lemma check_each_schema_asks_about (l : list pystr) (log : string) :
  wp (check_each_schema l log) (fun tr r => Forall (asks_about l) tr /\ exists b, r = Ok b).
Proof.
  induction l as [|f l IH]; cbn [check_each_schema].
  - cbn. split; [constructor|eauto].
  - cbn [wp bind call log_str]. intros [|].
    + cbn [negb]. eapply wp_mono; [|exact IH]. cbn beta.
      intros tr r [Hall Hr]. split; [|exact Hr]. constructor.
      * left. reflexivity.
      * eapply Forall_impl; [|exact Hall]. intros [X [op x]].
        unfold asks_about, op_of. simpl. destruct op; auto.
    + cbn. intros []. split; [|eauto]. constructor; [left; reflexivity|].
      constructor; [exact I|constructor].
Qed.

Lemma check_schema_files_asks_about (l : list pystr) (log : string) :
  wp (check_schema_files l log)
     (fun tr r => Forall (asks_about l) tr /\ exists b, r = Ok b).
Proof.
  destruct l as [|f l].
  - cbn. intros []. split; [|eauto]. repeat constructor.
  - apply (check_each_schema_asks_about (f :: l)).
Qed.

(** A step of a program, after a prefix [pre] of its trace: [C] is what the
    rest of the program is told about the trace so far and the value. *)
Lemma wp_seq {A B : Type} (C : list Event -> A -> Prop)
    (post : list Event -> Result B -> Prop)
    (p : Prog A) (f : A -> Prog B) (pre : list Event) :
  wp p (fun tr r => match r with
                    | Ok a => C (pre ++ tr) a
                    | Raised e => post (pre ++ tr) (Raised e)
                    end) ->
  (forall pre' a, C pre' a -> wp (f a) (fun tr r => post (pre' ++ tr) r)) ->
  wp (bind p f) (fun tr r => post (pre ++ tr) r).
Proof.
  intros Hp Hf. apply wp_bind. eapply wp_mono; [|exact Hp]. cbn beta.
  intros tr [a|e] H; [|exact H].
  eapply wp_mono; [|exact (Hf _ a H)]. cbn beta. intros tr' r'. now rewrite app_assoc.
Qed.

Lemma wp_try_seq {A B : Type} (C : list Event -> A -> Prop)
    (post : list Event -> Result B -> Prop)
    (p : Prog A) (f : A -> Prog B) (h : Exn -> option (Prog B)) (pre : list Event) :
  wp p (fun tr r => match r with
                    | Ok a => C (pre ++ tr) a
                    | Raised e =>
                        match h e with
                        | Some q => wp q (fun tr' r' => post (pre ++ tr ++ tr') r')
                        | None => post (pre ++ tr) (Raised e)
                        end
                    end) ->
  (forall pre' a, C pre' a ->
                  wp (try_except (f a) h) (fun tr r => post (pre' ++ tr) r)) ->
  wp (try_except (bind p f) h) (fun tr r => post (pre ++ tr) r).
Proof.
  intros Hp Hf. apply wp_try_except. apply wp_bind.
  eapply wp_mono; [|exact Hp]. cbn beta. intros tr [a|e] H.
  - specialize (Hf _ a H). apply wp_try_except_inv in Hf.
    eapply wp_mono; [|exact Hf]. cbn beta. intros tr' [b|e].
    + now rewrite app_assoc.
    + destruct (h e) as [q|].
      * intros Hw. eapply wp_mono; [|exact Hw]. cbn beta. intros tr'' r''.
        now rewrite !app_assoc.
      * now rewrite app_assoc.
  - destruct (h e) as [q|]; [|exact H].
    eapply wp_mono; [|exact H]. cbn beta. intros tr' r'. now rewrite app_assoc.
Qed.

Section Calls.

Variable ua : Z -> bool.
Variable ul : pystr -> nat -> pystr.
Variable cfg : Config.
Variable args : Args.

Lemma asks_about_expected (ev : Event) : asks_about (schema args) ev -> startup_call ua args ev.
Proof.
  destruct ev as [X [op x]].
  unfold asks_about, startup_call, expected_call, allowed_by_flags, passes_arguments, driver_password, op_of.
  simpl. destruct op; try contradiction; auto.
Qed.

Lemma backup_expected (pw : pystr) (ev : Event) :
  no_backup args = false -> dry_run args = false -> backup_event ev = true -> driver_call ua args pw ev.
Proof.
  intros Hnb Hdry.
  destruct ev as [X [op x]].
  unfold backup_event, driver_call, expected_call, allowed_by_flags, passes_arguments, driver_password, op_of.
  simpl. destruct op; try discriminate; repeat split; auto; discriminate.
Qed.

Lemma startup_calls (pw : pystr) (ev : Event) :
  startup_call ua args ev -> driver_call ua args pw ev.
Proof. intros [HP Hd]. split; [exact HP|]. intros pw'. rewrite Hd. discriminate. Qed.

Lemma startup_calls_post (tr : list Event) : Forall (startup_call ua args) tr -> calls_post ua args tr.
Proof.
  intros H. split.
  - eapply Forall_impl; [|exact H]. now intros ev [HP _].
  - eapply Forall_impl; [|exact H]. intros ev [_ Hd]. unfold password_from.
    now rewrite Hd.
Qed.

Lemma driver_calls_post (pw : pystr) (pre tr : list Event) :
  Forall (startup_call ua args) pre ->
  (if truthy (password args) then pw = the (password args)
   else In (event (EnvironGet PSWD_ENV) (Some pw)) pre) ->
  Forall (driver_call ua args pw) tr -> calls_post ua args (pre ++ tr).
Proof.
  intros Hpre Hpw Htr. split.
  - apply Forall_app. split.
    + eapply Forall_impl; [|exact Hpre]. now intros ev [HP _].
    + eapply Forall_impl; [|exact Htr]. now intros ev [HP _].
  - apply Forall_app. split.
    + eapply Forall_impl; [|exact Hpre]. intros ev [_ Hd]. unfold password_from.
      now rewrite Hd.
    + eapply Forall_impl; [|exact Htr]. intros ev [_ Hd]. unfold password_from.
      destruct (driver_password ev) as [pw'|]; [|exact I].
      rewrite (Hd pw' eq_refl).
      destruct (truthy (password args)); [exact Hpw|].
      apply in_or_app. now left.
Qed.

Ltac expected :=
  unfold startup_call, driver_call, expected_call, allowed_by_flags, passes_arguments,
    driver_password, op_of, event;
  cbn [projT1 projT2 fst snd];
  repeat split; negb_hyps; auto; try discriminate; try congruence.

Ltac all_expected :=
  repeat first [ apply Forall_nil | apply Forall_cons; [expected|] ].

(** A block of the start of the program: every path, every call. *)
Ltac startup_block :=
  wp_open; wp_auto;
  first [ apply startup_calls_post | idtac ];
  (apply Forall_app; split; [assumption|all_expected]).

Ltac startup_step :=
  lazymatch goal with
  | Hpre : Forall (startup_call ua args) ?pre |- wp (bind _ _) _ =>
      apply (wp_seq (fun pre' _ => Forall (startup_call ua args) pre')
                    (fun tr _ => calls_post ua args tr) _ _ pre);
      [ startup_block | clear dependent pre; intros pre ? Hpre ]
  end.

(** A block of the rest of the program. *)
Ltac wp_block :=
  wp_open; wp_auto;
  (split; [all_expected | try (intros ? [= <-]); try discriminate; auto]).

Ltac wp_all pw :=
  lazymatch goal with
  | Hpre : Forall (driver_call ua args pw) ?pre |- wp (bind _ _) _ =>
      apply (wp_all_step (driver_call ua args pw) (fun _ => True) _ _ pre Hpre);
      [ | clear dependent pre; intros pre ? Hpre _ ]
  | Hpre : Forall (driver_call ua args pw) ?pre |- wp (try_except (bind _ _) _) _ =>
      apply (wp_all_try_step (driver_call ua args pw) (fun _ => True) _ _ _ pre Hpre);
      [ | intros ? ? ?;
          repeat match goal with
            | H : match ?e with _ => _ end = Some _ |- _ => destruct e; try discriminate H
            end;
          match goal with
          | H : Some _ = Some _ |- _ => injection H as <-
          end;
          wp_open; wp_auto; all_expected
        | clear dependent pre; intros pre ? Hpre _ ]
  end.

Lemma main_calls_wp : wp (main ua ul cfg args) (fun tr _ => calls_post ua args tr).
Proof.
  pose (pre := @nil Event).
  assert (Hpre : Forall (startup_call ua args) pre) by constructor.
  change (wp (main ua ul cfg args) (fun tr _ => calls_post ua args (pre ++ tr))).
  clearbody pre. unfold main.
  do 5 startup_step.
  apply (wp_seq (fun pre' pw =>
                   Forall (startup_call ua args) pre'
                   /\ (if truthy (password args) then pw = the (password args)
                       else In (event (EnvironGet PSWD_ENV) (Some pw)) pre'))
                (fun tr _ => calls_post ua args tr) _ _ pre).
  { wp_open. wp_auto.
    - split; [apply Forall_app; split; [assumption|all_expected]|].
      negb_hyps. rewrite Heqb. apply in_or_app. right. now left.
    - apply startup_calls_post. apply Forall_app; split; [assumption|all_expected].
    - rewrite app_nil_r. split; [assumption|]. negb_hyps. now rewrite Heqb. }
  clear dependent pre. intros pre pw [Hpre Hpw].
  eapply wp_mono; [intros tr r Htr; exact (driver_calls_post pw pre tr Hpre Hpw Htr)|].
  clear dependent pre.
  pose (pre := @nil Event).
  assert (Hpre : Forall (driver_call ua args pw) pre) by constructor.
  lazymatch goal with
  | |- wp ?m _ => change (wp m (fun tr _ => Forall (driver_call ua args pw) (pre ++ tr)))
  end.
  clearbody pre.
  wp_all pw.
  { eapply wp_mono; [|apply check_schema_files_asks_about]. cbn beta.
    intros tr r [Hall _]. split; [|auto].
    eapply Forall_impl; [|exact Hall]. intros ev Hev.
    apply startup_calls, asks_about_expected, Hev. }
  wp_all pw; [wp_block|].
  wp_all pw; [wp_block|].
  match goal with a : list pystr |- _ => destruct a as [|file files] end.
  { wp_open. wp_auto. apply Forall_app. split; [assumption|all_expected]. }
  wp_all pw; [wp_block|].
  wp_all pw; [wp_block|].
  wp_all pw.
  { destruct (negb (no_backup args) && negb (dry_run args)) eqn:Hb.
    - apply andb_true_iff in Hb as [Hnb Hdry]. negb_hyps.
      apply wp_bind. eapply wp_mono; [|apply backup_neo4j_wp]. cbn beta.
      intros tr r (Hall & v & -> & _).
      assert (Forall (driver_call ua args pw) tr).
      { apply Forall_forall. intros ev Hin. rewrite forallb_forall in Hall.
        apply backup_expected; auto. }
      wp_open. wp_auto.
      all: split; [rewrite ?Forall_app; repeat split; try assumption; all_expected|auto].
    - wp_block. }
  wp_all pw; [wp_block|].
  wp_all pw.
  { wp_open. wp_auto.
    all: split; [all_expected | auto]. }
  wp_all pw; [wp_block|].
  wp_all pw.
  { unfold confirm_wipe_db. wp_open. wp_auto.
    all: split; [all_expected | auto]. }
  wp_all pw; [wp_block|].
  wp_all pw; [wp_block|].
  wp_open. wp_auto.
  all: rewrite ?app_nil_r; try assumption.
  all: apply Forall_app; split; [assumption|all_expected].
Qed.

Variable W : Type.
Variable handle : forall X : Type, Ext X -> W -> X * W.

(** X10. In every run of [main], whatever the collaborators answer: a command
    is run only when neither [--no-backup] nor [--dry-run] is given; the
    user is prompted only with [--wipe-db]; the data directory is probed
    for existence or created, and S3 is used, only with [--s3-folder]; and
    the environment is read only for [NEO_PASSWORD] and only when no
    password is given on the command line. *)
Theorem main_side_effects_need_flags (w : W) :
  Forall (allowed_by_flags args) (trace_of W handle (main ua ul cfg args) w).
Proof.
  destruct (wp_sound W handle _ _ w main_calls_wp) as [H _].
  eapply Forall_impl; [|exact H]. now intros ev [Hf _].
Qed.

(** X11. In every run of [main] the calls get the arguments of the command
    line: the file system is asked about the data directory and the schema
    files only, the files listed are those of the data directory, the
    bucket and the S3 folder are the ones given, the schema is built from
    the schema files given, the driver is created for the URI given, or
    [bolt://localhost:7687], without trailing slashes, and for the user
    given, or [neo4j], and [load] gets a file list that is not empty and
    the flags, the mode and the violation limit as given. *)
Theorem main_passes_arguments (w : W) :
  Forall (passes_arguments ua args) (trace_of W handle (main ua ul cfg args) w).
Proof.
  destruct (wp_sound W handle _ _ w main_calls_wp) as [H _].
  eapply Forall_impl; [|exact H]. now intros ev [_ Hp].
Qed.

(** X12. In every run of [main] a driver is created with the password given on
    the command line, if one is given, and otherwise with the value that
    the environment gave for [NEO_PASSWORD] earlier in the run. *)
Theorem main_password_source (w : W) :
  Forall (password_from args (trace_of W handle (main ua ul cfg args) w))
         (trace_of W handle (main ua ul cfg args) w).
Proof. exact (proj2 (wp_sound W handle _ _ w main_calls_wp)). Qed.

End Calls.

(** ** How a run ends *)

Lemma ends_with_one (G : Event -> Prop) (ev : Event) : G ev -> ends_with G [ev].
Proof. intros H. exists [], ev. auto. Qed.

Lemma ends_with_more (G : Event -> Prop) (x : Event) (l : list Event) :
  ends_with G l -> ends_with G (x :: l).
Proof. intros (pre & ev & -> & H). exists (x :: pre), ev. auto. Qed.

Lemma ends_with_after (G : Event -> Prop) (l1 l2 : list Event) :
  ends_with G l2 -> ends_with G (l1 ++ l2).
Proof.
  intros (pre & ev & -> & H). exists (l1 ++ pre), ev. now rewrite app_assoc.
Qed.

Lemma check_each_schema_ends (l : list pystr) (log : string) :
  wp (check_each_schema l log)
     (fun tr r => exists ok, r = Ok ok
        /\ (ok = false -> ends_with (fun ev => is_error_log ev = true) tr)).
Proof.
  induction l as [|f l IH]; cbn [check_each_schema].
  - cbn. exists true. split; [reflexivity|discriminate].
  - cbn [wp bind call log_str]. intros [|].
    + cbn [negb]. eapply wp_mono; [|exact IH]. cbn beta.
      intros tr r (ok & -> & H). exists ok. split; [reflexivity|].
      intros Hok. apply ends_with_more. auto.
    + cbn. intros []. exists false. split; [reflexivity|]. intros _.
      apply ends_with_more, ends_with_one. reflexivity.
Qed.

Lemma check_schema_files_ends (l : list pystr) (log : string) :
  wp (check_schema_files l log)
     (fun tr r => exists ok, r = Ok ok
        /\ (ok = false -> ends_with (fun ev => is_error_log ev = true) tr)).
Proof.
  destruct l as [|f l].
  - cbn. intros []. exists false. split; [reflexivity|]. intros _.
    apply ends_with_one. reflexivity.
  - apply (check_each_schema_ends (f :: l)).
Qed.

Section Ending.

Variable ua : Z -> bool.
Variable ul : pystr -> nat -> pystr.
Variable cfg : Config.
Variable args : Args.

Ltac last_call :=
  repeat first [ apply ends_with_one | apply ends_with_more | apply ends_with_after ];
  unfold caused, is_error_log, refused, input_of, answered, op_of, event;
  cbn [projT1 projT2 fst snd raised_by resp_exn neo_exn input_answer];
  try right;
  repeat split; negb_hyps; auto; try (apply negb_true_iff; assumption).

Ltac ending :=
  unfold ends_by;
  (split; [discriminate | first [exact I | last_call]]).

Ltac ends_step :=
  lazymatch goal with
  | |- wp (bind _ _) (fun tr r => (ends_by ul) (?pre ++ tr) r) =>
      apply (wp_seq (fun _ _ => True) (ends_by ul) _ _ pre);
      [ wp_open; wp_auto; first [exact I | ending]
      | clear dependent pre; intros pre ? _ ]
  | |- wp (try_except (bind _ _) _) (fun tr r => (ends_by ul) (?pre ++ tr) r) =>
      apply (wp_try_seq (fun _ _ => True) (ends_by ul) _ _ _ pre);
      [ wp_open; wp_auto; first [exact I | ending]
      | clear dependent pre; intros pre ? _ ]
  end.

Lemma main_ends_wp : wp (main ua ul cfg args) (ends_by ul).
Proof.
  pose (pre := @nil Event).
  change (wp (main ua ul cfg args) (fun tr r => (ends_by ul) (pre ++ tr) r)).
  clearbody pre. unfold main.
  do 6 ends_step.
  apply (wp_seq (fun pre' ok =>
                   ok = false -> ends_with (fun ev => is_error_log ev = true) pre')
                (ends_by ul) _ _ pre).
  { eapply wp_mono; [|apply check_schema_files_ends]. cbn beta.
    intros tr r (ok & -> & H). intros Hok. apply ends_with_after. auto. }
  clear dependent pre. intros pre ok Hok.
  apply (wp_seq (fun _ _ => True) (ends_by ul) _ _ pre).
  { destruct ok; wp_open; wp_auto; [exact I|].
    rewrite app_nil_r. split; [discriminate|].
    destruct (Hok eq_refl) as (p & ev & -> & Hev). exists p, ev. split; [reflexivity|].
    right. split; [reflexivity|exact Hev]. }
  clear dependent pre. intros pre ? _.
  ends_step.
  match goal with a : list pystr |- _ => destruct a as [|file files] end.
  { wp_open. wp_auto. ending. }
  do 2 ends_step.
  apply (wp_try_seq (fun _ _ => True) (ends_by ul) _ _ _ pre).
  { destruct (negb (no_backup args) && negb (dry_run args)).
    - apply wp_bind. eapply wp_mono; [|apply backup_neo4j_wp]. cbn beta.
      intros tr r (_ & v & -> & _). wp_open. wp_auto; first [exact I | ending].
    - wp_open. wp_auto. exact I. }
  clear dependent pre. intros pre ? _.
  ends_step.
  ends_step.
  ends_step.
  apply (wp_try_seq (fun _ _ => True) (ends_by ul) _ _ _ pre).
  { unfold confirm_wipe_db. wp_open. wp_auto; first [exact I | ending]. }
  clear dependent pre. intros pre ? _.
  ends_step.
  ends_step.
  wp_open. wp_auto; ending.
Qed.

End Ending.

Section EndingFromCommandLine.

Variable ua : Z -> bool.
Variable ul : pystr -> nat -> pystr.
Variable cfg : Config.

Lemma main_from_command_line_ends_wp : wp (main_from_command_line ua ul cfg) (ends_by ul).
Proof.
  unfold main_from_command_line. cbn [wp bind call]. intros [args|code]; cbn [bind].
  - eapply wp_mono; [|apply main_ends_wp]. cbn beta. intros tr r [Hne H].
    split; [exact Hne|]. destruct r as [u|e]; [exact I|]. now apply ends_with_more.
  - cbn. split; [discriminate|]. apply ends_with_one. left. reflexivity.
Qed.

Variable W : Type.
Variable handle : forall X : Type, Ext X -> W -> X * W.

(** X13. How a run of [main] ends, from the parsing of the command line on.
    [ServiceUnavailable] never escapes.  When [argparse] ends the run, it
    ends with the status of [argparse] and without another call.  Every
    other exit with a status has status 1 and comes right after an error
    was logged; an exit without status comes right after an input that does
    not confirm the wipe; and a run that raises any other exception raises
    the one that its last call raised. *)
Theorem main_ends_after_its_cause (w : W) :
  result_of W handle (main_from_command_line ua ul cfg) w <> Raised ServiceUnavailable
  /\ match result_of W handle (main_from_command_line ua ul cfg) w with
     | Ok _ => True
     | Raised e =>
         ends_with (caused ul e) (trace_of W handle (main_from_command_line ua ul cfg) w)
     end
  /\ forall code,
       fst (handle _ ParseArgs w) = ParseExit code ->
       result_of W handle (main_from_command_line ua ul cfg) w
       = Raised (SystemExit (Some code))
       /\ trace_of W handle (main_from_command_line ua ul cfg) w
          = [event ParseArgs (ParseExit code)].
Proof.
  destruct (wp_sound W handle _ _ w main_from_command_line_ends_wp) as [Hne Hend].
  split; [exact Hne|]. split; [exact Hend|].
  intros code Hp. unfold result_of, trace_of, main_from_command_line, call.
  cbn [bind run]. destruct (handle Parsed ParseArgs w) as [x w1]. cbn [fst] in Hp.
  subst x. cbn. split; reflexivity.
Qed.

End EndingFromCommandLine.

(** ** When Neo4j cannot be reached *)

Lemma schema_check_available (ev : Event) :
  schema_check_event ev = true -> available ev = true.
Proof. destruct ev as [X [op x]]. destruct op; easy. Qed.

Lemma backup_available (ev : Event) : backup_event ev = true -> available ev = true.
Proof.
  destruct ev as [X [op x]]. destruct op; try easy.
  intros _. destruct x; reflexivity.
Qed.

Section Unavailable.

Variable ua : Z -> bool.
Variable ul : pystr -> nat -> pystr.
Variable cfg : Config.
Variable args : Args.

Ltac units :=
  repeat match goal with
    | u : unit |- _ => destruct u
    end.

Ltac calm :=
  rewrite ?app_nil_r, ?forallb_app;
  repeat match goal with
    | H : forallb _ ?t = true |- context [forallb _ ?t] => rewrite H
    end;
  reflexivity.

Ltac report :=
  units;
  lazymatch goal with
  | |- exists p ev, ?pre ++ ?l = _ /\ _ =>
      exists (pre ++ firstn (List.length l - 3) l),
             (nth (List.length l - 3) l (event (GetLogger "") (Returns tt)));
      cbn [List.length Nat.sub firstn nth];
      split; [rewrite <- app_assoc; reflexivity|split; [reflexivity|calm]]
  end.

Ltac leaf :=
  units;
  first [ exact I
        | calm
        | left; calm
        | right; split; [reflexivity|report] ].

Ltac step :=
  lazymatch goal with
  | Hpre : forallb available ?pre = true |- wp (bind _ _) _ =>
      apply (wp_seq (fun pre' _ => forallb available pre' = true) (swallowed ua args) _ _ pre);
      [ wp_open; wp_auto; leaf | clear dependent pre; intros pre ? Hpre ]
  | Hpre : forallb available ?pre = true |- wp (try_except (bind _ _) _) _ =>
      apply (wp_try_seq (fun pre' _ => forallb available pre' = true) (swallowed ua args) _ _ _ pre);
      [ wp_open; wp_auto; leaf | clear dependent pre; intros pre ? Hpre ]
  end.

Lemma main_unavailable_wp : wp (main ua ul cfg args) (swallowed ua args).
Proof.
  pose (pre := @nil Event).
  assert (Hpre : forallb available pre = true) by reflexivity.
  change (wp (main ua ul cfg args) (fun tr r => (swallowed ua args) (pre ++ tr) r)).
  clearbody pre. unfold main.
  apply (wp_seq (fun pre' a => forallb available pre' = true /\ a = "Loader"%string)
                (swallowed ua args) _ _ pre).
  { wp_open. wp_auto; first [split; [calm|reflexivity] | left; calm]. }
  clear dependent pre. intros pre ? [Hpre ->].
  do 5 step.
  apply (wp_seq (fun pre' _ => forallb available pre' = true) (swallowed ua args) _ _ pre).
  { eapply wp_mono; [|apply check_schema_files_wp]. cbn beta.
    intros tr r (Hall & ok & -> & _).
    apply (forallb_impl _ _ _ schema_check_available) in Hall. calm. }
  clear dependent pre. intros pre ? Hpre.
  do 2 step.
  match goal with a : list pystr |- _ => destruct a as [|file files] end.
  { wp_open. wp_auto. leaf. }
  do 2 step.
  apply (wp_try_seq (fun pre' _ => forallb available pre' = true) (swallowed ua args) _ _ _ pre).
  { destruct (negb (no_backup args) && negb (dry_run args)).
    - apply wp_bind. eapply wp_mono; [|apply backup_neo4j_wp]. cbn beta.
      intros tr r (Hall & v & -> & _).
      apply (forallb_impl _ _ _ backup_available) in Hall.
      wp_open. wp_auto; leaf.
    - wp_open. wp_auto. leaf. }
  clear dependent pre. intros pre ? Hpre.
  do 3 step.
  apply (wp_try_seq (fun pre' _ => forallb available pre' = true) (swallowed ua args) _ _ _ pre).
  { unfold confirm_wipe_db. wp_open. wp_auto; leaf. }
  clear dependent pre. intros pre ? Hpre.
  do 2 step.
  wp_open. wp_auto; leaf.
Qed.

Variable W : Type.
Variable handle : forall X : Type, Ext X -> W -> X * W.

(** X14. [ServiceUnavailable] does not escape [main].  In a run in which a call
    to Neo4j raises it, nothing follows that call but the two messages of
    the handler, the exception and that the server at the URI cannot be
    reached, and the run ends normally. *)
Theorem main_swallows_unavailable (w : W) :
  existsb unavailable (trace_of W handle (main ua ul cfg args) w) = true ->
  result_of W handle (main ua ul cfg args) w = Ok tt
  /\ exists pre ev,
       trace_of W handle (main ua ul cfg args) w
       = pre ++ ev :: unavailable_report ua args
       /\ unavailable ev = true /\ forallb available pre = true.
Proof.
  intros Hu.
  destruct (wp_sound W handle _ _ w main_unavailable_wp) as [Hcalm|H]; [|exact H].
  apply forallb_negb_existsb in Hcalm. congruence.
Qed.

End Unavailable.

Lemma main_swallows_unavailable_witness :
  result_of unit unreachable
    (main ascii_only ascii_lower_only sample_config sample_args) tt = Ok tt
  /\ exists pre ev,
       trace_of unit unreachable
         (main ascii_only ascii_lower_only sample_config sample_args) tt
       = pre ++ ev :: unavailable_report ascii_only sample_args
       /\ unavailable ev = true /\ forallb available pre = true.
Proof.
  apply (main_swallows_unavailable ascii_only ascii_lower_only sample_config
           sample_args unit unreachable tt).
  vm_compute. reflexivity.
Defined.

(** ** Loading and closing *)

Lemma before_load_not_closed (ev : Event) : before_load ev = true -> is_DriverClose ev = false.
Proof.
  unfold before_load. intros H. apply andb_true_iff in H as [H _].
  now apply negb_true_iff.
Qed.

Lemma before_load_not_loaded (ev : Event) : before_load ev = true -> load_returned ev = false.
Proof.
  unfold before_load. intros H. apply andb_true_iff in H as [_ H].
  now apply negb_true_iff.
Qed.

Lemma before_listing_before_load (pat : pystr) (ev : Event) :
  before_listing pat ev = true -> before_load ev = true.
Proof. unfold before_listing. intros H. now apply andb_true_iff in H as [H _]. Qed.

Lemma before_listing_not_listed (pat : pystr) (ev : Event) :
  before_listing pat ev = true -> is_glob_nonempty pat ev = false.
Proof.
  unfold before_listing. intros H. apply andb_true_iff in H as [_ H].
  now apply negb_true_iff.
Qed.

Lemma schema_check_before_listing (pat : pystr) (ev : Event) :
  schema_check_event ev = true -> before_listing pat ev = true.
Proof. destruct ev as [X [op x]]. destruct op; easy. Qed.

Lemma startup_before_listing (d : pystr) (ev : Event) :
  startup_event d ev = true -> before_listing (d ++ lit "/*.txt") ev = true.
Proof.
  intros H. unfold before_listing. rewrite (startup_not_txt_glob d ev H).
  destruct ev as [X [op x]]. destruct op; easy.
Qed.

(** The rest of a program after a call that has been made. *)
Lemma wp_after {A : Type} (post : list Event -> Result A -> Prop) (p : Prog A)
    (pre : list Event) (ev : Event) :
  wp p (fun tr r => post ((pre ++ [ev]) ++ tr) r) ->
  wp p (fun tr r => post (pre ++ ev :: tr) r).
Proof.
  apply wp_mono. intros tr r. now rewrite <- app_assoc.
Qed.

Lemma backup_before_load (ev : Event) : backup_event ev = true -> before_load ev = true.
Proof. destruct ev as [X [op x]]. destruct op; easy. Qed.

Section Closing.

Variable ua : Z -> bool.
Variable ul : pystr -> nat -> pystr.
Variable cfg : Config.
Variable args : Args.

Lemma before_load_post (tr : list Event) (r : Result unit) :
  forallb before_load tr = true ->
  (r = Ok tt -> forallb available tr = false) ->
  (loaded_and_closed args) tr r.
Proof.
  intros H Hr. split.
  - rewrite (existsb_quiet _ _ _ before_load_not_closed H).
    rewrite (existsb_quiet _ _ _ before_load_not_loaded H).
    now rewrite andb_false_r.
  - intros Hok Hav. rewrite (Hr Hok) in Hav. discriminate.
Qed.

Lemma before_listing_post (tr : list Event) (r : Result unit) :
  forallb (before_listing (dir args ++ lit "/*.txt")) tr = true ->
  (loaded_and_closed args) tr r.
Proof.
  intros H. split.
  - apply (forallb_impl _ _ _ (before_listing_before_load _)) in H.
    rewrite (existsb_quiet _ _ _ before_load_not_closed H).
    rewrite (existsb_quiet _ _ _ before_load_not_loaded H).
    now rewrite andb_false_r.
  - intros _ _ Hg.
    rewrite (existsb_quiet _ _ _ (before_listing_not_listed _) H) in Hg. discriminate.
Qed.

Ltac units :=
  repeat match goal with
    | u : unit |- _ => destruct u
    end.

Ltac calm :=
  rewrite ?app_nil_r, ?forallb_app;
  repeat match goal with
    | H : forallb _ ?t = true |- context [forallb _ ?t] => rewrite H
    end;
  reflexivity.

Ltac startup_calm :=
  rewrite ?app_nil_r, ?forallb_app;
  repeat match goal with
    | H : forallb _ ?t = true |- context [forallb _ ?t] => rewrite H
    end;
  cbn; rewrite ?pystr_eqb_refl; reflexivity.

Ltac startup_leaf :=
  first [ startup_calm
        | apply before_listing_post;
          apply (forallb_impl _ _ _ (startup_before_listing (dir args)));
          startup_calm ].

Ltac startup_step :=
  lazymatch goal with
  | Hpre : forallb (startup_event ?d) ?pre = true |- wp (bind _ _) _ =>
      apply (wp_seq (fun pre' _ => forallb (startup_event d) pre' = true)
                    (loaded_and_closed args) _ _ pre);
      [ wp_open; wp_auto; startup_leaf | clear dependent pre; intros pre ? Hpre ]
  end.

Ltac leaf :=
  units;
  first [ calm
        | apply before_load_post;
          [ calm
          | first [ discriminate
                  | intros _; rewrite ?forallb_app; cbn;
                    rewrite ?andb_false_r; reflexivity ] ] ].

Ltac step :=
  lazymatch goal with
  | Hpre : forallb before_load ?pre = true |- wp (bind _ _) _ =>
      apply (wp_seq (fun pre' _ => forallb before_load pre' = true)
                    (loaded_and_closed args) _ _ pre);
      [ wp_open; wp_auto; leaf | clear dependent pre; intros pre ? Hpre ]
  | Hpre : forallb before_load ?pre = true |- wp (try_except (bind _ _) _) _ =>
      apply (wp_try_seq (fun pre' _ => forallb before_load pre' = true)
                        (loaded_and_closed args) _ _ _ pre);
      [ wp_open; wp_auto; leaf | clear dependent pre; intros pre ? Hpre ]
  end.

Lemma main_closing_wp : wp (main ua ul cfg args) (loaded_and_closed args).
Proof.
  pose (pre := @nil Event).
  assert (Hpre : forallb (startup_event (dir args)) pre = true) by reflexivity.
  change (wp (main ua ul cfg args) (fun tr r => (loaded_and_closed args) (pre ++ tr) r)).
  clearbody pre. unfold main.
  do 6 startup_step.
  apply (wp_seq (fun pre' _ => forallb (startup_event (dir args)) pre' = true)
                (loaded_and_closed args) _ _ pre).
  { eapply wp_mono; [|apply (check_schema_files_startup (dir args))]. cbn beta.
    intros tr r (Hall & ok & ->). rewrite forallb_app, Hpre, Hall. reflexivity. }
  clear dependent pre. intros pre ? Hpre.
  startup_step.
  apply (forallb_impl _ _ _ (startup_before_listing _)) in Hpre.
  apply (wp_try_seq (fun pre' l =>
                       match l with
                       | [] => forallb (before_listing (dir args ++ lit "/*.txt")) pre'
                               = true
                       | _ :: _ => forallb before_load pre' = true
                       end)
                    (loaded_and_closed args) _ _ _ pre).
  { wp_open. wp_auto. destruct x as [|file files].
    - rewrite forallb_app, Hpre. reflexivity.
    - apply (forallb_impl _ _ _ (before_listing_before_load _)) in Hpre.
      rewrite forallb_app, Hpre. reflexivity. }
  clear dependent pre. intros pre [|file files] Hpre.
  { wp_open. wp_auto. units. apply before_listing_post.
    rewrite forallb_app, Hpre. reflexivity. }
  do 2 step.
  apply (wp_try_seq (fun pre' _ => forallb before_load pre' = true)
                    (loaded_and_closed args) _ _ _ pre).
  { destruct (negb (no_backup args) && negb (dry_run args)).
    - apply wp_bind. eapply wp_mono; [|apply backup_neo4j_wp]. cbn beta.
      intros tr r (Hall & v & -> & _).
      apply (forallb_impl _ _ _ backup_before_load) in Hall.
      wp_open. wp_auto; leaf.
    - wp_open. wp_auto. leaf. }
  clear dependent pre. intros pre ? Hpre.
  step.
  apply (wp_try_seq (fun pre' d =>
                       forallb before_load pre' = true
                       /\ dry_run args = match d with
                                         | Some _ => false
                                         | None => true
                                         end)
                    (loaded_and_closed args) _ _ _ pre).
  { wp_open. wp_auto; negb_hyps; first [split; [calm|assumption] | leaf]. }
  clear dependent pre. intros pre driver [Hpre Hdry].
  step.
  apply (wp_try_seq (fun pre' _ => forallb before_load pre' = true)
                    (loaded_and_closed args) _ _ _ pre).
  { unfold confirm_wipe_db. wp_open. wp_auto; leaf. }
  clear dependent pre. intros pre ? Hpre.
  pose proof (existsb_quiet _ _ _ before_load_not_closed Hpre) as Hc.
  pose proof (existsb_quiet _ _ _ before_load_not_loaded Hpre) as Hl.
  wp_open. wp_auto.
  all: units.
  all: try (apply before_load_post;
            [ calm
            | first [ discriminate
                    | intros _; rewrite ?forallb_app; cbn;
                      rewrite ?andb_false_r; reflexivity ] ]).
  all: split;
    [ rewrite !existsb_app, Hc, Hl, Hdry; reflexivity
    | intros _ _ _; rewrite !existsb_app; cbn; rewrite ?orb_true_r; reflexivity ].
Qed.

Variable W : Type.
Variable handle : forall X : Type, Ext X -> W -> X * W.

(** X15. The driver is closed exactly in the runs, other than dry runs, in which
    [load] returned: when the construction of the loader, the wipe
    confirmation or the load fails, the driver that was created is left
    unclosed. *)
Theorem driver_closed_iff_load_returned (w : W) :
  existsb is_DriverClose (trace_of W handle (main ua ul cfg args) w)
  = negb (dry_run args)
    && existsb load_returned (trace_of W handle (main ua ul cfg args) w).
Proof. exact (proj1 (wp_sound W handle _ _ w main_closing_wp)). Qed.

(** X16. A run that ends normally after data files were found, and in which
    Neo4j was never unavailable, has called [load] and [load] returned. *)
Theorem normal_end_means_loaded (w : W) :
  result_of W handle (main ua ul cfg args) w = Ok tt ->
  forallb available (trace_of W handle (main ua ul cfg args) w) = true ->
  existsb (is_glob_nonempty (dir args ++ lit "/*.txt"))
    (trace_of W handle (main ua ul cfg args) w) = true ->
  existsb load_returned (trace_of W handle (main ua ul cfg args) w) = true.
Proof. exact (proj2 (wp_sound W handle _ _ w main_closing_wp)). Qed.

End Closing.

Lemma normal_end_means_loaded_witness :
  existsb load_returned
    (trace_of unit (answer sample_answers)
       (main ascii_only ascii_lower_only sample_config sample_args) tt) = true.
Proof.
  apply (normal_end_means_loaded ascii_only ascii_lower_only sample_config sample_args
           unit (answer sample_answers) tt); vm_compute; reflexivity.
Defined.

(** ** A data directory that is not empty *)

Section S3.

Variable ua : Z -> bool.
Variable ul : pystr -> nat -> pystr.
Variable cfg : Config.
Variable args : Args.

Lemma main_full_directory_wp :
  truthy (s3_folder args) = true ->
  wp (main ua ul cfg args) (refuses_full_directory args).
Proof.
  intros Hs3. unfold main. rewrite Hs3.
  change (wp ?m (refuses_full_directory args))
    with (wp m (fun tr r => (refuses_full_directory args) ([] ++ tr) r)).
  apply (wp_seq (fun pre' a => pre' = [event (GetLogger "Loader") (Returns tt)]
                               /\ a = "Loader"%string)
                (refuses_full_directory args) _ _ []).
  { wp_open. wp_auto.
    - repeat match goal with u : unit |- _ => destruct u end. split; reflexivity.
    - cbn in *. discriminate. }
  intros pre a [-> ->].
  apply (wp_seq (fun pre' _ =>
                   forallb (found (dir args)) pre' = true ->
                   forallb (matched (dir args ++ lit "/*")) pre' = true -> False)
                (refuses_full_directory args) _ _ _).
  { wp_open. wp_auto.
    all: negb_hyps; subst.
    all: repeat match goal with
           | H : (0 <? List.length ?x)%nat = _ |- _ =>
               destruct x; try discriminate H; clear H
           | u : unit |- _ => destruct u
           end.
    all: repeat match goal with
           | H : forallb _ _ = true |- _ =>
               cbn in H; rewrite ?pystr_eqb_refl in H; try discriminate H; clear H
           end.
    split; [reflexivity|]. eexists. split; [|reflexivity]. discriminate. }
  intros pre' _ Hno. apply wp_trivial. intros tr r _ Hf Hm. exfalso.
  rewrite forallb_app in Hf, Hm.
  apply andb_true_iff in Hf as [Hf _]. apply andb_true_iff in Hm as [Hm _]. auto.
Qed.

Variable W : Type.
Variable handle : forall X : Type, Ext X -> W -> X * W.

(** X17. Files are never downloaded into a data directory that is not empty:
    with [--s3-folder], when the logger set-up returns and the data
    directory exists and holds a file, the run sets up the logger, finds
    the directory and its files, logs that the folder is not empty and
    exits with status 1, and does nothing else. *)
Theorem s3_download_refuses_full_directory (w : W) :
  truthy (s3_folder args) = true ->
  (forall w', logger_set_up W handle "Loader" w' = Returns tt) ->
  (forall w', fst (handle _ (PathExists (dir args)) w') = true) ->
  (forall w', fst (handle _ (Glob (dir args ++ lit "/*")) w') <> []) ->
  result_of W handle (main ua ul cfg args) w = Raised (SystemExit (Some 1))
  /\ exists files,
       files <> []
       /\ trace_of W handle (main ua ul cfg args) w
          = [event (GetLogger "Loader") (Returns tt);
             event (PathExists (dir args)) true;
             event (Glob (dir args ++ lit "/*")) files;
             event (Log "Loader" error
                      (MsgStr (lit "Folder: " ++ [QUOTE] ++ dir args ++ [QUOTE]
                               ++ lit " is not empty, please empty it first"))) tt].
Proof.
  intros Hs3 Hlog Hex Hglob.
  apply (wp_sound W handle _ _ w (main_full_directory_wp Hs3)).
  - apply trace_answers. intros X op w'. destruct op; try reflexivity.
    unfold logger_ready, answered. simpl.
    destruct (fst (handle (Resp unit) (GetLogger name) w')) eqn:Hx; [reflexivity|].
    destruct (String.eqb_spec name "Loader") as [->|]; [|reflexivity].
    unfold logger_set_up in Hlog. rewrite Hlog in Hx. discriminate.
  - apply trace_answers. intros X op w'. destruct op; try reflexivity.
    unfold found, answered. simpl.
    destruct (pystr_eqb p (dir args)) eqn:Hp; [|now rewrite orb_true_r].
    apply pystr_eqb_eq in Hp. subst p. now rewrite Hex.
  - apply trace_answers. intros X op w'. destruct op; try reflexivity.
    unfold matched, answered. simpl.
    destruct (fst (handle (list pystr) (Glob pattern) w')) eqn:Hg; [|reflexivity].
    destruct (pystr_eqb pattern (dir args ++ lit "/*")) eqn:Hp; [|reflexivity].
    apply pystr_eqb_eq in Hp. subst pattern. now apply Hglob in Hg.
Qed.

End S3.

Lemma s3_download_refuses_full_directory_witness :
  result_of unit (answer full_directory_answers)
    (main ascii_only ascii_lower_only sample_config s3_args) tt
  = Raised (SystemExit (Some 1))
  /\ exists files,
       files <> []
       /\ trace_of unit (answer full_directory_answers)
            (main ascii_only ascii_lower_only sample_config s3_args) tt
          = [event (GetLogger "Loader") (Returns tt);
             event (PathExists (dir s3_args)) true;
             event (Glob (dir s3_args ++ lit "/*")) files;
             event (Log "Loader" error
                      (MsgStr (lit "Folder: " ++ [QUOTE] ++ dir s3_args ++ [QUOTE]
                               ++ lit " is not empty, please empty it first"))) tt].
Proof.
  apply (s3_download_refuses_full_directory ascii_only ascii_lower_only sample_config
           s3_args unit (answer full_directory_answers) tt).
  - reflexivity.
  - intros w'. reflexivity.
  - intros w'. reflexivity.
  - intros w'. discriminate.
Defined.

(** ** The logger set-up and [send_mail] *)

Lemma lib_wp_sound {A : Type} (W : Type) (handle : forall X : Type, Lib.Op X -> W -> X * W)
    (c : Lib.Code A) (post : list Lib.Event -> A -> Prop) (w : W) :
  Lib.wp c post ->
  post (fst (fst (Lib.run W handle c w))) (snd (fst (Lib.run W handle c w))).
Proof.
  revert post w. induction c as [a|X op k IH]; intros post w H; simpl in *; auto.
  destruct (handle X op w) as [x w1]. specialize (IH x _ w1 (H x)).
  destruct (Lib.run W handle (k x) w1) as [[tr r] w2]. exact IH.
Qed.

Lemma lib_wp_mono {A : Type} (c : Lib.Code A) (P Q : list Lib.Event -> A -> Prop) :
  (forall tr a, P tr a -> Q tr a) -> Lib.wp c P -> Lib.wp c Q.
Proof.
  revert P Q. induction c as [a|X op k IH]; intros P Q HPQ H; simpl in *; auto.
  intros x. eapply IH; [|apply H]. intros tr r. apply HPQ.
Qed.

Lemma lib_wp_bind {A B : Type} (c : Lib.Code A) (f : A -> Lib.Code B)
    (post : list Lib.Event -> B -> Prop) :
  Lib.wp c (fun tr a => Lib.wp (f a) (fun tr' b => post (tr ++ tr') b)) ->
  Lib.wp (Lib.code_bind c f) post.
Proof.
  revert post. induction c as [a|X op k IH]; intros post H; simpl in *.
  - exact H.
  - intros x. apply IH. exact (H x).
Qed.

Lemma file_eqb_refl (f : Lib.File) : Lib.file_eqb f f = true.
Proof. destruct f. apply Z.eqb_refl. Qed.

Lemma smtp_eqb_refl (s : Lib.Smtp) : Lib.smtp_eqb s s = true.
Proof. destruct s. apply Z.eqb_refl. Qed.

Lemma files_closed_app (cur : option Lib.File) (a b : list Lib.Event) :
  Lib.files_closed cur a = true ->
  Lib.files_closed cur (a ++ b) = Lib.files_closed None b.
Proof.
  revert cur. induction a as [|ev a IH]; intros cur H; simpl in *.
  - destruct cur; [discriminate|reflexivity].
  - destruct (Lib.answered (@Lib.opened) ev) as [f|].
    + apply andb_true_iff in H as [H1 H2]. rewrite H1. simpl. now apply IH.
    + destruct (Lib.closed ev) as [f|].
      * destruct cur as [g|]; [|discriminate].
        apply andb_true_iff in H as [H1 H2]. rewrite H1. simpl. now apply IH.
      * apply andb_true_iff in H as [H1 H2]. rewrite H1. simpl. now apply IH.
Qed.

Lemma session_quit_attachments (cur : option Lib.Smtp) (a b : list Lib.Event) :
  forallb attachment_event a = true ->
  Lib.session_quit cur (a ++ b) = Lib.session_quit cur b.
Proof.
  induction a as [|ev a IH]; intros H; simpl in *; [reflexivity|].
  apply andb_true_iff in H as [H1 H2]. rewrite (IH H2).
  destruct ev as [X [op x]]. destruct op; try discriminate; reflexivity.
Qed.

Lemma first_of_app {A : Type} (f : Lib.Event -> option A) (a b : list Lib.Event) :
  Lib.first_of f (a ++ b)
  = match Lib.first_of f a with
    | Some x => Some x
    | None => Lib.first_of f b
    end.
Proof.
  induction a as [|ev a IH]; simpl; [reflexivity|].
  destruct (f ev); [reflexivity|exact IH].
Qed.

Lemma first_of_none {A : Type} (f : Lib.Event -> option A) (B : Lib.Event -> bool)
    (tr : list Lib.Event) :
  (forall ev, B ev = true -> f ev = None) ->
  forallb B tr = true -> Lib.first_of f tr = None.
Proof.
  intros HB. induction tr as [|ev tr IH]; simpl; [reflexivity|].
  intros H. apply andb_true_iff in H as [H1 H2]. now rewrite (HB _ H1), IH.
Qed.

Lemma attachment_no_quit (ev : Lib.Event) :
  attachment_event ev = true -> Lib.quit_failed ev = None.
Proof. destruct ev as [X [op x]]. destruct op; easy. Qed.

Lemma attachment_level (ev : Lib.Event) :
  attachment_event ev = true -> Lib.level_rejected ev = None.
Proof. destruct ev as [X [op x]]. destruct op; easy. Qed.

Lemma attachment_not_sent (tr : list Lib.Event) :
  forallb attachment_event tr = true -> existsb Lib.sent tr = false.
Proof.
  induction tr as [|ev tr IH]; simpl; [reflexivity|].
  intros H. apply andb_true_iff in H as [H1 H2]. rewrite (IH H2), orb_false_r.
  destruct ev as [X [op x]]. destruct op; easy.
Qed.

Lemma attachment_not_logged (tr : list Lib.Event) :
  forallb attachment_event tr = true -> flat_map Lib.logged tr = [].
Proof.
  induction tr as [|ev tr IH]; simpl; [reflexivity|].
  intros H. apply andb_true_iff in H as [H1 H2]. rewrite (IH H2), app_nil_r.
  destruct ev as [X [op x]]. destruct op; easy.
Qed.

Ltac lib_head p :=
  lazymatch p with
  | Lib.code_bind ?q _ => lib_head q
  | match ?b with _ => _ end =>
      lazymatch b with
      | match _ with _ => _ end => lib_head b
      | _ => b
      end
  end.

Ltac lib_case :=
  lazymatch goal with
  | |- Lib.wp ?c _ => let b := lib_head c in destruct b
  end.

Ltac lib_open :=
  unfold Lib.with_open, Lib.try_except_finally, Lib.bind, Lib.call, Lib.call_resp,
    Lib.put, Lib.get, Lib.ret.

Ltac lib_auto :=
  repeat first [ progress cbn [Lib.wp Lib.code_bind fst snd] | intro | lib_case ].

Section SendMail.

Variable cfg : Lib.MailConfig.

Lemma attach_file_wp (message : Lib.Message) (attachment : pystr) (s : option Lib.Smtp) :
  Lib.wp (attach_file message attachment s) (attached_all s).
Proof.
  unfold attach_file. lib_open. lib_auto.
  all: unfold attached_all; cbn; rewrite ?file_eqb_refl; repeat split; reflexivity.
Qed.

Lemma attach_all_wp (message : Lib.Message) (l : list pystr) (s : option Lib.Smtp) :
  Lib.wp (Lib.for_each l (attach_file message) s) (attached_all s).
Proof.
  induction l as [|a l IH]; cbn [Lib.for_each].
  - cbn. repeat split; reflexivity.
  - unfold Lib.bind at 1. apply lib_wp_bind.
    eapply lib_wp_mono; [|apply attach_file_wp]. cbn beta.
    intros tr [s1 r] (Hs & Hall & Hf & Hr). cbn [fst snd] in *. subst s1.
    destruct r as [u|e].
    + eapply lib_wp_mono; [|exact IH]. cbn beta.
      intros tr' [s2 r'] (Hs' & Hall' & Hf' & Hr'). cbn [fst snd] in *.
      unfold attached_all. cbn [fst snd].
      rewrite forallb_app, Hall, Hall', (files_closed_app _ _ _ Hf), Hf', flat_map_app, Hr.
      repeat split; try reflexivity; assumption.
    + cbn. unfold attached_all. cbn [fst snd]. rewrite app_nil_r.
      repeat split; assumption.
Qed.

End SendMail.

Lemma failed_exceptions (tr : list Lib.Event) (e : Exn) :
  In e (flat_map Lib.failed tr) -> exists n, e = Exception n.
Proof.
  intros H. apply in_flat_map in H as (ev & _ & H). unfold Lib.failed in H.
  destruct (Lib.try_failed ev) as [n|]; [|contradiction].
  destruct H as [<-|[]]. eauto.
Qed.

Section SendMail2.

Variable cfg : Lib.MailConfig.

Ltac answers :=
  repeat match goal with
    | x : Resp _ |- _ => destruct x
    end.

Ltac mail_leaf :=
  answers; unfold mail_outcome, Lib.send_mail_answer; cbn;
  rewrite ?smtp_eqb_refl; cbn;
  repeat split; try reflexivity; try lia.

Ltac loop_facts :=
  match goal with
  | Hall : forallb attachment_event ?t = true, Hf : Lib.files_closed None ?t = true |- _ =>
      rewrite ?(files_closed_app _ t _ Hf), ?(session_quit_attachments _ t _ Hall),
        ?first_of_app, ?(first_of_none _ _ t attachment_no_quit Hall),
        ?(first_of_none _ _ t attachment_level Hall),
        ?existsb_app, ?(attachment_not_sent t Hall),
        ?flat_map_app, ?(attachment_not_logged t Hall)
  end.

Lemma send_mail_wp (subject : pystr) (contents : Lib.Contents)
    (attachments : option (list pystr)) (s : option Lib.Smtp) :
  Lib.wp (Lib.send_mail cfg subject contents attachments s) mail_outcome.
Proof.
  unfold Lib.send_mail, Lib.get_logger.
  destruct contents as [text|blob], attachments as [l|].
  all: lib_open; lib_auto.
  all: try solve [mail_leaf].
  all: repeat apply lib_wp_bind.
  all: eapply lib_wp_mono; [|apply attach_all_wp].
  all: cbn beta; intros tr [s1 [u|e]] (Hs & Hall & Hf & Hr); cbn [fst snd] in *; subst s1.
  all: lib_auto.
  all: answers.
  all: unfold mail_outcome, Lib.send_mail_answer; rewrite <- ?app_assoc; cbn.
  all: loop_facts; cbn; rewrite ?smtp_eqb_refl, ?Hr; cbn.
  all: repeat split; try reflexivity; try lia.
  all: exfalso; destruct (failed_exceptions tr (SystemExit code)) as [n Hn];
    [rewrite Hr; now left|discriminate].
Qed.

End SendMail2.

(** ** What the checks of a trace mean *)

Lemma file_eqb_eq (f g : Lib.File) : Lib.file_eqb f g = true -> f = g.
Proof. destruct f, g. simpl. intros H. apply Z.eqb_eq in H. now subst. Qed.

Lemma smtp_eqb_eq (s t : Lib.Smtp) : Lib.smtp_eqb s t = true -> s = t.
Proof. destruct s, t. simpl. intros H. apply Z.eqb_eq in H. now subst. Qed.

Lemma closed_event (ev : Lib.Event) (f : Lib.File) :
  Lib.closed ev = Some f -> ev = Lib.event (Lib.Close f) tt.
Proof.
  destruct ev as [X [op x]]. unfold Lib.closed, Lib.op_of. simpl.
  destruct op; try discriminate. intros [= ->]. now destruct x.
Qed.

Lemma files_closed_sound (tr : list Lib.Event) (cur : option Lib.File) :
  Lib.files_closed cur tr = true ->
  (forall g, cur = Some g ->
     exists mid rest,
       tr = mid ++ Lib.event (Lib.Close g) tt :: rest /\ forallb while_open mid = true)
  /\ (forall pre ev post f,
        tr = pre ++ ev :: post -> Lib.answered (@Lib.opened) ev = Some f ->
        exists mid rest,
          post = mid ++ Lib.event (Lib.Close f) tt :: rest
          /\ forallb while_open mid = true).
Proof.
  revert cur. induction tr as [|ev tr IH]; intros cur H.
  - simpl in H. split.
    + intros g ->. discriminate.
    + intros [|? ?] ? ? ? Heq; discriminate.
  - cbn [Lib.files_closed] in H.
    destruct (Lib.answered (@Lib.opened) ev) as [f|] eqn:Ho.
    + apply andb_true_iff in H as [Hc H]. destruct cur; [discriminate|].
      destruct (IH _ H) as [IH1 IH2]. split; [intros g; discriminate|].
      intros [|e pre] ev' post f' Heq Hev; cbn [app] in Heq; injection Heq as ? ?; subst.
      * rewrite Ho in Hev. injection Hev as <-. exact (IH1 f eq_refl).
      * exact (IH2 _ _ _ _ eq_refl Hev).
    + destruct (Lib.closed ev) as [f|] eqn:Hcl.
      * destruct cur as [g|]; [|discriminate].
        apply andb_true_iff in H as [He H]. apply file_eqb_eq in He. subst g.
        destruct (IH _ H) as [_ IH2]. split.
        -- intros g [= <-]. exists [], tr. split; [|reflexivity].
           cbn [app]. f_equal. now apply closed_event.
        -- intros [|e pre] ev' post f' Heq Hev; cbn [app] in Heq; injection Heq as ? ?; subst.
           ++ rewrite Ho in Hev. discriminate.
           ++ exact (IH2 _ _ _ _ eq_refl Hev).
      * apply andb_true_iff in H as [Hq H]. destruct (IH _ H) as [IH1 IH2]. split.
        -- intros g ->. destruct (IH1 g eq_refl) as (mid & rest & -> & Hmid).
           exists (ev :: mid), rest. split; [reflexivity|].
           cbn [forallb]. rewrite Hmid, andb_true_r. unfold while_open.
           rewrite Ho, Hcl. cbn. rewrite orb_false_r in Hq. exact Hq.
        -- intros [|e pre] ev' post f' Heq Hev; cbn [app] in Heq; injection Heq as ? ?; subst.
           ++ rewrite Ho in Hev. discriminate.
           ++ exact (IH2 _ _ _ _ eq_refl Hev).
Qed.

Lemma quit_event (ev : Lib.Event) (s : Lib.Smtp) :
  Lib.quit_of ev = Some s -> exists r, ev = Lib.event (Lib.Quit s) r.
Proof.
  destruct ev as [X [op x]]. unfold Lib.quit_of, Lib.op_of. simpl.
  destruct op; try discriminate. intros [= ->]. now exists x.
Qed.

Lemma session_quit_sound (tr : list Lib.Event) (cur : option Lib.Smtp) :
  Lib.session_quit cur tr = true ->
  match match cur with
        | Some t => Some t
        | None => Lib.first_of (Lib.answered (@Lib.connected)) tr
        end with
  | Some s => exists pre r, tr = pre ++ [Lib.event (Lib.Quit s) r]
                            /\ forallb no_quit pre = true
  | None => forallb no_quit tr = true
  end.
Proof.
  revert cur. induction tr as [|ev tr IH]; intros cur H.
  - simpl in H. destruct cur; [discriminate|reflexivity].
  - cbn [Lib.session_quit] in H. cbn [Lib.first_of].
    destruct (Lib.answered (@Lib.connected) ev) as [s|] eqn:Hc.
    + apply andb_true_iff in H as [Hn H]. destruct cur; [discriminate|].
      specialize (IH _ H). cbn beta iota in IH.
      destruct IH as (pre & r & -> & Hpre). exists (ev :: pre), r.
      split; [reflexivity|]. cbn [forallb]. rewrite Hpre, andb_true_r.
      destruct ev as [X [op x]]. destruct op; try discriminate; reflexivity.
    + destruct (Lib.quit_of ev) as [s|] eqn:Hq.
      * destruct cur as [t|]; [|discriminate]. destruct tr; [|discriminate].
        apply smtp_eqb_eq in H. subst t.
        destruct (quit_event _ _ Hq) as [r ->]. exists [], r. split; reflexivity.
      * assert (Hnq : no_quit ev = true) by (unfold no_quit; now rewrite Hq).
        destruct (Lib.uses_session ev) as [s|].
        -- destruct cur as [t|]; [|discriminate].
           apply andb_true_iff in H as [_ H]. specialize (IH _ H). cbn beta iota in IH.
           destruct IH as (pre & r & -> & Hpre). exists (ev :: pre), r.
           split; [reflexivity|]. cbn [forallb]. now rewrite Hnq, Hpre.
        -- apply andb_true_iff in H as [_ H]. specialize (IH _ H).
           destruct cur as [t|].
           ++ destruct IH as (pre & r & -> & Hpre). exists (ev :: pre), r.
              split; [reflexivity|]. cbn [forallb]. now rewrite Hnq, Hpre.
           ++ destruct (Lib.first_of (Lib.answered (@Lib.connected)) tr) as [s|].
              ** destruct IH as (pre & r & -> & Hpre). exists (ev :: pre), r.
                 split; [reflexivity|]. cbn [forallb]. now rewrite Hnq, Hpre.
              ** cbn [forallb]. now rewrite Hnq, IH.
Qed.

Section SendMailTheorems.

Variable W : Type.
Variable handle : forall X : Type, Lib.Op X -> W -> X * W.
Variable cfg : Lib.MailConfig.

(** X18. In every run of [send_mail], whatever fails: every attachment
    file that [open] returned is closed again, and until then no other
    file is opened and the mail server is not contacted. *)
Theorem send_mail_closes_files (subject : pystr) (contents : Lib.Contents)
    (attachments : option (list pystr)) (w : W) :
  Lib.files_closed None
    (Lib.trace_of W handle (Lib.send_mail cfg subject contents attachments) None w) = true
  /\ forall pre ev post f,
       Lib.trace_of W handle (Lib.send_mail cfg subject contents attachments) None w
       = pre ++ ev :: post ->
       Lib.answered (@Lib.opened) ev = Some f ->
       exists mid rest,
         post = mid ++ Lib.event (Lib.Close f) tt :: rest
         /\ forallb while_open mid = true.
Proof.
  pose proof (lib_wp_sound W handle _ _ w
                (send_mail_wp cfg subject contents attachments None)) as (Hf & _).
  split; [exact Hf|]. exact (proj2 (files_closed_sound _ _ Hf)).
Qed.

(** X19. In every run of [send_mail] at most one SMTP session is opened;
    when [smtplib.SMTP] returned a session, the last call of the run is
    [quit] on that session, also when building or sending the message
    raised; otherwise [quit] is never called. *)
Theorem send_mail_quits_session (subject : pystr) (contents : Lib.Contents)
    (attachments : option (list pystr)) (w : W) :
  match Lib.first_of (Lib.answered (@Lib.connected))
          (Lib.trace_of W handle (Lib.send_mail cfg subject contents attachments) None w)
  with
  | Some session =>
      exists pre r,
        Lib.trace_of W handle (Lib.send_mail cfg subject contents attachments) None w
        = pre ++ [Lib.event (Lib.Quit session) r]
        /\ forallb no_quit pre = true
  | None =>
      forallb no_quit
        (Lib.trace_of W handle (Lib.send_mail cfg subject contents attachments) None w)
      = true
  end.
Proof.
  pose proof (lib_wp_sound W handle _ _ w
                (send_mail_wp cfg subject contents attachments None)) as (_ & Hq & _).
  exact (session_quit_sound _ None Hq).
Qed.

(** X20. What [send_mail] answers: it raises what [quit] raised, else what
    [setLevel] raised in the logger set-up, and else returns whether
    [sendmail] returned; and it logs an error for exactly the exceptions
    raised by the calls of its [try] block, of which there is at most one. *)
Theorem send_mail_answers_and_logs (subject : pystr) (contents : Lib.Contents)
    (attachments : option (list pystr)) (w : W) :
  Lib.result_of W handle (Lib.send_mail cfg subject contents attachments) None w
  = Lib.send_mail_answer
      (Lib.trace_of W handle (Lib.send_mail cfg subject contents attachments) None w)
  /\ flat_map Lib.logged
       (Lib.trace_of W handle (Lib.send_mail cfg subject contents attachments) None w)
     = flat_map Lib.failed
         (Lib.trace_of W handle (Lib.send_mail cfg subject contents attachments) None w)
  /\ (List.length
        (flat_map Lib.logged
           (Lib.trace_of W handle (Lib.send_mail cfg subject contents attachments) None w))
      <= 1)%nat.
Proof.
  pose proof (lib_wp_sound W handle _ _ w
                (send_mail_wp cfg subject contents attachments None)) as (_ & _ & Hr & Hl).
  split; [exact Hr|exact Hl].
Qed.

End SendMailTheorems.

(** The embedding on a run in which the server refuses the mail: the two
    attachments are opened and closed, the error is logged, the session is
    quit and the answer is [False]. *)
Example send_mail_refused_run :
  Lib.result_of Lib.Logging Lib.refusing
    (Lib.send_mail Lib.sample_mail_config (lit "Loading report") (Lib.Text (lit "done"))
       (Some [lit "/tmp/a.tsv"; lit "/tmp/b.tsv"])) None Lib.fresh_logging
  = Ok false
  /\ map (fun ev => (Lib.is_none (Lib.answered (@Lib.opened) ev),
                     Lib.is_none (Lib.closed ev), no_quit ev))
       (skipn 13
          (Lib.trace_of Lib.Logging Lib.refusing
             (Lib.send_mail Lib.sample_mail_config (lit "Loading report")
                (Lib.Text (lit "done")) (Some [lit "/tmp/a.tsv"; lit "/tmp/b.tsv"]))
             None Lib.fresh_logging))
     = [(false, true, true); (true, true, true); (true, true, true); (true, true, true);
        (true, false, true);
        (false, true, true); (true, true, true); (true, true, true); (true, true, true);
        (true, false, true);
        (true, true, true); (true, true, true); (true, true, true); (true, true, true);
        (true, true, false)].
Proof. vm_compute. split; reflexivity. Qed.

(** ** The handlers of a logger *)

Lemma fresh_handler_is_new (name : pystr) (l : list (pystr * Lib.Handler)) (n m : Z) :
  n <= m ->
  forallb (fun nh => match snd nh with Lib.HandlerHandle i => i <? n end) l = true ->
  existsb (Lib.handler_eqb (Lib.HandlerHandle m))
    (map snd (filter (fun nh => pystr_eqb (fst nh) name) l)) = false.
Proof.
  intros Hnm. induction l as [|[k [i]] l IH]; cbn; intros H; [reflexivity|].
  apply andb_true_iff in H as [Hi H]. apply Z.ltb_lt in Hi.
  destruct (pystr_eqb k name); cbn; [|now apply IH].
  rewrite (IH H), orb_false_r. apply Z.eqb_neq. lia.
Qed.

Lemma get_logger_registry (name : pystr) (w : Lib.Logging) :
  registry_fresh w = true ->
  Lib.world_after Lib.Logging Lib.logging (@Lib.get_logger unit name) tt w
  = {| Lib.attached := Lib.attached w ++ [(name, Lib.HandlerHandle (Lib.next_handler w))];
       Lib.next_handler := Lib.next_handler w + 1 |}.
Proof.
  intros H. unfold registry_fresh in H. destruct w as [l n]. cbn in *.
  unfold Lib.world_after, Lib.handlers_of. cbn.
  now rewrite (fresh_handler_is_new name l n n (Z.le_refl n) H).
Qed.

Lemma get_logger_keeps_fresh (name : pystr) (w : Lib.Logging) :
  registry_fresh w = true ->
  registry_fresh
    (Lib.world_after Lib.Logging Lib.logging (@Lib.get_logger unit name) tt w) = true.
Proof.
  intros H. rewrite (get_logger_registry name w H). unfold registry_fresh in *. cbn.
  rewrite forallb_app. cbn. rewrite andb_true_r.
  apply andb_true_iff. split; [|apply Z.ltb_lt; lia].
  eapply forallb_forall. intros [k [i]] Hin.
  apply (proj1 (forallb_forall _ _) H) in Hin. cbn in *.
  apply Z.ltb_lt in Hin. apply Z.ltb_lt. lia.
Qed.

(** X21. The handlers of [get_logger] pile up: in the registry of
    [logging], where a logger is shared by its name and [StreamHandler()]
    makes a new handler, [n] calls of [get_logger name] leave the logger
    with [n] more handlers, so that a message is written once more for every
    earlier call; the other loggers keep theirs. *)
Theorem get_logger_handlers_accumulate (n : nat) (name : pystr) (w : Lib.Logging) :
  registry_fresh w = true ->
  List.length (Lib.handlers_of name (Lib.after_calls n name w))
  = (List.length (Lib.handlers_of name w) + n)%nat
  /\ forall other, pystr_eqb other name = false ->
       Lib.handlers_of other (Lib.after_calls n name w) = Lib.handlers_of other w.
Proof.
  revert w. induction n as [|n IH]; intros w H; cbn [Lib.after_calls].
  - split; [lia|reflexivity].
  - destruct (IH _ (get_logger_keeps_fresh name w H)) as [IH1 IH2].
    rewrite (get_logger_registry name w H) in *. split.
    + rewrite IH1. unfold Lib.handlers_of. cbn. rewrite filter_app. cbn.
      rewrite pystr_eqb_refl, map_app, length_app. cbn. lia.
    + intros other Ho. rewrite (IH2 other Ho). unfold Lib.handlers_of. cbn.
      rewrite filter_app. cbn.
      replace (pystr_eqb name other) with false; [now rewrite app_nil_r|].
      symmetry. destruct (pystr_eqb name other) eqn:E; [|reflexivity].
      apply pystr_eqb_eq in E. subst. now rewrite pystr_eqb_refl in Ho.
Qed.

Lemma get_logger_handlers_accumulate_witness :
  List.length (Lib.handlers_of (lit "Utils")
                 (Lib.after_calls 3 (lit "Utils") Lib.fresh_logging))
  = (List.length (Lib.handlers_of (lit "Utils") Lib.fresh_logging) + 3)%nat
  /\ forall other, pystr_eqb other (lit "Utils") = false ->
       Lib.handlers_of other (Lib.after_calls 3 (lit "Utils") Lib.fresh_logging)
       = Lib.handlers_of other Lib.fresh_logging.
Proof.
  apply (get_logger_handlers_accumulate 3 (lit "Utils") Lib.fresh_logging).
  reflexivity.
Defined.
